(** * A shallow embedding of the team-assistant bot (lab1/sources/bot.py)

    The development follows the source file top to bottom: Python strings
    and datetimes, the SQLite store behind [class Database], the
    conversation handlers, the [ConversationHandler] tables built in
    [main], the daily digest job, the plain commands and the dispatch of
    the [Application].  Theorems about them come last. *)

From Stdlib Require Import ZArith List Bool Lia String Ascii Sorted Permutation
  DecimalString.
Import ListNotations.

Local Open Scope Z_scope.

(** ** Python strings

    A [str] is a sequence of Unicode code points, each an integer as
    [ord] returns it. *)

Definition codepoint := Z.
Definition str := list codepoint.

(** String literals of this file are written as UTF-8 text and decoded
    here, so that [utf8 "ответ"] is the five code points of the word. *)
Fixpoint utf8_decode (pending : nat) (acc : Z) (bytes : list Z) : str :=
  match bytes with
  | [] => []
  | b :: rest =>
      match pending with
      | S n =>
          let acc' := acc * 64 + b mod 64 in
          match n with
          | O => acc' :: utf8_decode O 0 rest
          | S _ => utf8_decode n acc' rest
          end
      | O =>
          if b <? 128 then b :: utf8_decode O 0 rest
          else if b <? 224 then utf8_decode 1 (b mod 32) rest
          else if b <? 240 then utf8_decode 2 (b mod 16) rest
          else utf8_decode 3 (b mod 8) rest
      end
  end.

Definition utf8 (s : string) : str :=
  utf8_decode O 0 (map (fun a => Z.of_N (N_of_ascii a)) (list_ascii_of_string s)).

Definition str_eqb (a b : str) : bool :=
  if list_eq_dec Z.eq_dec a b then true else false.

(** Truth value of a [str]: the empty string is falsy. *)
Definition truthy (s : str) : bool :=
  match s with [] => false | _ :: _ => true end.

(** [needle in haystack]. *)
Fixpoint startswith (s prefix : str) : bool :=
  match prefix, s with
  | [], _ => true
  | _ :: _, [] => false
  | p :: prefix', c :: s' => (c =? p) && startswith s' prefix'
  end.

Fixpoint contains (haystack needle : str) : bool :=
  startswith haystack needle ||
  match haystack with
  | [] => false
  | _ :: rest => contains rest needle
  end.

(** Code-point order, which is also the order of the UTF-8 encodings
    under [memcmp] (SQLite's BINARY collation). *)
Fixpoint str_compare (a b : str) : comparison :=
  match a, b with
  | [], [] => Eq
  | [], _ :: _ => Lt
  | _ :: _, [] => Gt
  | x :: a', y :: b' =>
      match x ?= y with
      | Eq => str_compare a' b'
      | c => c
      end
  end.

Definition str_leb (a b : str) : bool :=
  match str_compare a b with Gt => false | _ => true end.

(** ** Exceptions

    The exceptions the program can meet, and results that either return
    or raise. *)

Inductive exn := ValueError | TypeError | OverflowError | sqlite3_Error.

Inductive result (A : Type) :=
| Ok (a : A)
| Raise (e : exn).
Arguments Ok {A} a.
Arguments Raise {A} e.

Definition exn_eqb (a b : exn) : bool :=
  match a, b with
  | ValueError, ValueError | TypeError, TypeError
  | OverflowError, OverflowError | sqlite3_Error, sqlite3_Error => true
  | _, _ => false
  end.

(** ** datetime

    A naive [datetime.datetime] (no tzinfo): the program builds them with
    [datetime.now()] and [datetime.strptime] only. *)

Record datetime := mk_datetime {
  year : Z; month : Z; day : Z;
  hour : Z; minute : Z; second : Z; microsecond : Z
}.

Definition is_leap (y : Z) : bool :=
  (y mod 4 =? 0) && (negb (y mod 100 =? 0) || (y mod 400 =? 0)).

Definition DAYS_IN_MONTH (m : Z) : Z :=
  nth (Z.to_nat m) [-1; 31; 28; 31; 30; 31; 30; 31; 31; 30; 31; 30; 31] 0.

Definition days_in_month (y m : Z) : Z :=
  if (m =? 2) && is_leap y then 29 else DAYS_IN_MONTH m.

Definition in_range (lo x hi : Z) : bool := (lo <=? x) && (x <=? hi).

(** The checks of the [datetime] constructor; every datetime object of a
    running program satisfies them. *)
Definition valid_datetime (d : datetime) : bool :=
  in_range 1 (year d) 9999 && in_range 1 (month d) 12 &&
  in_range 1 (day d) (days_in_month (year d) (month d)) &&
  in_range 0 (hour d) 23 && in_range 0 (minute d) 59 &&
  in_range 0 (second d) 59 && in_range 0 (microsecond d) 999999.

Definition datetime_new (y m d hh mm ss us : Z) : result datetime :=
  let dt := mk_datetime y m d hh mm ss us in
  if valid_datetime dt then Ok dt else Raise ValueError.

(** Comparison of two naive datetimes: field by field. *)
Definition datetime_fields (d : datetime) : list Z :=
  [year d; month d; day d; hour d; minute d; second d; microsecond d].

Fixpoint fields_compare (a b : list Z) : comparison :=
  match a, b with
  | x :: a', y :: b' =>
      match x ?= y with
      | Eq => fields_compare a' b'
      | c => c
      end
  | _, _ => Eq
  end.

Definition datetime_compare (a b : datetime) : comparison :=
  fields_compare (datetime_fields a) (datetime_fields b).

Definition datetime_leb (a b : datetime) : bool :=
  match datetime_compare a b with Gt => false | _ => true end.

(** ["%0<width>d" % n] for [0 <= n < 10 ^ width], the only use
    [isoformat] makes of it on a valid datetime. *)
Fixpoint digits (width : nat) (n : Z) : str :=
  match width with
  | O => []
  | S w => (48 + (n / 10 ^ Z.of_nat w) mod 10) :: digits w n
  end.

(** [datetime.isoformat()] with the default separator ['T']: the
    fraction is printed only when the microsecond is not zero. *)
Definition isoformat (d : datetime) : str :=
  digits 4 (year d) ++ [45] ++ digits 2 (month d) ++ [45] ++ digits 2 (day d) ++
  [84] ++ digits 2 (hour d) ++ [58] ++ digits 2 (minute d) ++ [58] ++
  digits 2 (second d) ++
  (if microsecond d =? 0 then [] else 46 :: digits 6 (microsecond d)).

(** Proleptic Gregorian ordinals, as in CPython's [datetime] module. *)
Definition days_before_year (y : Z) : Z :=
  let y1 := y - 1 in y1 * 365 + y1 / 4 - y1 / 100 + y1 / 400.

Definition DAYS_BEFORE_MONTH (m : Z) : Z :=
  nth (Z.to_nat m) [0; 0; 31; 59; 90; 120; 151; 181; 212; 243; 273; 304; 334] 0.

Definition days_before_month (y m : Z) : Z :=
  DAYS_BEFORE_MONTH m + (if (2 <? m) && is_leap y then 1 else 0).

Definition ymd2ord (y m d : Z) : Z :=
  days_before_year y + days_before_month y m + d.

Definition MAXORDINAL : Z := 3652059.

Definition ord2ymd (ordinal : Z) : Z * Z * Z :=
  let n := ordinal - 1 in
  let n400 := n / 146097 in
  let n := n mod 146097 in
  let n100 := n / 36524 in
  let n := n mod 36524 in
  let n4 := n / 1461 in
  let n := n mod 1461 in
  let n1 := n / 365 in
  let n := n mod 365 in
  let y := n400 * 400 + 1 + n100 * 100 + n4 * 4 + n1 in
  if (n1 =? 4) || (n100 =? 4) then (y - 1, 12, 31)
  else
    let leapyear := (n1 =? 3) && (negb (n4 =? 24) || (n100 =? 3)) in
    let m := Z.shiftr (n + 50) 5 in
    let preceding := DAYS_BEFORE_MONTH m + (if (2 <? m) && leapyear then 1 else 0) in
    if n <? preceding then
      let m' := m - 1 in
      let preceding' :=
        preceding - (DAYS_IN_MONTH m' + (if (m' =? 2) && leapyear then 1 else 0)) in
      (y, m', n - preceding' + 1)
    else (y, m, n - preceding + 1).

(** [d + timedelta(days=n)]: the time of day is kept, the date moves by
    [n] ordinals, and a date outside year 1..9999 raises OverflowError. *)
Definition add_days (d : datetime) (n : Z) : result datetime :=
  let o := ymd2ord (year d) (month d) (day d) + n in
  if (0 <? o) && (o <=? MAXORDINAL) then
    let '(y, m, dd) := ord2ymd o in
    Ok (mk_datetime y m dd (hour d) (minute d) (second d) (microsecond d))
  else Raise OverflowError.

(** ** The Python runtime

    What the program takes from the interpreter's Unicode database and
    from the standard library's ISO parser.  The handlers are written
    against this interface. *)

Class PyRuntime := {
  (** [str.lower()] *)
  lower : str -> str;
  (** [str.isspace()] of one character, which is also the regex class [\s] *)
  isspace : codepoint -> bool;
  (** the regex class [\d], with the value [int()] gives the digit *)
  decimal : codepoint -> option Z;
  (** [re.IGNORECASE] match of a pattern letter against a text character *)
  ignorecase_eq : codepoint -> codepoint -> bool;
  (** [datetime.fromisoformat]; [None] stands for ValueError *)
  fromisoformat : str -> option datetime
}.

Section Runtime.
Context {py : PyRuntime}.

(** *** str.strip *)

Fixpoint lstrip (s : str) : str :=
  match s with
  | c :: s' => if isspace c then lstrip s' else s
  | [] => []
  end.

Definition rstrip (s : str) : str := rev (lstrip (rev s)).

Definition strip (s : str) : str := rstrip (lstrip s).

(** *** The two regular expressions of [answer_received]

    Both have the shape [label\s*] under [re.IGNORECASE]: the label is
    matched letter by letter, then the longest run of whitespace. *)

Fixpoint match_literal (pattern s : str) : option str :=
  match pattern, s with
  | [], _ => Some s
  | _ :: _, [] => None
  | p :: pattern', c :: s' =>
      if ignorecase_eq p c then match_literal pattern' s' else None
  end.

Definition match_label (label s : str) : option str :=
  match match_literal label s with
  | Some rest => Some (lstrip rest)
  | None => None
  end.

(** [re.split(label + r'\s*', text, flags=re.IGNORECASE, maxsplit=1)]:
    the text before the leftmost match and the text after it, or the
    text alone when nothing matches. *)
Fixpoint re_split (label text : str) : list str :=
  match match_label label text with
  | Some tail => [[]; tail]
  | None =>
      match text with
      | [] => [[]]
      | c :: text' =>
          match re_split label text' with
          | head :: parts => (c :: head) :: parts
          | [] => []
          end
      end
  end.

(** The match of [r'^.*?' + label + r'\s*'] at the start of [s]: the
    lazy [.*?] stops at the first place the label matches, and [.] does
    not cross a newline. *)
Fixpoint match_lazy_prefix (label s : str) : option str :=
  match match_label label s with
  | Some rest => Some rest
  | None =>
      match s with
      | [] => None
      | c :: s' => if c =? 10 then None else match_lazy_prefix label s'
      end
  end.

(** [re.sub(r'^.*?' + label + r'\s*', '', s, flags=re.IGNORECASE)]: the
    anchor lets the pattern match at most once. *)
Definition re_sub_prefix (label s : str) : str :=
  match match_lazy_prefix label s with
  | Some rest => rest
  | None => s
  end.

(** *** datetime.strptime(date_str, "%d.%m.%Y %H:%M")

    [_strptime] turns the format into the regular expression
    [(?P<d>3[0-1]|[1-2]\d|0[1-9]|[1-9]| [1-9])\.(?P<m>1[0-2]|0[1-9]|[1-9])\.(?P<Y>\d\d\d\d)\s+(?P<H>2[0-3]|[0-1]\d|\d):(?P<M>[0-5]\d|\d)],
    matches it at the start of the text and refuses text left over.  A
    regular expression is run here as the list of its matches in the
    order backtracking tries them, each with the value [int()] gives the
    group and the text that remains. *)

Definition regex (A : Type) := str -> list (A * str).

Definition re_bind {A B} (r : regex A) (k : A -> regex B) : regex B :=
  fun s => flat_map (fun '(a, rest) => k a rest) (r s).

Definition re_ret {A} (a : A) : regex A := fun s => [(a, s)].

Definition re_alt {A} (alternatives : list (regex A)) : regex A :=
  fun s => flat_map (fun r => r s) alternatives.

(** One character of the class [[lo-hi]] of ASCII digits. *)
Definition re_range (lo hi : Z) : regex Z :=
  fun s =>
    match s with
    | c :: rest => if in_range (48 + lo) c (48 + hi) then [(c - 48, rest)] else []
    | [] => []
    end.

(** [\d] *)
Definition re_digit : regex Z :=
  fun s =>
    match s with
    | c :: rest => match decimal c with Some v => [(v, rest)] | None => [] end
    | [] => []
    end.

Definition re_char (ch : codepoint) : regex unit :=
  fun s =>
    match s with
    | c :: rest => if c =? ch then [(tt, rest)] else []
    | [] => []
    end.

(** [\s+], greedy: the longest run first. *)
Fixpoint re_spaces (s : str) : list (unit * str) :=
  match s with
  | c :: rest => if isspace c then re_spaces rest ++ [(tt, rest)] else []
  | [] => []
  end.

Definition re_pair (hi lo : regex Z) : regex Z :=
  re_bind hi (fun a => re_bind lo (fun b => re_ret (10 * a + b))).

Definition directive_d : regex Z :=
  re_alt [ re_pair (re_range 3 3) (re_range 0 1);
           re_pair (re_range 1 2) re_digit;
           re_pair (re_range 0 0) (re_range 1 9);
           re_range 1 9;
           re_bind (re_char 32) (fun _ => re_range 1 9) ].

Definition directive_m : regex Z :=
  re_alt [ re_pair (re_range 1 1) (re_range 0 2);
           re_pair (re_range 0 0) (re_range 1 9);
           re_range 1 9 ].

Definition directive_Y : regex Z :=
  re_bind re_digit (fun a => re_bind re_digit (fun b =>
  re_bind re_digit (fun c => re_bind re_digit (fun d =>
  re_ret (1000 * a + 100 * b + 10 * c + d))))).

Definition directive_H : regex Z :=
  re_alt [ re_pair (re_range 2 2) (re_range 0 3);
           re_pair (re_range 0 1) re_digit;
           re_digit ].

Definition directive_M : regex Z :=
  re_alt [ re_pair (re_range 0 5) re_digit; re_digit ].

Definition format_regex : regex (Z * Z * Z * Z * Z) :=
  re_bind directive_d (fun d => re_bind (re_char 46) (fun _ =>
  re_bind directive_m (fun m => re_bind (re_char 46) (fun _ =>
  re_bind directive_Y (fun y => re_bind re_spaces (fun _ =>
  re_bind directive_H (fun hh => re_bind (re_char 58) (fun _ =>
  re_bind directive_M (fun mm => re_ret (d, m, y, hh, mm)))))))))).

Definition strptime (date_str : str) : result datetime :=
  match format_regex date_str with
  | [] => Raise ValueError                       (* does not match format *)
  | ((d, m, y, hh, mm), rest) :: _ =>
      match rest with
      | _ :: _ => Raise ValueError               (* unconverted data remains *)
      | [] => datetime_new y m d hh mm 0 0
      end
  end.

End Runtime.

(** ** State and exceptions

    Code that changes a state and may raise: the state reached when an
    exception is raised is kept, as Python keeps every mutation made
    before the raise. *)

Definition M (S A : Type) := S -> result A * S.

Definition ret {S A} (a : A) : M S A := fun s => (Ok a, s).

Definition raise {S A} (e : exn) : M S A := fun s => (Raise e, s).

Definition bind {S A B} (m : M S A) (k : A -> M S B) : M S B :=
  fun s =>
    match m s with
    | (Ok a, s') => k a s'
    | (Raise e, s') => (Raise e, s')
    end.

Definition lift {S A} (r : result A) : M S A := fun s => (r, s).

(** [try: body  except <caught>: handler] *)
Definition try_except {S A} (body : M S A) (caught : exn -> bool) (handler : M S A)
  : M S A :=
  fun s =>
    match body s with
    | (Ok a, s') => (Ok a, s')
    | (Raise e, s') => if caught e then handler s' else (Raise e, s')
    end.

Definition except_ (classes : list exn) : exn -> bool :=
  fun e => existsb (exn_eqb e) classes.

(** [except Exception] *)
Definition Exception : exn -> bool := fun _ => true.

Declare Scope py_scope.
Delimit Scope py_scope with py.
Notation "x <- m ;; k" := (bind m (fun x => k))
  (at level 61, m at next level, right associativity) : py_scope.
Notation "m ;; k" := (bind m (fun _ => k))
  (at level 61, right associativity) : py_scope.
Local Open Scope py_scope.

(** ** SQLite values, comparison and LIKE *)

(** What a column of the [events] table can hold.  [event_date] is
    declared TIMESTAMP NOT NULL, which has NUMERIC affinity: a text that
    does not read as a number is stored as text, as ISO dates are. *)
Inductive sql_value :=
| SqlInt (n : Z)
| SqlText (s : str)
| SqlBlob (b : list Z).

(** The order of [ORDER BY] and of the comparison operators: numbers
    before texts before blobs, texts under the BINARY collation. *)
Definition sql_compare (a b : sql_value) : comparison :=
  match a, b with
  | SqlInt x, SqlInt y => x ?= y
  | SqlInt _, _ => Lt
  | SqlText _, SqlInt _ => Gt
  | SqlText x, SqlText y => str_compare x y
  | SqlText _, SqlBlob _ => Lt
  | SqlBlob x, SqlBlob y => str_compare x y
  | SqlBlob _, _ => Gt
  end.

Definition sql_leb (a b : sql_value) : bool :=
  match sql_compare a b with Gt => false | _ => true end.

Definition sql_geb (a b : sql_value) : bool := sql_leb b a.

Definition sql_eqb (a b : sql_value) : bool :=
  match sql_compare a b with Eq => true | _ => false end.

(** The built-in LIKE: [%] matches any run of characters, [_] any one
    character, and any other character matches itself, or its other
    case when both are ASCII letters.  There is no escape character.
    (Texts are taken without NUL characters and patterns within
    SQLite's length limit, as the messages of a chat are.) *)
Definition sqlite_tolower (c : codepoint) : codepoint :=
  if in_range 65 c 90 then c + 32 else c.

Definition like_char (p c : codepoint) : bool :=
  (p =? c) || ((p <? 128) && (c <? 128) && (sqlite_tolower p =? sqlite_tolower c)).

Fixpoint like (pattern s : str) : bool :=
  match pattern with
  | [] => match s with [] => true | _ :: _ => false end
  | p :: pattern' =>
      if p =? 37 then
        (fix any (s : str) : bool :=
           like pattern' s ||
           match s with
           | [] => false
           | _ :: s' => any s'
           end) s
      else
        match s with
        | [] => false
        | c :: s' => ((p =? 95) || like_char p c) && like pattern' s'
        end
  end.

(** [ORDER BY]: a stable insertion sort (SQLite leaves the order of
    rows with equal keys open; here they keep their rowid order). *)
Fixpoint insert_by {A} (leb : A -> A -> bool) (x : A) (sorted : list A) : list A :=
  match sorted with
  | [] => [x]
  | y :: rest => if leb x y then x :: sorted else y :: insert_by leb x rest
  end.

Definition order_by {A} (leb : A -> A -> bool) (rows : list A) : list A :=
  fold_right (insert_by leb) [] rows.

(** [LIMIT n]: a negative limit is no limit. *)
Definition limit_rows {A} (n : Z) (rows : list A) : list A :=
  if n <? 0 then rows else firstn (Z.to_nat n) rows.

(** ** class Database

    The four tables, each a list of rows in rowid order.  The columns
    no statement reads are left out: every [id] (a row's place in the
    list is its rowid order) and the [created_at] of the first three
    tables. *)

Record company_info_row := { ci_question : str; ci_answer : str }.
Record contacts_row := { ct_name : str; ct_info : str }.
Record events_row := {
  ev_name : str;
  ev_event_date : sql_value;
  ev_description : option str;   (* nullable *)
  ev_notified : Z                (* BOOLEAN DEFAULT 0 *)
}.
Record digests_row := {
  dg_content : str;
  dg_created_at : Z   (* CURRENT_TIMESTAMP of the insert, in seconds *)
}.

Record Database := {
  company_info : list company_info_row;
  contacts : list contacts_row;
  events : list events_row;
  digests : list digests_row
}.

(** [init_db] on a fresh file: four empty tables. *)
Definition init_db : Database :=
  {| company_info := []; contacts := []; events := []; digests := [] |}.

(** What a call finds outside the program: the clocks, the backend and
    the name Telegram knows the bot by. *)
Record Env := {
  now : datetime;            (* datetime.now() *)
  CURRENT_TIMESTAMP : Z;     (* SQLite's clock, in seconds *)
  sqlite_ok : bool;          (* false: the sqlite3 calls raise sqlite3.Error *)
  bot_username : string      (* message.get_bot().username *)
}.

(** [get_connection]: the point where an unavailable backend raises.  A
    method that raises before [conn.commit()] leaves the tables as they
    were. *)
Definition get_connection (env : Env) : M Database unit :=
  if sqlite_ok env then ret tt else raise sqlite3_Error.

(** [cursor.execute] of a statement that writes, followed by the commit. *)
Definition execute (statement : Database -> Database) : M Database unit :=
  fun db => (Ok tt, statement db).

(** [cursor.execute] of a SELECT, followed by [fetchall]. *)
Definition fetchall {A} (select : Database -> list A) : M Database (list A) :=
  fun db => (Ok (select db), db).

(** ... followed by [fetchone]. *)
Definition fetchone {A} (select : Database -> list A) : M Database (option A) :=
  fun db => (Ok (hd_error (select db)), db).

(** *** The SQL statements *)

(** [INSERT OR REPLACE INTO company_info (question, answer) VALUES (?, ?)]:
    [question] is UNIQUE, so the rows with this question are deleted
    before the new row is inserted. *)
Definition insert_or_replace_company_info (q a : str) (db : Database) : Database :=
  {| company_info :=
       filter (fun row => negb (str_eqb (ci_question row) q)) (company_info db)
       ++ [{| ci_question := q; ci_answer := a |}];
     contacts := contacts db; events := events db; digests := digests db |}.

(** [SELECT answer FROM company_info WHERE question = ?] *)
Definition select_answer (q : str) (db : Database) : list str :=
  map ci_answer (filter (fun row => str_eqb (ci_question row) q) (company_info db)).

(** [INSERT INTO contacts (name, info) VALUES (?, ?)] *)
Definition insert_contact (name info : str) (db : Database) : Database :=
  {| company_info := company_info db;
     contacts := contacts db ++ [{| ct_name := name; ct_info := info |}];
     events := events db; digests := digests db |}.

(** [SELECT name, info FROM contacts ORDER BY name] *)
Definition select_contacts_ordered (db : Database) : list contacts_row :=
  order_by (fun a b => str_leb (ct_name a) (ct_name b)) (contacts db).

(** [SELECT name, info FROM contacts WHERE name LIKE ?] *)
Definition select_contacts_like (pattern : str) (db : Database) : list contacts_row :=
  filter (fun row => like pattern (ct_name row)) (contacts db).

(** [INSERT INTO events (name, event_date, description) VALUES (?, ?, ?)] *)
Definition insert_event (name event_date_str description : str) (db : Database)
  : Database :=
  {| company_info := company_info db; contacts := contacts db;
     events := events db ++
       [{| ev_name := name; ev_event_date := SqlText event_date_str;
           ev_description := Some description; ev_notified := 0 |}];
     digests := digests db |}.

(** [SELECT name, event_date, description FROM events
     WHERE event_date >= ? AND notified = 0 ORDER BY event_date], with
    [AND event_date <= ?] when an end date is given. *)
Definition select_upcoming (now_str : str) (end_date_str : option str) (db : Database)
  : list events_row :=
  order_by (fun a b => sql_leb (ev_event_date a) (ev_event_date b))
    (filter
       (fun row =>
          sql_geb (ev_event_date row) (SqlText now_str) &&
          match end_date_str with
          | Some e => sql_leb (ev_event_date row) (SqlText e)
          | None => true
          end &&
          (ev_notified row =? 0))
       (events db)).

(** [UPDATE events SET notified = 1 WHERE name = ? AND event_date = ?] *)
Definition update_notified (name event_date_str : str) (db : Database) : Database :=
  {| company_info := company_info db; contacts := contacts db;
     events :=
       map (fun row =>
              if str_eqb (ev_name row) name &&
                 sql_eqb (ev_event_date row) (SqlText event_date_str)
              then {| ev_name := ev_name row; ev_event_date := ev_event_date row;
                      ev_description := ev_description row; ev_notified := 1 |}
              else row)
           (events db);
     digests := digests db |}.

(** [INSERT INTO digests (content) VALUES (?)] *)
Definition insert_digest (content : str) (created_at : Z) (db : Database) : Database :=
  {| company_info := company_info db; contacts := contacts db; events := events db;
     digests := digests db ++ [{| dg_content := content; dg_created_at := created_at |}] |}.

(** [SELECT content FROM digests ORDER BY created_at DESC LIMIT ?] *)
Definition select_recent_digests (limit : Z) (db : Database) : list str :=
  map dg_content
    (limit_rows limit
       (order_by (fun a b => dg_created_at b <=? dg_created_at a) (digests db))).

(** *** The methods *)

(** The dicts the methods return. *)
Record contact_dict := { c_name : str; c_info : str }.
Record event_dict := { e_name : str; e_event_date : datetime; e_description : str }.

Section Methods.
Context {py : PyRuntime}.

Definition add_company_info (env : Env) (question answer : str) : M Database bool :=
  try_except
    (get_connection env ;;
     execute (insert_or_replace_company_info (lower question) answer) ;;
     ret true)
    (except_ [sqlite3_Error])
    (ret false).

Definition get_company_info (env : Env) (question : str) : M Database (option str) :=
  try_except
    (get_connection env ;;
     result <- fetchone (select_answer (lower question)) ;;
     ret result)
    (except_ [sqlite3_Error])
    (ret None).

Definition add_contact (env : Env) (name info : str) : M Database bool :=
  try_except
    (get_connection env ;;
     execute (insert_contact name info) ;;
     ret true)
    (except_ [sqlite3_Error])
    (ret false).

Definition get_contacts (env : Env) : M Database (list contact_dict) :=
  try_except
    (get_connection env ;;
     results <- fetchall select_contacts_ordered ;;
     ret (map (fun row => {| c_name := ct_name row; c_info := ct_info row |}) results))
    (except_ [sqlite3_Error])
    (ret []).

Definition search_contact (env : Env) (name : str) : M Database (option contact_dict) :=
  try_except
    (get_connection env ;;
     result <- fetchone (select_contacts_like ([37] ++ name ++ [37])) ;;
     ret (match result with
          | Some row => Some {| c_name := ct_name row; c_info := ct_info row |}
          | None => None
          end))
    (except_ [sqlite3_Error])
    (ret None).

Definition add_event (env : Env) (name : str) (event_date : datetime) (description : str)
  : M Database bool :=
  try_except
    (get_connection env ;;
     let event_date_str := isoformat event_date in
     execute (insert_event name event_date_str description) ;;
     ret true)
    (except_ [sqlite3_Error])
    (ret false).

(** [datetime.fromisoformat(row['event_date'])]: a column that holds a
    number or a blob reaches Python as an [int] or [bytes], which is a
    TypeError; a text that does not parse is a ValueError. *)
Definition row_fromisoformat (v : sql_value) : result datetime :=
  match v with
  | SqlText s =>
      match fromisoformat s with
      | Some d => Ok d
      | None => Raise ValueError
      end
  | SqlInt _ | SqlBlob _ => Raise TypeError
  end.

(** [row['description'] or ''] *)
Definition or_empty (v : option str) : str :=
  match v with
  | Some s => s
  | None => []
  end.

(** The [for row in results] loop of [get_upcoming_events]. *)
Fixpoint for_row_in (results : list events_row) (events : list event_dict)
  : M Database (list event_dict) :=
  match results with
  | [] => ret events
  | row :: results' =>
      events' <-
        try_except
          (event_date <- lift (row_fromisoformat (ev_event_date row)) ;;
           ret (events ++ [{| e_name := ev_name row;
                              e_event_date := event_date;
                              e_description := or_empty (ev_description row) |}]))
          (except_ [ValueError; TypeError])
          (ret events) ;;                                          (* continue *)
      for_row_in results' events'
  end.

Definition get_upcoming_events (env : Env) (days : option Z) : M Database (list event_dict) :=
  try_except
    (get_connection env ;;
     let now_str := isoformat (now env) in
     results <-
       match days with
       | Some n =>
           end_date <- lift (add_days (now env) n) ;;
           let end_date_str := isoformat end_date in
           fetchall (select_upcoming now_str (Some end_date_str))
       | None =>
           fetchall (select_upcoming now_str None)
       end ;;
     events <- for_row_in results [] ;;
     ret events)
    (except_ [sqlite3_Error])
    (ret []).

Definition mark_event_notified (env : Env) (event_name : str) (event_date : datetime)
  : M Database bool :=
  try_except
    (get_connection env ;;
     let event_date_str := isoformat event_date in
     execute (update_notified event_name event_date_str) ;;
     ret true)
    (except_ [sqlite3_Error])
    (ret false).

Definition add_digest (env : Env) (content : str) : M Database bool :=
  try_except
    (get_connection env ;;
     execute (insert_digest content (CURRENT_TIMESTAMP env)) ;;
     ret true)
    (except_ [sqlite3_Error])
    (ret false).

(** A Python [int] bound to a [?] of a statement.  SQLite's INTEGER
    has 64 bits with a sign; [cursor.execute] raises OverflowError for
    an [int] outside of them, which is no [sqlite3.Error]. *)
Definition bind_integer (n : Z) : result Z :=
  if (- 2 ^ 63 <=? n) && (n <? 2 ^ 63) then Ok n else Raise OverflowError.

Definition get_recent_digests (env : Env) (limit : Z) : M Database (list str) :=
  try_except
    (get_connection env ;;
     limit <- lift (bind_integer limit) ;;
     results <- fetchall (select_recent_digests limit) ;;
     ret results)
    (except_ [sqlite3_Error])
    (ret []).

End Methods.

(** ** The conversation handlers *)

(** States of the ConversationHandlers: [range(6)], and
    [ConversationHandler.END]. *)
Definition ASKING_QUESTION : Z := 0.
Definition ADDING_CONTACT_NAME : Z := 1.
Definition ADDING_CONTACT_INFO : Z := 2.
Definition ADDING_EVENT_NAME : Z := 3.
Definition ADDING_EVENT_DATE : Z := 4.
Definition ADDING_EVENT_DESCRIPTION : Z := 5.
Definition END : Z := -1.

(** [context.user_data]: the dict of one user, with the three keys the
    handlers use; a key that is not set reads as [None], as [.get] does. *)
Record UserData := {
  contact_name : option str;
  event_name : option str;
  event_date : option datetime
}.

Definition user_data_empty : UserData :=
  {| contact_name := None; event_name := None; event_date := None |}.

(** What a handler works on: the global [db], the user's [user_data],
    the messages sent with [reply_text] and the digests written with
    [logger.info] by the daily job, oldest first.  Sending a reply is
    taken to succeed; the other log records change nothing and are left
    out. *)
Record World := {
  db : Database;
  user_data : UserData;
  replies : list str;
  logged : list str
}.

Definition call_db {A} (method : M Database A) : M World A :=
  fun w =>
    let '(r, db') := method (db w) in
    (r, {| db := db'; user_data := user_data w; replies := replies w;
           logged := logged w |}).

Definition reply_text (message : str) : M World unit :=
  fun w =>
    (Ok tt, {| db := db w; user_data := user_data w;
               replies := replies w ++ [message]; logged := logged w |}).

Definition logger_info (message : str) : M World unit :=
  fun w =>
    (Ok tt, {| db := db w; user_data := user_data w; replies := replies w;
               logged := logged w ++ [message] |}).

Definition get_user_data : M World UserData := fun w => (Ok (user_data w), w).

Definition set_user_data (u : UserData) : M World unit :=
  fun w =>
    (Ok tt, {| db := db w; user_data := u; replies := replies w;
               logged := logged w |}).

Definition set_contact_name (v : str) : M World unit :=
  u <- get_user_data ;;
  set_user_data {| contact_name := Some v; event_name := event_name u;
                   event_date := event_date u |}.

Definition set_event_name (v : str) : M World unit :=
  u <- get_user_data ;;
  set_user_data {| contact_name := contact_name u; event_name := Some v;
                   event_date := event_date u |}.

Definition set_event_date (v : datetime) : M World unit :=
  u <- get_user_data ;;
  set_user_data {| contact_name := contact_name u; event_name := event_name u;
                   event_date := Some v |}.

(** [context.user_data.clear()] *)
Definition user_data_clear : M World unit := set_user_data user_data_empty.

(** Truth value of an optional string: [None] and [''] are falsy. *)
Definition truthy_opt (v : option str) : bool :=
  match v with
  | Some s => truthy s
  | None => false
  end.

(** The labels of the answer dialog. *)
Definition VOPROS : str := utf8 "вопрос".
Definition OTVET : str := utf8 "ответ".
Definition VOPROS_COLON : str := utf8 "вопрос:".
Definition OTVET_COLON : str := utf8 "ответ:".

(** The replies. *)
Definition NL : str := [10].
Definition MSG_ASK_QUESTION : str :=
  utf8 "❓ Задайте ваш вопрос о компании/проекте/команде:".
Definition MSG_ANSWER (answer : str) : str := utf8 "💡 Ответ:" ++ NL ++ answer.
Definition MSG_UNKNOWN : str :=
  utf8 "❌ К сожалению, я не знаю ответа на этот вопрос." ++ NL ++
  utf8 "Используйте /answer чтобы добавить ответ.".
Definition MSG_QUESTION_ERROR : str := utf8 "Произошла ошибка при обработке вопроса.".
Definition MSG_ANSWER_PROMPT : str :=
  utf8 "📝 Введите вопрос и ответ в формате:" ++ NL ++
  utf8 "Вопрос: ваш вопрос" ++ NL ++ utf8 "Ответ: ваш ответ".
Definition MSG_ANSWER_ADDED : str := utf8 "✅ Ответ успешно добавлен!".
Definition MSG_ANSWER_NOT_ADDED : str := utf8 "❌ Ошибка при добавлении ответа.".
Definition MSG_EMPTY : str := utf8 "❌ Вопрос и ответ не могут быть пустыми.".
Definition MSG_BAD_FORMAT_RETRY : str := utf8 "❌ Неверный формат. Попробуйте снова.".
Definition MSG_BAD_FORMAT : str :=
  utf8 "❌ Неверный формат. Используйте формат:" ++ NL ++
  utf8 "Вопрос: ..." ++ NL ++ utf8 "Ответ: ...".
Definition MSG_ANSWER_ERROR : str := utf8 "Произошла ошибка при добавлении ответа.".
Definition MSG_CANCELLED : str := utf8 "❌ Операция отменена.".
Definition MSG_CONTACT_NAME_PROMPT : str := utf8 "👤 Введите имя коллеги:".
Definition MSG_CONTACT_INFO_PROMPT : str :=
  utf8 "📝 Введите контактную информацию (телефон, email, должность и т.д.):".
Definition MSG_CONTACT_ADDED (name : str) : str :=
  utf8 "✅ Контакт " ++ name ++ utf8 " успешно добавлен!".
Definition MSG_CONTACT_NOT_ADDED : str := utf8 "❌ Ошибка при добавлении контакта.".
Definition MSG_CONTACT_ERROR : str := utf8 "Произошла ошибка при добавлении контакта.".
Definition MSG_EVENT_NAME_PROMPT : str := utf8 "📅 Введите название события:".
Definition MSG_EVENT_DATE_PROMPT : str :=
  utf8 "📆 Введите дату и время события в формате:" ++ NL ++
  utf8 "ДД.ММ.ГГГГ ЧЧ:ММ" ++ NL ++ utf8 "Например: 25.12.2024 15:00".
Definition MSG_EVENT_DESCRIPTION_PROMPT : str :=
  utf8 "📝 Введите описание события (или отправьте '-' чтобы пропустить):".
Definition MSG_BAD_DATE : str :=
  utf8 "❌ Неверный формат даты. Используйте: ДД.ММ.ГГГГ ЧЧ:ММ".
Definition MSG_EVENT_ADDED (name : str) : str :=
  utf8 "✅ Событие '" ++ name ++ utf8 "' успешно добавлено!".
Definition MSG_EVENT_NOT_ADDED : str := utf8 "❌ Ошибка при добавлении события.".
Definition MSG_EVENT_DATA_MISSING : str := utf8 "❌ Ошибка: данные события не найдены.".
Definition MSG_EVENT_ERROR : str := utf8 "Произошла ошибка при добавлении события.".
Definition MSG_DIGEST_PROMPT : str := utf8 "📰 Введите содержание дайджеста:".
Definition MSG_DIGEST_ADDED : str := utf8 "✅ Дайджест успешно добавлен!".
Definition MSG_DIGEST_NOT_ADDED : str := utf8 "❌ Ошибка при добавлении дайджеста.".
Definition MSG_DIGEST_ERROR : str := utf8 "Произошла ошибка при добавлении дайджеста.".
Definition MSG_DAILY_DIGEST (digest : str) : str :=
  utf8 "📰 Ежедневный дайджест:" ++ NL ++ NL ++ digest.
Definition MSG_NO_DIGEST : str :=
  utf8 "📰 Ежедневный дайджест:" ++ NL ++ NL ++ utf8 "Сегодня нет новых дайджестов.".
Definition MSG_EVENTS_TODAY : str := NL ++ NL ++ utf8 "📅 События на сегодня:" ++ NL.
Definition MSG_BULLET (name : str) : str := utf8 "• " ++ name ++ NL.
Definition MSG_LOG_PREFIX : str := utf8 "Ежедневный дайджест: ".

(** A handler receives the environment of the call and
    [update.message.text], and returns the next state. *)
Definition Handler := Env -> str -> M World Z.

Section Handlers.
Context {py : PyRuntime}.

Definition question_start : Handler := fun env text =>
  try_except
    (reply_text MSG_ASK_QUESTION ;;
     ret ASKING_QUESTION)
    Exception
    (ret END).

Definition question_received : Handler := fun env text =>
  try_except
    (let question := text in
     answer <- call_db (get_company_info env question) ;;
     (if truthy_opt answer
      then reply_text (MSG_ANSWER (or_empty answer))
      else reply_text MSG_UNKNOWN) ;;
     ret END)
    Exception
    (reply_text MSG_QUESTION_ERROR ;;
     ret END).

Definition answer_start : Handler := fun env text =>
  try_except
    (reply_text MSG_ANSWER_PROMPT ;;
     ret ASKING_QUESTION)
    Exception
    (ret END).

Definition answer_received : Handler := fun env text =>
  try_except
    (let text_lower := lower text in
     (if contains text_lower VOPROS && contains text_lower OTVET then
        let parts := re_split OTVET_COLON text in
        if (List.length parts =? 2)%nat then
          let question_part := nth 0 parts [] in
          let question := strip (re_sub_prefix VOPROS_COLON question_part) in
          let answer := strip (nth 1 parts []) in
          if truthy question && truthy answer then
            added <- call_db (add_company_info env question answer) ;;
            if added
            then reply_text MSG_ANSWER_ADDED
            else reply_text MSG_ANSWER_NOT_ADDED
          else reply_text MSG_EMPTY
        else reply_text MSG_BAD_FORMAT_RETRY
      else reply_text MSG_BAD_FORMAT) ;;
     ret END)
    Exception
    (reply_text MSG_ANSWER_ERROR ;;
     ret END).

Definition cancel : Handler := fun env text =>
  try_except
    (reply_text MSG_CANCELLED ;;
     ret END)
    Exception
    (ret END).

Definition add_contact_start : Handler := fun env text =>
  try_except
    (reply_text MSG_CONTACT_NAME_PROMPT ;;
     ret ADDING_CONTACT_NAME)
    Exception
    (ret END).

Definition add_contact_name : Handler := fun env text =>
  try_except
    (set_contact_name text ;;
     reply_text MSG_CONTACT_INFO_PROMPT ;;
     ret ADDING_CONTACT_INFO)
    Exception
    (ret END).

Definition add_contact_info : Handler := fun env text =>
  try_except
    (u <- get_user_data ;;
     let name := contact_name u in
     let info := text in
     added <- (if truthy_opt name
               then call_db (add_contact env (or_empty name) info)
               else ret false) ;;
     (if added
      then reply_text (MSG_CONTACT_ADDED (or_empty name)) ;;
           user_data_clear
      else reply_text MSG_CONTACT_NOT_ADDED) ;;
     ret END)
    Exception
    (reply_text MSG_CONTACT_ERROR ;;
     ret END).

Definition add_event_start : Handler := fun env text =>
  try_except
    (reply_text MSG_EVENT_NAME_PROMPT ;;
     ret ADDING_EVENT_NAME)
    Exception
    (ret END).

Definition add_event_name : Handler := fun env text =>
  try_except
    (set_event_name text ;;
     reply_text MSG_EVENT_DATE_PROMPT ;;
     ret ADDING_EVENT_DATE)
    Exception
    (ret END).

Definition add_event_date : Handler := fun env text =>
  try_except
    (let date_str := text in
     try_except
       (event_date <- lift (strptime date_str) ;;
        set_event_date event_date ;;
        reply_text MSG_EVENT_DESCRIPTION_PROMPT ;;
        ret ADDING_EVENT_DESCRIPTION)
       (except_ [ValueError])
       (reply_text MSG_BAD_DATE ;;
        ret ADDING_EVENT_DATE))
    Exception
    (ret END).

Definition add_event_description : Handler := fun env text =>
  try_except
    (u <- get_user_data ;;
     let name := event_name u in
     let event_date := event_date u in
     let description := if str_eqb text (utf8 "-") then [] else text in
     (match truthy_opt name, event_date with
     | true, Some date =>
         added <- call_db (add_event env (or_empty name) date description) ;;
         if added
         then reply_text (MSG_EVENT_ADDED (or_empty name)) ;;
              user_data_clear
         else reply_text MSG_EVENT_NOT_ADDED
     | _, _ =>
         reply_text MSG_EVENT_DATA_MISSING
     end) ;;
     ret END)
    Exception
    (reply_text MSG_EVENT_ERROR ;;
     ret END).

Definition add_digest_start : Handler := fun env text =>
  try_except
    (reply_text MSG_DIGEST_PROMPT ;;
     ret ASKING_QUESTION)
    Exception
    (ret END).

Definition add_digest_received : Handler := fun env text =>
  try_except
    (let content := text in
     added <- call_db (add_digest env content) ;;
     (if added
      then reply_text MSG_DIGEST_ADDED
      else reply_text MSG_DIGEST_NOT_ADDED) ;;
     ret END)
    Exception
    (reply_text MSG_DIGEST_ERROR ;;
     ret END).

(** The daily job.  It composes the digest message and, having no list
    of chats to send it to, writes it to the log. *)
Definition send_daily_digest (env : Env) : M World unit :=
  try_except
    (digests <- call_db (get_recent_digests env 1) ;;
     let message :=
       match digests with
       | digest :: _ => MSG_DAILY_DIGEST digest
       | [] => MSG_NO_DIGEST
       end in
     events <- call_db (get_upcoming_events env (Some 1)) ;;
     let message :=
       match events with
       | _ :: _ =>
           fold_left (fun message event => message ++ MSG_BULLET (e_name event))
                     events (message ++ MSG_EVENTS_TODAY)
       | [] => message
       end in
     logger_info (MSG_LOG_PREFIX ++ message))
    Exception
    (ret tt).

(** ** The ConversationHandlers of [main]

    One ConversationHandler keeps one state per user: no state while
    the conversation is not running, else the state its last handler
    returned.  Text that is not a command goes to the handler of the
    current state, a command to the entry points when no conversation
    runs and to the fallbacks when one does; a handler that returns
    [END] ends the conversation, and an update no handler accepts
    leaves everything as it was. *)

Inductive Update :=
| Command (command : string)     (* "/command": the text of the command entity *)
| Message (text : str).          (* filters.TEXT & ~filters.COMMAND *)

Definition message_text (u : Update) : str :=
  match u with
  | Command c => utf8 (String "/"%char c)
  | Message t => t
  end.

Record ConversationHandler := {
  entry_points : list (string * Handler);
  states : list (Z * Handler);
  fallbacks : list (string * Handler)
}.

(** [s.lower()] of a command or a user name.  Telegram makes both of
    Latin letters, digits and underscores, on which [lower] turns the
    capitals [A-Z] into small letters and leaves the rest. *)
Definition lower_ascii (a : ascii) : ascii :=
  let n := nat_of_ascii a in
  if ((65 <=? n) && (n <=? 90))%nat then ascii_of_nat (n + 32) else a.

Fixpoint lower_string (s : string) : string :=
  match s with
  | EmptyString => EmptyString
  | String a rest => String (lower_ascii a) (lower_string rest)
  end.

(** [s.split(sep)] for a separator of one character. *)
Fixpoint split_string (sep : ascii) (s : string) : list string :=
  match s with
  | EmptyString => [EmptyString]
  | String a rest =>
      if Ascii.eqb a sep then EmptyString :: split_string sep rest
      else match split_string sep rest with
           | part :: parts => String a part :: parts
           | [] => [String a EmptyString]
           end
  end.

(** [CommandHandler.check_update] on the text [c] of the command
    entity, without its slash: the handler lower-cases the command it
    is registered for and the word before ["@"], and a name after
    ["@"] must be the bot's own, whatever the letter case; a command
    without ["@"] is the bot's. *)
Definition command_matches (username name c : string) : bool :=
  let command_parts := split_string "@" c ++ [username] in
  String.eqb (lower_string (nth 0 command_parts EmptyString)) (lower_string name) &&
  String.eqb (lower_string (nth 1 command_parts EmptyString)) (lower_string username).

Fixpoint command_handler (username c : string) (handlers : list (string * Handler))
  : option Handler :=
  match handlers with
  | [] => None
  | (name, h) :: rest =>
      if command_matches username name c then Some h
      else command_handler username c rest
  end.

Fixpoint state_handler (s : Z) (handlers : list (Z * Handler)) : option Handler :=
  match handlers with
  | [] => None
  | (state, h) :: rest => if state =? s then Some h else state_handler s rest
  end.

Definition check_update (env : Env) (conv : ConversationHandler) (state : option Z)
    (u : Update) : option Handler :=
  match state, u with
  | None, Command c => command_handler (bot_username env) c (entry_points conv)
  | None, Message _ => None
  | Some s, Message _ => state_handler s (states conv)
  | Some s, Command c => command_handler (bot_username env) c (fallbacks conv)
  end.

Definition handle_update (conv : ConversationHandler) (env : Env) (state : option Z)
    (u : Update) : M World (option Z) :=
  match check_update env conv state u with
  | Some handler =>
      new_state <- handler env (message_text u) ;;
      ret (if new_state =? END then None else Some new_state)
  | None => ret state
  end.

(** The updates of one user, each with the environment it meets. *)
Fixpoint run (conv : ConversationHandler) (state : option Z) (updates : list (Env * Update))
  : M World (option Z) :=
  match updates with
  | [] => ret state
  | (env, u) :: rest =>
      state' <- handle_update conv env state u ;;
      run conv state' rest
  end.

Definition question_conv : ConversationHandler :=
  {| entry_points := [("question"%string, question_start)];
     states := [(ASKING_QUESTION, question_received)];
     fallbacks := [("cancel"%string, cancel)] |}.

Definition answer_conv : ConversationHandler :=
  {| entry_points := [("answer"%string, answer_start)];
     states := [(ASKING_QUESTION, answer_received)];
     fallbacks := [("cancel"%string, cancel)] |}.

Definition contact_conv : ConversationHandler :=
  {| entry_points := [("add_contact"%string, add_contact_start)];
     states := [(ADDING_CONTACT_NAME, add_contact_name);
                (ADDING_CONTACT_INFO, add_contact_info)];
     fallbacks := [("cancel"%string, cancel)] |}.

Definition event_conv : ConversationHandler :=
  {| entry_points := [("add_event"%string, add_event_start)];
     states := [(ADDING_EVENT_NAME, add_event_name);
                (ADDING_EVENT_DATE, add_event_date);
                (ADDING_EVENT_DESCRIPTION, add_event_description)];
     fallbacks := [("cancel"%string, cancel)] |}.

Definition digest_conv : ConversationHandler :=
  {| entry_points := [("add_digest"%string, add_digest_start)];
     states := [(ASKING_QUESTION, add_digest_received)];
     fallbacks := [("cancel"%string, cancel)] |}.

Definition conversations : list ConversationHandler :=
  [question_conv; answer_conv; contact_conv; event_conv; digest_conv].

End Handlers.

(** ** A runtime for Latin and Cyrillic text

    The tables of CPython for the Basic Latin block and the Cyrillic
    block U+0400..U+045F, where the program's own texts and labels
    live; the handlers are run on concrete messages with it.  Its ISO
    parser reads what [isoformat] prints, the date and the time
    separated by any one character. *)

Definition basic_lower_char (c : codepoint) : codepoint :=
  if in_range 65 c 90 then c + 32            (* A-Z *)
  else if in_range 1040 c 1071 then c + 32   (* U+0410..U+042F *)
  else if in_range 1024 c 1039 then c + 80   (* U+0400..U+040F *)
  else c.

Definition basic_lower (s : str) : str := map basic_lower_char s.

Definition basic_isspace (c : codepoint) : bool :=
  in_range 9 c 13 || in_range 28 c 32 || (c =? 133) || (c =? 160) ||
  (c =? 5760) || in_range 8192 c 8202 || (c =? 8232) || (c =? 8233) ||
  (c =? 8239) || (c =? 8287) || (c =? 12288).

Definition basic_decimal (c : codepoint) : option Z :=
  if in_range 48 c 57 then Some (c - 48) else None.

Definition basic_ignorecase_eq (p c : codepoint) : bool :=
  basic_lower_char c =? basic_lower_char p.

Fixpoint parse_digits (width : nat) (acc : Z) (s : str) : option (Z * str) :=
  match width with
  | O => Some (acc, s)
  | S w =>
      match s with
      | c :: rest =>
          if in_range 48 c 57 then parse_digits w (acc * 10 + (c - 48)) rest else None
      | [] => None
      end
  end.

Definition parse_char (ch : codepoint) (s : str) : option (unit * str) :=
  match s with
  | c :: rest => if c =? ch then Some (tt, rest) else None
  | [] => None
  end.

Definition parse_any (s : str) : option (unit * str) :=
  match s with
  | _ :: rest => Some (tt, rest)
  | [] => None
  end.

Definition parse_fraction (s : str) : option (Z * str) :=
  match s with
  | [] => Some (0, [])
  | _ :: _ =>
      match parse_char 46 s with
      | Some (_, s1) => parse_digits 6 0 s1
      | None => None
      end
  end.

Definition basic_fromisoformat (s : str) : option datetime :=
  match parse_digits 4 0 s with
  | None => None
  | Some (y, s) =>
  match parse_char 45 s with
  | None => None
  | Some (_, s) =>
  match parse_digits 2 0 s with
  | None => None
  | Some (m, s) =>
  match parse_char 45 s with
  | None => None
  | Some (_, s) =>
  match parse_digits 2 0 s with
  | None => None
  | Some (d, s) =>
  match parse_any s with
  | None => None
  | Some (_, s) =>
  match parse_digits 2 0 s with
  | None => None
  | Some (hh, s) =>
  match parse_char 58 s with
  | None => None
  | Some (_, s) =>
  match parse_digits 2 0 s with
  | None => None
  | Some (mm, s) =>
  match parse_char 58 s with
  | None => None
  | Some (_, s) =>
  match parse_digits 2 0 s with
  | None => None
  | Some (ss, s) =>
  match parse_fraction s with
  | None => None
  | Some (us, s) =>
      match s with
      | _ :: _ => None
      | [] =>
          let dt := mk_datetime y m d hh mm ss us in
          if valid_datetime dt then Some dt else None
      end
  end end end end end end end end end end end end.

#[export] Instance basic_runtime : PyRuntime := {|
  lower := basic_lower;
  isspace := basic_isspace;
  decimal := basic_decimal;
  ignorecase_eq := basic_ignorecase_eq;
  fromisoformat := basic_fromisoformat
|}.

(** ** The commands of [main] that are not dialogs *)

(** [sep.join(parts)] *)
Definition join (sep : str) (parts : list str) : str :=
  match parts with
  | [] => []
  | first :: rest => fold_left (fun joined part => joined ++ sep ++ part) rest first
  end.

(** [str(i)] of an int, as the f-string of [show_digest] prints it. *)
Definition str_of_int (i : Z) : str := utf8 (NilZero.string_of_int (Z.to_int i)).

(** [enumerate(items, first)] *)
Fixpoint enumerate {A} (items : list A) (first : Z) : list (Z * A) :=
  match items with
  | [] => []
  | item :: rest => (first, item) :: enumerate rest (first + 1)
  end.

(** What [datetime.strftime] takes from the C library: the text of
    [%Y].  C libraries and Python versions differ on years before 1000
    (three digits or four with a leading zero). *)
Class Libc := {
  strftime_Y : Z -> str
}.

(** The year as glibc prints it: no padding. *)
#[export] Instance glibc : Libc := {| strftime_Y := str_of_int |}.

(** [event_date.strftime('%d.%m.%Y %H:%M')] *)
Definition strftime {libc : Libc} (d : datetime) : str :=
  digits 2 (day d) ++ [46] ++ digits 2 (month d) ++ [46] ++ strftime_Y (year d) ++
  [32] ++ digits 2 (hour d) ++ [58] ++ digits 2 (minute d).

(** The replies of the commands. *)
Definition MSG_WELCOME : str :=
  join NL
    [ [];
      utf8 "👋 Привет! Я бот-помощник для команды.";
      [];
      utf8 "Доступные команды:";
      utf8 "/help - Показать справку";
      utf8 "/question - Задать вопрос о компании/проекте";
      utf8 "/answer - Добавить ответ на вопрос";
      utf8 "/contacts - Показать все контакты";
      utf8 "/add_contact - Добавить контакт коллеги";
      utf8 "/find_contact - Найти контакт";
      utf8 "/events - Показать предстоящие события";
      utf8 "/add_event - Добавить событие/напоминание";
      utf8 "/digest - Показать последние дайджесты";
      utf8 "/add_digest - Добавить дайджест";
      utf8 "        " ].
Definition MSG_HELP : str :=
  join NL
    [ [];
      utf8 "📚 Справка по командам:";
      [];
      utf8 "🔍 Информация о компании/проекте:";
      utf8 "/question - Задать вопрос";
      utf8 "/answer - Добавить ответ на вопрос";
      [];
      utf8 "👥 Контакты:";
      utf8 "/contacts - Список всех контактов";
      utf8 "/add_contact - Добавить новый контакт";
      utf8 "/find_contact - Найти контакт по имени";
      [];
      utf8 "📅 События:";
      utf8 "/events - Предстоящие события (7 дней)";
      utf8 "/add_event - Добавить новое событие";
      [];
      utf8 "📰 Дайджесты:";
      utf8 "/digest - Последние дайджесты";
      utf8 "/add_digest - Добавить новый дайджест";
      utf8 "        " ].
Definition MSG_TRY_LATER : str := utf8 "Произошла ошибка. Попробуйте позже.".
Definition MSG_CONTACTS_HEADER : str := utf8 "👥 Контакты коллег:" ++ NL ++ NL.
Definition MSG_NO_CONTACTS : str :=
  utf8 "📭 Контакты не найдены. Используйте /add_contact чтобы добавить.".
Definition MSG_CONTACTS_ERROR : str := utf8 "Произошла ошибка при получении контактов.".
Definition MSG_FIND_USAGE : str := utf8 "❌ Используйте: /find_contact <имя>".
Definition MSG_CONTACT_NOT_FOUND (search_name : str) : str :=
  utf8 "❌ Контакт '" ++ search_name ++ utf8 "' не найден.".
Definition MSG_FIND_ERROR : str := utf8 "Произошла ошибка при поиске контакта.".
Definition MSG_EVENTS_HEADER : str := utf8 "📅 Предстоящие события:" ++ NL ++ NL.
Definition MSG_NO_EVENTS : str := utf8 "📭 Предстоящих событий не найдено.".
Definition MSG_EVENTS_ERROR : str := utf8 "Произошла ошибка при получении событий.".
Definition MSG_DIGESTS_HEADER : str := utf8 "📰 Последние дайджесты:" ++ NL ++ NL.
Definition MSG_NO_DIGESTS : str :=
  utf8 "📭 Дайджесты не найдены. Используйте /add_digest чтобы добавить.".
Definition MSG_DIGESTS_ERROR : str := utf8 "Произошла ошибка при получении дайджестов.".

(** A command callback receives the environment of the call and
    [context.args], the words after the command. *)
Definition Callback := Env -> list str -> M World unit.

Section Commands.
Context {py : PyRuntime} {libc : Libc}.

Definition start : Callback := fun env args =>
  try_except
    (let welcome_message := MSG_WELCOME in
     reply_text welcome_message)
    Exception
    (reply_text MSG_TRY_LATER).

Definition help_command : Callback := fun env args =>
  try_except
    (let help_text := MSG_HELP in
     reply_text help_text)
    Exception
    (reply_text MSG_TRY_LATER).

(** The lines [show_contacts] adds to the message for one contact. *)
Definition contact_lines (message : str) (contact : contact_dict) : str :=
  let message := message ++ utf8 "👤 " ++ c_name contact ++ NL in
  let message :=
    if truthy (c_info contact)
    then message ++ utf8 "   " ++ c_info contact ++ NL
    else message in
  message ++ NL.

Definition show_contacts : Callback := fun env args =>
  try_except
    (contacts <- call_db (get_contacts env) ;;
     match contacts with
     | _ :: _ =>
         let message := fold_left contact_lines contacts MSG_CONTACTS_HEADER in
         reply_text message
     | [] => reply_text MSG_NO_CONTACTS
     end)
    Exception
    (reply_text MSG_CONTACTS_ERROR).

Definition find_contact : Callback := fun env args =>
  try_except
    (match args with
     | [] => reply_text MSG_FIND_USAGE
     | _ :: _ =>
         let search_name := join [32] args in
         contact <- call_db (search_contact env search_name) ;;
         match contact with
         | Some contact =>
             let message := utf8 "👤 " ++ c_name contact ++ NL in
             let message :=
               if truthy (c_info contact)
               then message ++ utf8 "📝 " ++ c_info contact
               else message in
             reply_text message
         | None => reply_text (MSG_CONTACT_NOT_FOUND search_name)
         end
     end)
    Exception
    (reply_text MSG_FIND_ERROR).

(** The lines [show_events] adds to the message for one event. *)
Definition event_lines (message : str) (event : event_dict) : str :=
  let event_date := e_event_date event in
  let message := message ++ utf8 "📌 " ++ e_name event ++ NL in
  let message := message ++ utf8 "   📆 " ++ strftime event_date ++ NL in
  let message :=
    if truthy (e_description event)
    then message ++ utf8 "   📝 " ++ e_description event ++ NL
    else message in
  message ++ NL.

Definition show_events : Callback := fun env args =>
  try_except
    (events <- call_db (get_upcoming_events env None) ;;
     match events with
     | _ :: _ =>
         let message := fold_left event_lines events MSG_EVENTS_HEADER in
         reply_text message
     | [] => reply_text MSG_NO_EVENTS
     end)
    Exception
    (reply_text MSG_EVENTS_ERROR).

(** The lines [show_digest] adds to the message for one digest. *)
Definition digest_lines (message : str) (numbered : Z * str) : str :=
  let '(i, digest) := numbered in
  message ++ str_of_int i ++ utf8 ". " ++ digest ++ NL ++ NL.

Definition show_digest : Callback := fun env args =>
  try_except
    (digests <- call_db (get_recent_digests env 5) ;;
     match digests with
     | _ :: _ =>
         let message := fold_left digest_lines (enumerate digests 1) MSG_DIGESTS_HEADER in
         reply_text message
     | [] => reply_text MSG_NO_DIGESTS
     end)
    Exception
    (reply_text MSG_DIGESTS_ERROR).

(** ** The Application of [main]

    [main] registers six CommandHandlers and then the five
    ConversationHandlers, all in one group.  The application offers an
    update to the handlers in the order of registration, and the first
    one that accepts it handles it; the others do not see it.  Each
    ConversationHandler keeps its own state for the user.

    The updates are the new messages of the user.  An edit of an
    earlier message also reaches the handlers, with [update.message]
    None; such updates are not part of [Incoming]. *)

Inductive Incoming :=
| CommandWithArgs (command : string) (args : list str)   (* "/command word ..." *)
| Text (text : str).                                     (* text that is no command *)

Definition as_update (u : Incoming) : Update :=
  match u with
  | CommandWithArgs c _ => Command c
  | Text t => Message t
  end.

Inductive AppHandler :=
| CommandHandler (command : string) (callback : Callback)
| Conversation (conv : ConversationHandler).

(** The handlers in the order [main] adds them. *)
Definition application : list AppHandler :=
  [ CommandHandler "start" start;
    CommandHandler "help" help_command;
    CommandHandler "contacts" show_contacts;
    CommandHandler "find_contact" find_contact;
    CommandHandler "events" show_events;
    CommandHandler "digest" show_digest;
    Conversation question_conv;
    Conversation answer_conv;
    Conversation contact_conv;
    Conversation event_conv;
    Conversation digest_conv ].

(** [Application.process_update] for one user: [states] holds the
    state of each ConversationHandler of [handlers], in their order. *)
Fixpoint process_update (handlers : list AppHandler) (env : Env)
    (states : list (option Z)) (u : Incoming) : M World (list (option Z)) :=
  match handlers with
  | [] => ret states
  | CommandHandler c callback :: rest =>
      match u with
      | CommandWithArgs c' args =>
          if command_matches (bot_username env) c c'
          then callback env args ;; ret states
          else process_update rest env states u
      | Text _ => process_update rest env states u
      end
  | Conversation conv :: rest =>
      let state := hd None states in
      match check_update env conv state (as_update u) with
      | Some _ =>
          state' <- handle_update conv env state (as_update u) ;;
          ret (state' :: tl states)
      | None =>
          states' <- process_update rest env (tl states) u ;;
          ret (state :: states')
      end
  end.

(** The updates of one user, each with the environment it meets. *)
Fixpoint run_polling (states : list (option Z)) (updates : list (Env * Incoming))
  : M World (list (option Z)) :=
  match updates with
  | [] => ret states
  | (env, u) :: rest =>
      states' <- process_update application env states u ;;
      run_polling states' rest
  end.

End Commands.

(** No conversation is running. *)
Definition idle : list (option Z) := [None; None; None; None; None].

(** * Specifications

    The words the theorems are stated in, and the inputs they are
    tried on. *)

(** [fromisoformat] is documented as the inverse of [isoformat]. *)
Definition fromisoformat_inverts_isoformat (py : PyRuntime) : Prop :=
  forall d, valid_datetime d = true -> fromisoformat (isoformat d) = Some d.

(** The ranges of the fields of a valid datetime. *)
Record datetime_bounds (d : datetime) : Prop := {
  year_bounds : 1 <= year d <= 9999;
  month_bounds : 1 <= month d <= 12;
  day_bounds : 1 <= day d <= 31;
  hour_bounds : 0 <= hour d <= 23;
  minute_bounds : 0 <= minute d <= 59;
  second_bounds : 0 <= second d <= 59;
  microsecond_bounds : 0 <= microsecond d <= 999999
}.

(** A search text in which LIKE finds no wildcard. *)
Definition no_wildcards (s : str) : bool :=
  forallb (fun c => negb ((c =? 37) || (c =? 95))) s.

(** What LIKE does to one character before it compares: ASCII capitals
    become small letters, every other character stays. *)
Definition ascii_fold (c : codepoint) : codepoint :=
  if c <? 128 then sqlite_tolower c else c.

(** Example environments: a working backend and a failing one. *)
Definition example_env : Env :=
  {| now := mk_datetime 2024 12 24 10 30 15 123456;
     CURRENT_TIMESTAMP := 1735036215;
     sqlite_ok := true;
     bot_username := "testbot" |}.

Definition failing_env : Env :=
  {| now := mk_datetime 2024 12 24 10 30 15 123456;
     CURRENT_TIMESTAMP := 1735036215;
     sqlite_ok := false;
     bot_username := "testbot" |}.

(** The world before the first update: an empty store, nothing said. *)
Definition fresh_world : World :=
  {| db := init_db; user_data := user_data_empty; replies := []; logged := [] |}.

Section Specifications.
Context {py : PyRuntime}.

(** The dict the query builds from a row and its parsed date. *)
Definition event_of_row (row : events_row) (date : datetime) : event_dict :=
  {| e_name := ev_name row; e_event_date := date;
     e_description := or_empty (ev_description row) |}.

(** What the query is to return, said without the loop: the selected
    rows whose date parses, in their order, the others dropped. *)
Definition events_that_parse (rows : list events_row) : list event_dict :=
  flat_map
    (fun row =>
       match row_fromisoformat (ev_event_date row) with
       | Ok date => [event_of_row row date]
       | Raise _ => []
       end)
    rows.

End Specifications.

(** The dates of the [events] table are written by [add_event] alone,
    as the ISO text of a datetime.  A store whose dates all have this
    form is the store of the data model, where an event's date is a
    timestamp. *)
Definition canonical_date (v : sql_value) : Prop :=
  exists date, valid_datetime date = true /\ v = SqlText (isoformat date).

(** Every event of the store has a canonical date. *)
Definition stored_dates_canonical (d : Database) : Prop :=
  Forall (fun row => canonical_date (ev_event_date row)) (events d).

(** Events in ascending order of date. *)
Definition ascending (due : list event_dict) : Prop :=
  Sorted (fun a b => datetime_leb (e_event_date a) (e_event_date b) = true) due.

(** A world after one more reply. *)
Definition replied (w : World) (message : str) : World :=
  {| db := db w; user_data := user_data w; replies := replies w ++ [message];
     logged := logged w |}.

(** An hour after [example_env]. *)
Definition later_env : Env :=
  {| now := mk_datetime 2024 12 24 11 30 15 123456;
     CURRENT_TIMESTAMP := 1735039815;
     sqlite_ok := true;
     bot_username := "testbot" |}.

(** 15:00 of the example day. *)
Definition launch_date : datetime := mk_datetime 2024 12 24 15 0 0 0.

(** The store after the event dialog has added "Launch" for 15:00 of
    the example day. *)
Definition launch_world : World :=
  {| db := insert_event (utf8 "Launch") (isoformat launch_date) [] init_db;
     user_data := user_data_empty; replies := []; logged := [] |}.

(** Three contacts, two of which match "ann". *)
Definition two_anns : Database :=
  insert_contact (utf8 "Joanna") (utf8 "HR")
    (insert_contact (utf8 "Ann") (utf8 "QA")
       (insert_contact (utf8 "Bob") (utf8 "Dev") init_db)).

(** What holds of every world the dialogs can reach: the event dates of
    the store are canonical, and the date kept in [user_data] between
    the date step and the description step is a valid datetime. *)
Definition world_invariant (w : World) : Prop :=
  stored_dates_canonical (db w) /\
  forall date, event_date (user_data w) = Some date -> valid_datetime date = true.

(** A handler that keeps the invariant. *)
Definition keeps_invariant (handler : Handler) : Prop :=
  forall env text w, world_invariant w -> world_invariant (snd (handler env text w)).

(** A step that changes no [notified] flag: the rows of [events] stay
    as they are, and the rows it adds are not notified. *)
Definition adds_unnotified_events (w w' : World) : Prop :=
  exists added,
    events (db w') = events (db w) ++ added /\
    Forall (fun row => ev_notified row = 0) added.

(** A handler that changes no flag. *)
Definition keeps_flags (handler : Handler) : Prop :=
  forall env text w, adds_unnotified_events w (snd (handler env text w)).

(** What [mark_event_notified] may do to a row: nothing, or set the
    flag of a row with the given name and date. *)
Definition marked_or_same (name : str) (date : datetime) (old new : events_row) : Prop :=
  ev_name new = ev_name old /\
  ev_event_date new = ev_event_date old /\
  ev_description new = ev_description old /\
  (ev_notified new = ev_notified old \/
   ev_notified new = 1 /\ ev_name old = name /\
   ev_event_date old = SqlText (isoformat date)).

(** Two worlds that differ at most in [user_data]. *)
Definition same_but_user_data (w1 w2 : World) : Prop :=
  db w1 = db w2 /\ replies w1 = replies w2 /\ logged w1 = logged w2.

(** The keys of [user_data] a conversation in [state] may still read:
    the contact's name before its info, the event's name before its
    date, the event's name and date before its description. *)
Definition live_agree (state : option Z) (u1 u2 : UserData) : Prop :=
  match state with
  | None => True
  | Some s =>
      (s = ADDING_CONTACT_INFO -> contact_name u1 = contact_name u2) /\
      (s = ADDING_EVENT_DATE -> event_name u1 = event_name u2) /\
      (s = ADDING_EVENT_DESCRIPTION ->
       event_name u1 = event_name u2 /\ event_date u1 = event_date u2)
  end.

(** Worlds that differ at most in keys the state will not read. *)
Definition agree (state : option Z) (w1 w2 : World) : Prop :=
  same_but_user_data w1 w2 /\ live_agree state (user_data w1) (user_data w2).

(** A world with other contents of [user_data]. *)
Definition with_user_data (w : World) (u : UserData) : World :=
  {| db := db w; user_data := u; replies := replies w; logged := logged w |}.

(** One update takes worlds that agree to worlds that agree, with the
    same next state. *)
Definition steps_alike (state : option Z) (handler : Handler) : Prop :=
  forall env text w1 w2,
    agree state w1 w2 ->
    exists next,
      fst (handler env text w1) = Ok next /\
      fst (handler env text w2) = Ok next /\
      agree (if next =? END then None else Some next)
            (snd (handler env text w1)) (snd (handler env text w2)).

(** The commands of [main] that are not dialogs. *)
Definition plain_commands : list string :=
  ["start"; "help"; "contacts"; "find_contact"; "events"; "digest"]%string.

(** The command that starts each dialog, in the order [main] registers
    the conversations, with the state the dialog starts in and its
    first prompt. *)
Definition dialog_commands : list (string * Z * str) :=
  [ ("question"%string, ASKING_QUESTION, MSG_ASK_QUESTION);
    ("answer"%string, ASKING_QUESTION, MSG_ANSWER_PROMPT);
    ("add_contact"%string, ADDING_CONTACT_NAME, MSG_CONTACT_NAME_PROMPT);
    ("add_event"%string, ADDING_EVENT_NAME, MSG_EVENT_NAME_PROMPT);
    ("add_digest"%string, ASKING_QUESTION, MSG_DIGEST_PROMPT) ].

(** The commands [main] registers a handler for. *)
Definition registered_commands : list string :=
  plain_commands ++ map (fun entry => fst (fst entry)) dialog_commands ++
  ["cancel"%string].

(** The command text [c] matches none of the commands [names]. *)
Definition matches_none (env : Env) (names : list string) (c : string) : Prop :=
  forall name, In name names -> command_matches (bot_username env) name c = false.

(** The conversation does not accept the update in this state. *)
Definition skips (env : Env) (u : Incoming) (conv : ConversationHandler)
    (state : option Z) : Prop :=
  check_update env conv state (as_update u) = None.

(** The state a conversation is in after a handler has returned. *)
Definition next_state (returned : Z) : option Z :=
  if returned =? END then None else Some returned.

(** The handler returns a state and sends exactly one message. *)
Definition replies_once (handler : Handler) : Prop :=
  forall env text w, exists returned message w',
    handler env text w = (Ok returned, w') /\
    replies w' = replies w ++ [message] /\ logged w' = logged w.

(** The step from [w] to [w'] sent at most [n] messages and logged
    nothing. *)
Definition sent_at_most (n : nat) (w w' : World) : Prop :=
  logged w' = logged w /\
  exists sent, replies w' = replies w ++ sent /\ (List.length sent <= n)%nat.

(** The world after [messages] were sent. *)
Definition sent (w : World) (messages : list str) : World :=
  {| db := db w; user_data := user_data w; replies := replies w ++ messages;
     logged := logged w |}.

(** The states of the five conversations when only the [n]-th one is
    running, in state [s]. *)
Definition only_running (n : nat) (s : Z) : list (option Z) :=
  repeat None n ++ Some s :: repeat None (4 - n).

(** [description] as [add_event_description] stores it: a dash stands
    for no description. *)
Definition stored_description (text : str) : str :=
  if str_eqb text (utf8 "-") then [] else text.


(** The first match a regular expression finds at the start of [s]:
    the value of the group and the text that remains. *)
Definition first_match {A} (r : regex A) (s : str) (a : A) (rest : str) : Prop :=
  exists others, r s = (a, rest) :: others.

(** What a date text needs of the runtime's character tables: the
    ASCII digits are decimal digits with their values and no spaces,
    and the blank is a space. *)
Definition knows_ascii_digits (py : PyRuntime) : Prop :=
  (forall k, 0 <= k <= 9 -> decimal (48 + k) = Some k /\ isspace (48 + k) = false) /\
  isspace 32 = true.

(** The datetime with its seconds and microseconds dropped. *)
Definition to_the_minute (d : datetime) : datetime :=
  mk_datetime (year d) (month d) (day d) (hour d) (minute d) 0 0.

(** The lines of one contact in the reply to /contacts. *)
Definition contact_entry (contact : contact_dict) : str :=
  utf8 "👤 " ++ c_name contact ++ NL ++
  (if truthy (c_info contact) then utf8 "   " ++ c_info contact ++ NL else []) ++ NL.

(** The lines of one event in the reply to /events. *)
Definition event_entry {libc : Libc} (event : event_dict) : str :=
  utf8 "📌 " ++ e_name event ++ NL ++
  utf8 "   📆 " ++ strftime (e_event_date event) ++ NL ++
  (if truthy (e_description event) then utf8 "   📝 " ++ e_description event ++ NL
   else []) ++ NL.

(** The last day a datetime can hold: a day later does not exist. *)
Definition last_day_env : Env :=
  {| now := mk_datetime 9999 12 31 9 0 0 0;
     CURRENT_TIMESTAMP := 253402246800;
     sqlite_ok := true;
     bot_username := "testbot" |}.

(** What one update may do to the store: nothing, or one of the four
    writes of [class Database]. *)
Inductive one_write (d : Database) : Database -> Prop :=
| no_write : one_write d d
| wrote_answer (q a : str) : one_write d (insert_or_replace_company_info q a d)
| wrote_contact (name info : str) : one_write d (insert_contact name info d)
| wrote_event (name : str) (date : datetime) (description : str) :
    one_write d (insert_event name (isoformat date) description d)
| wrote_digest (content : str) (created_at : Z) :
    one_write d (insert_digest content created_at d).

(** The handler writes to the store at most once. *)
Definition writes_once (handler : Handler) : Prop :=
  forall env text w, one_write (db w) (db (snd (handler env text w))).

(** The store [d'] holds the contacts, events and digests of [d] in
    their order, followed by at most [n] new rows. *)
Definition grown_by (n : nat) (d d' : Database) : Prop :=
  exists new_contacts new_events new_digests,
    contacts d' = contacts d ++ new_contacts /\
    events d' = events d ++ new_events /\
    digests d' = digests d ++ new_digests /\
    (List.length new_contacts + List.length new_events + List.length new_digests <= n)%nat.

(** The message has the line of the daily job for an event of this
    name. *)
Definition lists_event (message name : str) : Prop :=
  exists before after, message = before ++ MSG_BULLET name ++ after.

(** The world after the daily job has logged [messages]. *)
Definition having_logged (w : World) (messages : list str) : World :=
  {| db := db w; user_data := user_data w; replies := replies w;
     logged := logged w ++ messages |}.

(** A store with two digests, a day apart. *)
Definition two_digests : Database :=
  insert_digest (utf8 "Tuesday") 1735036215
    (insert_digest (utf8 "Monday") 1734949815 init_db).

(** * Properties *)

(** ** Strings and ISO dates *)

Lemma str_eqb_eq (a b : str) : str_eqb a b = true <-> a = b.
Proof.
  unfold str_eqb. destruct (list_eq_dec Z.eq_dec a b); split; congruence.
Qed.

Lemma str_eqb_refl (a : str) : str_eqb a a = true.
Proof. now apply str_eqb_eq. Qed.

Lemma str_compare_refl (a : str) : str_compare a a = Eq.
Proof.
  induction a as [|x a IH]; simpl; [reflexivity|].
  now rewrite Z.compare_refl.
Qed.

Lemma str_compare_eq (a b : str) : str_compare a b = Eq -> a = b.
Proof.
  revert b. induction a as [|x a IH]; intros [|y b]; simpl; try discriminate; auto.
  destruct (Z.compare_spec x y) as [E|L|G]; try discriminate.
  intros Hc. subst. f_equal. auto.
Qed.

(** Two texts that start with parts of the same length compare by
    these parts first. *)
Lemma str_compare_app (a b r1 r2 : str) :
  List.length a = List.length b ->
  str_compare (a ++ r1) (b ++ r2) =
  match str_compare a b with Eq => str_compare r1 r2 | c => c end.
Proof.
  revert b. induction a as [|x a IH]; intros [|y b]; simpl; try discriminate; auto.
  intros H. injection H as H'.
  destruct (x ?= y); auto.
Qed.

Lemma digits_length (k : nat) (n : Z) : List.length (digits k n) = k.
Proof. induction k; simpl; auto. Qed.

Lemma pow10_pos (w : nat) : 0 < 10 ^ Z.of_nat w.
Proof. apply Z.pow_pos_nonneg; lia. Qed.

Lemma mod_pow10_succ (w : nat) (n : Z) :
  n mod 10 ^ Z.of_nat (S w) =
  (n / 10 ^ Z.of_nat w) mod 10 * 10 ^ Z.of_nat w + n mod 10 ^ Z.of_nat w.
Proof.
  rewrite Nat2Z.inj_succ, Z.pow_succ_r by lia.
  pose proof (pow10_pos w).
  rewrite (Z.mul_comm 10), Z.rem_mul_r by lia. lia.
Qed.

(** Zero-padded numbers of one width compare as the numbers do. *)
Lemma digits_compare (k : nat) (a b : Z) :
  str_compare (digits k a) (digits k b) =
  (a mod 10 ^ Z.of_nat k ?= b mod 10 ^ Z.of_nat k).
Proof.
  induction k as [|w IH].
  - simpl. now rewrite !Z.mod_1_r.
  - cbn [digits str_compare]. rewrite !mod_pow10_succ, IH.
    pose proof (pow10_pos w) as Hp.
    pose proof (Z.mod_pos_bound a _ Hp) as Ha.
    pose proof (Z.mod_pos_bound b _ Hp) as Hb.
    set (p := 10 ^ Z.of_nat w) in *.
    set (x := (a / p) mod 10). set (y := (b / p) mod 10).
    set (ra := a mod p) in *. set (rb := b mod p) in *.
    destruct (Z.compare_spec (48 + x) (48 + y)) as [E|L|G].
    + assert (x = y) by lia. subst y.
      destruct (Z.compare_spec ra rb); symmetry;
        [apply Z.compare_eq_iff | apply Z.compare_lt_iff | apply Z.compare_gt_iff]; nia.
    + symmetry. apply Z.compare_lt_iff. nia.
    + symmetry. apply Z.compare_gt_iff. nia.
Qed.

Lemma digits_compare_small (k : nat) (a b : Z) :
  0 <= a < 10 ^ Z.of_nat k -> 0 <= b < 10 ^ Z.of_nat k ->
  str_compare (digits k a) (digits k b) = (a ?= b).
Proof.
  intros Ha Hb. now rewrite digits_compare, !Z.mod_small.
Qed.

Lemma in_range_spec (lo x hi : Z) : in_range lo x hi = true <-> lo <= x <= hi.
Proof. unfold in_range. rewrite andb_true_iff, !Z.leb_le. tauto. Qed.

Lemma days_in_month_le_31 (y m : Z) : days_in_month y m <= 31.
Proof.
  unfold days_in_month, DAYS_IN_MONTH.
  destruct ((m =? 2) && is_leap y); [lia|].
  destruct (Z.to_nat m) as [|[|[|[|[|[|[|[|[|[|[|[|[|[|]]]]]]]]]]]]]]; simpl; lia.
Qed.

Lemma valid_datetime_bounds (d : datetime) :
  valid_datetime d = true -> datetime_bounds d.
Proof.
  unfold valid_datetime. rewrite !andb_true_iff, !in_range_spec.
  intros [[[[[[Hy Hm] Hd] Hh] Hmi] Hs] Hu].
  pose proof (days_in_month_le_31 (year d) (month d)).
  constructor; lia.
Qed.

(** The ISO texts of two datetimes compare as the datetimes do, which
    is what lets the store compare dates as texts. *)
Lemma isoformat_compare (a b : datetime) :
  valid_datetime a = true -> valid_datetime b = true ->
  str_compare (isoformat a) (isoformat b) = datetime_compare a b.
Proof.
  intros Ha Hb.
  destruct (valid_datetime_bounds a Ha), (valid_datetime_bounds b Hb).
  unfold isoformat, datetime_compare, datetime_fields.
  cbn [fields_compare].
  repeat first
    [ rewrite str_compare_app by (now rewrite !digits_length)
    | rewrite digits_compare_small by (simpl; lia)
    | progress cbn [app str_compare Z.compare Pos.compare Pos.compare_cont] ].
  destruct (year a ?= year b); auto.
  destruct (month a ?= month b); auto.
  destruct (day a ?= day b); auto.
  destruct (hour a ?= hour b); auto.
  destruct (minute a ?= minute b); auto.
  destruct (second a ?= second b); auto.
  destruct (Z.eqb_spec (microsecond a) 0) as [Ea|Ea],
           (Z.eqb_spec (microsecond b) 0) as [Eb|Eb]; cbn [str_compare].
  - rewrite Ea, Eb. reflexivity.
  - rewrite Ea. symmetry. destruct (microsecond b ?= microsecond b) eqn:E;
      try (rewrite Z.compare_refl in E; discriminate).
    destruct (Z.compare_spec 0 (microsecond b)); try lia; reflexivity.
  - rewrite Eb. destruct (Z.compare_spec (microsecond a) 0); try lia; reflexivity.
  - rewrite Z.compare_refl. rewrite digits_compare_small by (simpl; lia).
    destruct (microsecond a ?= microsecond b); reflexivity.
Qed.

Lemma parse_digits_digits (k : nat) (acc n : Z) (rest : str) :
  parse_digits k acc (digits k n ++ rest) =
  Some (acc * 10 ^ Z.of_nat k + n mod 10 ^ Z.of_nat k, rest).
Proof.
  revert acc. induction k as [|w IH]; intros acc.
  - simpl. rewrite Z.mod_1_r. f_equal. f_equal. lia.
  - cbn [digits app parse_digits].
    pose proof (Z.mod_pos_bound (n / 10 ^ Z.of_nat w) 10 ltac:(lia)) as Hd.
    replace (in_range 48 (48 + (n / 10 ^ Z.of_nat w) mod 10) 57) with true
      by (symmetry; apply in_range_spec; lia).
    rewrite IH, mod_pow10_succ.
    rewrite Nat2Z.inj_succ, Z.pow_succ_r by lia.
    f_equal. f_equal. lia.
Qed.

Lemma parse_digits_small (k : nat) (n : Z) (rest : str) :
  0 <= n < 10 ^ Z.of_nat k ->
  parse_digits k 0 (digits k n ++ rest) = Some (n, rest).
Proof.
  intros H. rewrite parse_digits_digits, Z.mod_small by assumption.
  reflexivity.
Qed.

(** The ISO parser of [basic_runtime] reads back what [isoformat]
    prints. *)
Lemma basic_fromisoformat_isoformat : fromisoformat_inverts_isoformat basic_runtime.
Proof.
  intros d Hv. cbn [fromisoformat basic_runtime].
  destruct (valid_datetime_bounds d Hv).
  destruct d as [y m dd hh mm ss us].
  cbn [year month day hour minute second microsecond] in *.
  unfold basic_fromisoformat, isoformat.
  cbn [year month day hour minute second microsecond].
  repeat first
    [ rewrite parse_digits_small by (simpl; lia)
    | progress cbn [app parse_char parse_any Z.eqb Pos.eqb] ].
  destruct (Z.eqb_spec us 0) as [E|E].
  - subst us. cbn [parse_fraction]. now rewrite Hv.
  - cbn [parse_fraction parse_char Z.eqb Pos.eqb].
    rewrite <- (app_nil_r (digits 6 us)).
    rewrite parse_digits_small by (simpl; lia).
    now rewrite Hv.
Qed.


(** ** The store *)

Ltac run_method :=
  unfold add_company_info, get_company_info, add_contact, get_contacts,
    search_contact, add_event, mark_event_notified, add_digest,
    get_recent_digests, try_except, bind, ret, raise, lift, get_connection,
    execute, fetchone, fetchall.

Section Store.
Context {py : PyRuntime}.

Lemma add_company_info_ok (env : Env) (q a : str) (d : Database) :
  sqlite_ok env = true ->
  add_company_info env q a d =
  (Ok true, insert_or_replace_company_info (lower q) a d).
Proof. intros H. run_method. now rewrite H. Qed.

Lemma add_company_info_fails (env : Env) (q a : str) (d : Database) :
  sqlite_ok env = false -> add_company_info env q a d = (Ok false, d).
Proof. intros H. run_method. now rewrite H. Qed.

Lemma get_company_info_ok (env : Env) (q : str) (d : Database) :
  sqlite_ok env = true ->
  get_company_info env q d = (Ok (hd_error (select_answer (lower q) d)), d).
Proof. intros H. run_method. now rewrite H. Qed.




(** *** search_contact *)

Lemma search_contact_ok (env : Env) (name : str) (d : Database) :
  sqlite_ok env = true ->
  search_contact env name d =
  (Ok (match hd_error (select_contacts_like ([37] ++ name ++ [37]) d) with
       | Some row => Some {| c_name := ct_name row; c_info := ct_info row |}
       | None => None
       end), d).
Proof. intros H. run_method. now rewrite H. Qed.

Lemma hd_filter_first {A} (f : A -> bool) (pre post : list A) (x : A) :
  (forall y, In y pre -> f y = false) -> f x = true ->
  hd_error (filter f (pre ++ x :: post)) = Some x.
Proof.
  intros Hpre Hx. induction pre as [|y pre IH]; simpl.
  - now rewrite Hx.
  - rewrite (Hpre y) by now left. apply IH. intros z Hz. apply Hpre. now right.
Qed.

Lemma filter_none {A} (f : A -> bool) (l : list A) :
  (forall y, In y l -> f y = false) -> filter f l = [].
Proof.
  intros H. induction l as [|y l IH]; simpl; auto.
  rewrite (H y) by now left. apply IH. intros z Hz. apply H. now right.
Qed.

(** C9. [search_contact] returns one contact, the first row in storage
    order whose name matches the pattern, whatever rows follow it; and
    [None] when no row matches.  It never raises and changes nothing. *)
Theorem search_contact_first_match (env : Env) (name : str) (d : Database) :
  sqlite_ok env = true ->
  let matches := fun row => like ([37] ++ name ++ [37]) (ct_name row) in
  (forall pre row post,
      contacts d = pre ++ row :: post ->
      (forall r, In r pre -> matches r = false) ->
      matches row = true ->
      search_contact env name d =
      (Ok (Some {| c_name := ct_name row; c_info := ct_info row |}), d)) /\
  ((forall r, In r (contacts d) -> matches r = false) ->
   search_contact env name d = (Ok None, d)).
Proof.
  intros Hok matches. split.
  - intros pre row post Hd Hpre Hrow.
    rewrite search_contact_ok by assumption.
    unfold select_contacts_like. rewrite Hd.
    match goal with |- context [filter ?f _] => change f with matches end.
    now rewrite (hd_filter_first matches pre post row Hpre Hrow).
  - intros Hnone. rewrite search_contact_ok by assumption.
    unfold select_contacts_like.
    match goal with |- context [filter ?f _] => change f with matches end.
    now rewrite (filter_none matches _ Hnone).
Qed.

End Store.

(** *** LIKE on a pattern without wildcards *)

Lemma like_char_fold (p c : codepoint) :
  like_char p c = (ascii_fold c =? ascii_fold p).
Proof.
  unfold like_char, ascii_fold, sqlite_tolower, in_range.
  destruct (Z.ltb_spec p 128), (Z.ltb_spec c 128),
           (Z.leb_spec 65 p), (Z.leb_spec p 90),
           (Z.leb_spec 65 c), (Z.leb_spec c 90);
    cbn [andb orb];
    repeat match goal with
           | |- context [?a =? ?b] => destruct (Z.eqb_spec a b)
           end; cbn [andb orb]; try reflexivity; lia.
Qed.

Lemma like_percent_unfold (pattern s : str) :
  like (37 :: pattern) s =
  like pattern s || match s with [] => false | _ :: s' => like (37 :: pattern) s' end.
Proof. destruct s; reflexivity. Qed.

Lemma like_percent_only (s : str) : like [37] s = true.
Proof.
  induction s as [|c s IH].
  - reflexivity.
  - rewrite like_percent_unfold, IH. apply orb_true_r.
Qed.

Lemma like_literal_cons (p : codepoint) (pattern s : str) :
  (p =? 37) || (p =? 95) = false ->
  like (p :: pattern) s =
  match s with
  | [] => false
  | c :: s' => like_char p c && like pattern s'
  end.
Proof.
  intros H. apply orb_false_iff in H as [H1 H2].
  cbn [like]. rewrite H1. destruct s; auto. now rewrite H2.
Qed.

Lemma like_prefix_fold (q s : str) :
  no_wildcards q = true ->
  like (q ++ [37]) s = startswith (map ascii_fold s) (map ascii_fold q).
Proof.
  revert s. induction q as [|p q IH]; intros s Hq.
  - cbn [app map]. rewrite like_percent_only. now destruct s.
  - cbn [no_wildcards forallb] in Hq. apply andb_true_iff in Hq as [Hp Hq].
    apply negb_true_iff in Hp.
    cbn [app]. rewrite like_literal_cons by assumption.
    destruct s as [|c s]; cbn [map startswith]; auto.
    rewrite like_char_fold. f_equal. now apply IH.
Qed.

(** The pattern [%q%] with [q] free of wildcards looks for [q] inside
    the text, both with their ASCII capitals made small. *)
Lemma like_contains_fold (q s : str) :
  no_wildcards q = true ->
  like ([37] ++ q ++ [37]) s = contains (map ascii_fold s) (map ascii_fold q).
Proof.
  intros Hq. cbn [app]. induction s as [|c s IH].
  - rewrite like_percent_unfold, like_prefix_fold by assumption. reflexivity.
  - rewrite like_percent_unfold, like_prefix_fold, IH by assumption. reflexivity.
Qed.

(** C6. For a search text without the wildcards [%] and [_], a contact
    row is selected exactly when its name contains the text once the
    ASCII capitals of both are made small: ASCII letters match in
    either case, every other character only itself.  [search_contact]
    returns the first row selected. *)
Theorem search_contact_matches_ascii_caseless (env : Env) (name : str) (d : Database)
    (row : contacts_row) :
  no_wildcards name = true ->
  (In row (select_contacts_like ([37] ++ name ++ [37]) d) <->
   In row (contacts d) /\
   contains (map ascii_fold (ct_name row)) (map ascii_fold name) = true) /\
  (sqlite_ok env = true ->
   search_contact env name d =
   (Ok (match hd_error (select_contacts_like ([37] ++ name ++ [37]) d) with
        | Some first => Some {| c_name := ct_name first; c_info := ct_info first |}
        | None => None
        end), d)).
Proof.
  intros Hname. split.
  - unfold select_contacts_like. rewrite filter_In.
    now rewrite like_contains_fold.
  - apply search_contact_ok.
Qed.

(** *** ORDER BY *)

Section OrderBy.
Context {A : Type} (leb : A -> A -> bool).
Hypothesis leb_total : forall x y, leb x y = false -> leb y x = true.

Let R (x y : A) : Prop := leb x y = true.

Lemma insert_by_In (x y : A) (l : list A) :
  In y (insert_by leb x l) <-> y = x \/ In y l.
Proof.
  induction l as [|z l IH]; simpl.
  - intuition.
  - destruct (leb x z); simpl; rewrite ?IH; intuition.
Qed.

Lemma order_by_In (y : A) (l : list A) : In y (order_by leb l) <-> In y l.
Proof.
  induction l as [|x l IH]; simpl; [tauto|].
  rewrite insert_by_In, IH. intuition.
Qed.

Lemma insert_by_HdRel (x y : A) (l : list A) :
  R y x -> HdRel R y l -> HdRel R y (insert_by leb x l).
Proof.
  intros Hyx Hl. destruct l as [|z l]; simpl.
  - now constructor.
  - destruct (leb x z); constructor; auto. now inversion Hl.
Qed.

Lemma insert_by_Sorted (x : A) (l : list A) :
  Sorted R l -> Sorted R (insert_by leb x l).
Proof.
  induction l as [|z l IH]; intros Hl; simpl.
  - repeat constructor.
  - destruct (leb x z) eqn:E.
    + constructor; auto.
    + inversion Hl; subst. constructor; auto.
      apply insert_by_HdRel; auto. now apply leb_total.
Qed.

Lemma order_by_Sorted (l : list A) : Sorted R (order_by leb l).
Proof.
  induction l as [|x l IH]; simpl.
  - constructor.
  - now apply insert_by_Sorted.
Qed.

End OrderBy.

Lemma str_compare_antisym (a b : str) : str_compare b a = CompOpp (str_compare a b).
Proof.
  revert b. induction a as [|x a IH]; intros [|y b]; simpl; auto.
  rewrite (Z.compare_antisym x y). destruct (x ?= y); simpl; auto.
Qed.

Lemma sql_compare_antisym (a b : sql_value) :
  sql_compare b a = CompOpp (sql_compare a b).
Proof.
  destruct a, b; simpl; auto using str_compare_antisym, Z.compare_antisym.
Qed.

Lemma sql_leb_total (a b : sql_value) : sql_leb a b = false -> sql_leb b a = true.
Proof.
  unfold sql_leb. rewrite (sql_compare_antisym a b).
  destruct (sql_compare a b); simpl; congruence.
Qed.

Lemma sql_eqb_text (a b : str) : sql_eqb (SqlText a) (SqlText b) = true <-> a = b.
Proof.
  unfold sql_eqb. simpl. split.
  - destruct (str_compare a b) eqn:E; try discriminate.
    intros _. now apply str_compare_eq.
  - intros ->. now rewrite str_compare_refl.
Qed.

(** Texts of valid datetimes stand in the order of the datetimes. *)
Lemma sql_leb_isoformat (a b : datetime) :
  valid_datetime a = true -> valid_datetime b = true ->
  sql_leb (SqlText (isoformat a)) (SqlText (isoformat b)) = datetime_leb a b.
Proof.
  intros Ha Hb. unfold sql_leb, datetime_leb. cbn [sql_compare].
  now rewrite isoformat_compare.
Qed.

(** *** get_upcoming_events *)

Section UpcomingEvents.
Context {py : PyRuntime}.

Lemma row_fromisoformat_raises (v : sql_value) (e : exn) :
  row_fromisoformat v = Raise e -> e = ValueError \/ e = TypeError.
Proof.
  destruct v as [n|s|b]; simpl; [intros [= <-]; auto | | intros [= <-]; auto].
  destruct (fromisoformat s); [discriminate | intros [= <-]; auto].
Qed.

(** The loop appends the event of every row that parses and passes
    over the others; no exception leaves it. *)
Lemma for_row_in_spec (rows : list events_row) (acc : list event_dict) (d : Database) :
  for_row_in rows acc d = (Ok (acc ++ events_that_parse rows), d).
Proof.
  revert acc. induction rows as [|row rows IH]; intros acc.
  - cbn. now rewrite app_nil_r.
  - cbn [for_row_in events_that_parse flat_map].
    unfold bind, try_except, lift, ret.
    destruct (row_fromisoformat (ev_event_date row)) as [date|e] eqn:E.
    + rewrite IH. now rewrite <- app_assoc.
    + destruct (row_fromisoformat_raises _ _ E) as [-> | ->]; cbn; now rewrite IH.
Qed.

Lemma get_upcoming_events_unbounded (env : Env) (d : Database) :
  sqlite_ok env = true ->
  get_upcoming_events env None d =
  (Ok (events_that_parse (select_upcoming (isoformat (now env)) None d)), d).
Proof.
  intros H. unfold get_upcoming_events, try_except, bind, get_connection, fetchall.
  rewrite H. unfold ret at 1. now rewrite for_row_in_spec.
Qed.

Lemma get_upcoming_events_bounded (env : Env) (n : Z) (end_date : datetime)
    (d : Database) :
  sqlite_ok env = true -> add_days (now env) n = Ok end_date ->
  get_upcoming_events env (Some n) d =
  (Ok (events_that_parse
         (select_upcoming (isoformat (now env)) (Some (isoformat end_date)) d)), d).
Proof.
  intros H Hend.
  unfold get_upcoming_events, try_except, bind, get_connection, fetchall, lift.
  rewrite H, Hend. unfold ret at 1. now rewrite for_row_in_spec.
Qed.

Lemma get_upcoming_events_backend_down (env : Env) (days : option Z) (d : Database) :
  sqlite_ok env = false -> get_upcoming_events env days d = (Ok [], d).
Proof.
  intros H. unfold get_upcoming_events, try_except, bind, get_connection.
  now rewrite H.
Qed.

Lemma events_that_parse_app (rows1 rows2 : list events_row) :
  events_that_parse (rows1 ++ rows2) =
  events_that_parse rows1 ++ events_that_parse rows2.
Proof. unfold events_that_parse. apply flat_map_app. Qed.

Lemma events_that_parse_In (rows : list events_row) (e : event_dict) :
  In e (events_that_parse rows) <->
  exists row, In row rows /\
    row_fromisoformat (ev_event_date row) = Ok (e_event_date e) /\
    e = event_of_row row (e_event_date e).
Proof.
  unfold events_that_parse. rewrite in_flat_map. split.
  - intros (row & Hrow & He). exists row. split; auto.
    destruct (row_fromisoformat (ev_event_date row)) as [date|]; [|contradiction].
    destruct He as [<- | []]. auto.
  - intros (row & Hrow & Hdate & He). exists row. split; auto.
    rewrite Hdate. left. now symmetry.
Qed.

(** C10. Whatever the [events] table holds, the unbounded query
    returns a list and leaves the store as it was; with the backend up
    the list is made of the selected rows whose date parses, and a row
    whose date does not parse, be it a malformed text or not a text at
    all, adds nothing to it.  The same holds for a window of [n] days
    whenever the end of the window is a date. *)
Theorem get_upcoming_events_skips_unparsable_rows (env : Env) (d : Database) :
  (exists due, get_upcoming_events env None d = (Ok due, d)) /\
  (sqlite_ok env = true ->
   get_upcoming_events env None d =
   (Ok (events_that_parse (select_upcoming (isoformat (now env)) None d)), d)) /\
  (forall n end_date,
      sqlite_ok env = true -> add_days (now env) n = Ok end_date ->
      get_upcoming_events env (Some n) d =
      (Ok (events_that_parse
             (select_upcoming (isoformat (now env)) (Some (isoformat end_date)) d)), d)) /\
  (forall rows1 bad rows2 e,
      row_fromisoformat (ev_event_date bad) = Raise e ->
      events_that_parse (rows1 ++ bad :: rows2) =
      events_that_parse rows1 ++ events_that_parse rows2) /\
  (forall rows e,
      In e (events_that_parse rows) ->
      exists row, In row rows /\
        row_fromisoformat (ev_event_date row) = Ok (e_event_date e)).
Proof.
  split; [|split; [|split; [|split]]].
  - destruct (sqlite_ok env) eqn:H.
    + eexists. now apply get_upcoming_events_unbounded.
    + eexists. now apply get_upcoming_events_backend_down.
  - apply get_upcoming_events_unbounded.
  - intros n end_date. apply get_upcoming_events_bounded.
  - intros rows1 bad rows2 e Hbad.
    rewrite events_that_parse_app. f_equal.
    change (bad :: rows2) with ([bad] ++ rows2).
    rewrite events_that_parse_app. cbn. now rewrite Hbad.
  - intros rows e He. apply events_that_parse_In in He as (row & Hrow & Hdate & _).
    eauto.
Qed.

End UpcomingEvents.

(** *** Due events and mark_event_notified *)

Section DueEvents.
Context {py : PyRuntime}.
Hypothesis fromisoformat_isoformat : fromisoformat_inverts_isoformat py.

Lemma row_fromisoformat_canonical (v : sql_value) (date : datetime) :
  valid_datetime date = true -> v = SqlText (isoformat date) ->
  row_fromisoformat v = Ok date.
Proof.
  intros Hv ->. cbn [row_fromisoformat]. now rewrite fromisoformat_isoformat.
Qed.

(** A canonical text that parses to [date] is the ISO text of [date]. *)
Lemma canonical_parse_inv (v : sql_value) (date : datetime) :
  canonical_date v -> row_fromisoformat v = Ok date ->
  valid_datetime date = true /\ v = SqlText (isoformat date).
Proof.
  intros (date' & Hv & ->) H.
  rewrite (row_fromisoformat_canonical _ date' Hv eq_refl) in H.
  injection H as <-. auto.
Qed.

Lemma select_upcoming_In (now_str : str) (end_str : option str) (d : Database)
    (row : events_row) :
  In row (select_upcoming now_str end_str d) ->
  In row (events d) /\
  sql_geb (ev_event_date row) (SqlText now_str) = true /\
  ev_notified row = 0.
Proof.
  unfold select_upcoming. rewrite order_by_In, filter_In.
  rewrite !andb_true_iff, Z.eqb_eq. tauto.
Qed.

Lemma select_upcoming_Sorted (now_str : str) (end_str : option str) (d : Database) :
  Sorted (fun a b => sql_leb (ev_event_date a) (ev_event_date b) = true)
         (select_upcoming now_str end_str d).
Proof.
  unfold select_upcoming. apply order_by_Sorted.
  intros x y. apply sql_leb_total.
Qed.

Lemma events_that_parse_canonical_cons (row : events_row) (rows : list events_row) :
  canonical_date (ev_event_date row) ->
  exists date,
    valid_datetime date = true /\
    ev_event_date row = SqlText (isoformat date) /\
    events_that_parse (row :: rows) = event_of_row row date :: events_that_parse rows.
Proof.
  intros (date & Hv & Hrow). exists date. repeat split; auto.
  cbn [events_that_parse flat_map].
  now rewrite (row_fromisoformat_canonical _ date Hv Hrow).
Qed.

(** Rows in the order of their canonical texts give events in the
    order of their dates. *)
Lemma events_that_parse_ascending (rows : list events_row) :
  Forall (fun row => canonical_date (ev_event_date row)) rows ->
  Sorted (fun a b => sql_leb (ev_event_date a) (ev_event_date b) = true) rows ->
  ascending (events_that_parse rows).
Proof.
  unfold ascending.
  induction rows as [|row rows IH]; intros Hcan Hsorted.
  - constructor.
  - inversion Hcan as [|? ? Hrow Hrows]; subst.
    inversion Hsorted as [|? ? Hs Hhd]; subst.
    destruct (events_that_parse_canonical_cons row rows Hrow)
      as (date & Hv & Hdate & ->).
    constructor; [now apply IH|].
    destruct rows as [|row2 rows]; [constructor|].
    inversion Hrows as [|? ? Hrow2 _]; subst.
    destruct (events_that_parse_canonical_cons row2 rows Hrow2)
      as (date2 & Hv2 & Hdate2 & ->).
    constructor. cbn [event_of_row e_event_date].
    inversion Hhd as [|? ? Hle]; subst.
    rewrite Hdate, Hdate2, sql_leb_isoformat in Hle; assumption.
Qed.

Lemma mark_event_notified_ok (env : Env) (name : str) (date : datetime) (d : Database) :
  sqlite_ok env = true ->
  mark_event_notified env name date d =
  (Ok true, update_notified name (isoformat date) d).
Proof. intros H. run_method. now rewrite H. Qed.

Lemma update_notified_In (name s : str) (d : Database) (row : events_row) :
  In row (events (update_notified name s d)) ->
  exists row0, In row0 (events d) /\
    ev_name row = ev_name row0 /\ ev_event_date row = ev_event_date row0 /\
    (ev_name row0 = name -> ev_event_date row0 = SqlText s -> ev_notified row = 1).
Proof.
  cbn [update_notified events]. rewrite in_map_iff.
  intros (row0 & Hrow & Hin). exists row0. split; auto.
  destruct (str_eqb (ev_name row0) name &&
            sql_eqb (ev_event_date row0) (SqlText s)) eqn:E; subst row.
  - cbn. auto.
  - repeat split; auto. intros Hn Hd. exfalso.
    rewrite Hn, Hd, str_eqb_refl in E. cbn in E.
    assert (sql_eqb (SqlText s) (SqlText s) = true) by now apply sql_eqb_text.
    congruence.
Qed.

Lemma update_notified_canonical (name s : str) (d : Database) :
  stored_dates_canonical d -> stored_dates_canonical (update_notified name s d).
Proof.
  unfold stored_dates_canonical. rewrite !Forall_forall.
  intros H row Hrow. apply update_notified_In in Hrow as (row0 & Hin & _ & -> & _).
  now apply H.
Qed.

(** Once [mark_event_notified] has run for a (name, date) key, no
    query returns an event with this name and date. *)
Lemma marked_event_not_due (env_mark env_later : Env) (name : str) (date : datetime)
    (d : Database) :
  stored_dates_canonical d ->
  sqlite_ok env_mark = true ->
  exists d' due',
    mark_event_notified env_mark name date d = (Ok true, d') /\
    get_upcoming_events env_later None d' = (Ok due', d') /\
    forall e, In e due' -> ~ (e_name e = name /\ e_event_date e = date).
Proof.
  intros Hcan Hmark.
  exists (update_notified name (isoformat date) d).
  destruct (sqlite_ok env_later) eqn:Hlater.
  - eexists. split; [now apply mark_event_notified_ok|].
    split; [now apply get_upcoming_events_unbounded|].
    intros e He [Hname Hdate].
    apply events_that_parse_In in He as (row & Hrow & Hparse & He).
    apply select_upcoming_In in Hrow as (Hin & _ & Hnot).
    apply update_notified_In in Hin as (row0 & Hin0 & Hn0 & Hd0 & Hupd).
    unfold stored_dates_canonical in Hcan. rewrite Forall_forall in Hcan.
    rewrite Hd0 in Hparse.
    destruct (canonical_parse_inv _ _ (Hcan row0 Hin0) Hparse) as [_ Hiso].
    rewrite Hdate in Hiso.
    assert (Hrow0 : ev_name row0 = name).
    { rewrite <- Hn0, <- Hname, He. reflexivity. }
    specialize (Hupd Hrow0 Hiso). lia.
  - exists []. split; [now apply mark_event_notified_ok|].
    split; [now apply get_upcoming_events_backend_down|].
    intros e [].
Qed.

(** C2. On a store whose event dates are the ISO texts [add_event]
    writes, the unbounded query returns events that are not notified
    and not earlier than the current time, in ascending order of date;
    and once [mark_event_notified] has run for a (name, date) key, no
    later query returns an event with that name and date. *)
Theorem due_events_unnotified_future_ascending (env : Env) (d : Database) :
  stored_dates_canonical d ->
  valid_datetime (now env) = true ->
  exists due,
    get_upcoming_events env None d = (Ok due, d) /\
    (forall e, In e due ->
       datetime_leb (now env) (e_event_date e) = true /\
       exists row, In row (events d) /\
         ev_notified row = 0 /\
         ev_name row = e_name e /\
         ev_event_date row = SqlText (isoformat (e_event_date e))) /\
    ascending due /\
    (forall env_mark env_later name date,
       sqlite_ok env_mark = true ->
       exists d' due',
         mark_event_notified env_mark name date d = (Ok true, d') /\
         get_upcoming_events env_later None d' = (Ok due', d') /\
         forall e, In e due' -> ~ (e_name e = name /\ e_event_date e = date)).
Proof.
  intros Hcan Hnow.
  assert (Hmark : forall env_mark env_later name date,
             sqlite_ok env_mark = true ->
             exists d' due',
               mark_event_notified env_mark name date d = (Ok true, d') /\
               get_upcoming_events env_later None d' = (Ok due', d') /\
               forall e, In e due' -> ~ (e_name e = name /\ e_event_date e = date)).
  { intros env_mark env_later name date. now apply marked_event_not_due. }
  destruct (sqlite_ok env) eqn:Hok.
  - exists (events_that_parse (select_upcoming (isoformat (now env)) None d)).
    split; [now apply get_upcoming_events_unbounded|].
    split; [|split; [|exact Hmark]].
    + intros e He. apply events_that_parse_In in He as (row & Hrow & Hdate & He).
      apply select_upcoming_In in Hrow as (Hin & Hge & Hnot).
      unfold stored_dates_canonical in Hcan. rewrite Forall_forall in Hcan.
      destruct (canonical_parse_inv _ _ (Hcan row Hin) Hdate) as [Hv Hiso].
      split.
      * rewrite Hiso in Hge. unfold sql_geb in Hge.
        now rewrite sql_leb_isoformat in Hge.
      * exists row. repeat split; auto. now rewrite He.
    + apply events_that_parse_ascending.
      * unfold stored_dates_canonical in Hcan. rewrite Forall_forall in *.
        intros row Hrow. apply select_upcoming_In in Hrow as (Hin & _). now apply Hcan.
      * apply select_upcoming_Sorted.
  - exists []. split; [now apply get_upcoming_events_backend_down|].
    split; [intros e []|]. split; [constructor | exact Hmark].
Qed.

End DueEvents.

(** ** The dialogs *)

(** A command typed as it is registered, without ["@"], matches its
    handler whatever the bot is called. *)
Lemma command_matches_own (username name : string) :
  split_string "@" name = [name] -> command_matches username name name = true.
Proof.
  intros H. unfold command_matches. rewrite H. cbn [app nth].
  now rewrite !String.eqb_refl.
Qed.

Ltac run_handler :=
  unfold question_start, question_received, answer_start, answer_received, cancel,
    add_contact_start, add_contact_name, add_contact_info, add_event_start,
    add_event_name, add_event_date, add_event_description, add_digest_start,
    add_digest_received, set_contact_name, set_event_name, set_event_date,
    user_data_clear, try_except, bind, ret, raise, lift, call_db, reply_text,
    get_user_data, set_user_data, Exception, replied;
  cbn [fst snd db user_data replies logged].

Section Dialogs.
Context {py : PyRuntime}.

Lemma strptime_raises (text : str) (e : exn) :
  strptime text = Raise e -> e = ValueError.
Proof.
  unfold strptime, datetime_new.
  destruct (format_regex text) as [|[[[[[d m] y] hh] mm] rest] l].
  - now intros [= <-].
  - destruct rest; [|now intros [= <-]].
    destruct (valid_datetime _); [discriminate | now intros [= <-]].
Qed.

Lemma strptime_valid (text : str) (date : datetime) :
  strptime text = Ok date -> valid_datetime date = true.
Proof.
  unfold strptime, datetime_new.
  destruct (format_regex text) as [|[[[[[d m] y] hh] mm] rest] l]; [discriminate|].
  destruct rest; [|discriminate].
  destruct (valid_datetime _) eqn:E; [|discriminate].
  now intros [= <-].
Qed.

Lemma add_event_date_parsed (env : Env) (text : str) (w : World) (date : datetime) :
  strptime text = Ok date ->
  add_event_date env text w =
  (Ok ADDING_EVENT_DESCRIPTION,
   {| db := db w;
      user_data := {| contact_name := contact_name (user_data w);
                      event_name := event_name (user_data w);
                      event_date := Some date |};
      replies := replies w ++ [MSG_EVENT_DESCRIPTION_PROMPT];
      logged := logged w |}).
Proof. intros H. run_handler. now rewrite H. Qed.

Lemma add_event_date_rejected (env : Env) (text : str) (w : World) (e : exn) :
  strptime text = Raise e ->
  add_event_date env text w = (Ok ADDING_EVENT_DATE, replied w MSG_BAD_DATE).
Proof.
  intros H. rewrite (strptime_raises _ _ H) in H.
  run_handler. now rewrite H.
Qed.

(** Every handler but [add_event_date] leaves the state it is
    registered for. *)
Lemma question_received_ends (env : Env) (text : str) (w : World) :
  fst (question_received env text w) = Ok END.
Proof.
  run_handler.
  destruct (get_company_info env text (db w)) as [[answer|e] d'];
    [destruct (truthy_opt answer)|]; reflexivity.
Qed.

Lemma answer_received_ends (env : Env) (text : str) (w : World) :
  fst (answer_received env text w) = Ok END.
Proof.
  run_handler.
  destruct (contains (lower text) VOPROS && contains (lower text) OTVET); [|reflexivity].
  destruct (List.length (re_split OTVET_COLON text) =? 2)%nat; [|reflexivity].
  destruct (truthy _ && truthy _); [|reflexivity].
  destruct (add_company_info env _ _ (db w)) as [[[|]|e] d']; reflexivity.
Qed.

Lemma add_contact_name_advances (env : Env) (text : str) (w : World) :
  fst (add_contact_name env text w) = Ok ADDING_CONTACT_INFO.
Proof. reflexivity. Qed.

Lemma add_contact_info_ends (env : Env) (text : str) (w : World) :
  fst (add_contact_info env text w) = Ok END.
Proof.
  run_handler.
  destruct (truthy_opt (contact_name (user_data w))); [|reflexivity].
  destruct (add_contact env _ text (db w)) as [[[|]|e] d']; reflexivity.
Qed.

Lemma add_event_name_advances (env : Env) (text : str) (w : World) :
  fst (add_event_name env text w) = Ok ADDING_EVENT_DATE.
Proof. reflexivity. Qed.

Lemma add_event_description_ends (env : Env) (text : str) (w : World) :
  fst (add_event_description env text w) = Ok END.
Proof.
  run_handler.
  destruct (truthy_opt (event_name (user_data w))); [|reflexivity].
  destruct (event_date (user_data w)) as [date|]; [|reflexivity].
  destruct (add_event env _ date _ (db w)) as [[[|]|e] d']; reflexivity.
Qed.

Lemma add_digest_received_ends (env : Env) (text : str) (w : World) :
  fst (add_digest_received env text w) = Ok END.
Proof.
  run_handler.
  destruct (add_digest env text (db w)) as [[[|]|e] d']; reflexivity.
Qed.

Lemma retry_only_at_date_step (conv : ConversationHandler) (state : Z)
    (handler : Handler) (env : Env) (text : str) (w : World) :
  In conv conversations -> In (state, handler) (states conv) ->
  fst (handler env text w) = Ok state ->
  state = ADDING_EVENT_DATE /\ strptime text = Raise ValueError.
Proof.
  intros Hconv Hstate Hret.
  assert (Hend : Ok END <> Ok ASKING_QUESTION :> result Z) by discriminate.
  cbn in Hconv.
  destruct Hconv as [<-|[<-|[<-|[<-|[<-|[]]]]]]; cbn in Hstate;
    repeat match type of Hstate with
           | _ \/ _ => destruct Hstate as [Hstate|Hstate]
           | (_, _) = (_, _) => injection Hstate as <- <-
           | False => destruct Hstate
           end.
  - rewrite question_received_ends in Hret. discriminate.
  - rewrite answer_received_ends in Hret. discriminate.
  - rewrite add_contact_name_advances in Hret. discriminate.
  - rewrite add_contact_info_ends in Hret. discriminate.
  - rewrite add_event_name_advances in Hret. discriminate.
  - split; [reflexivity|].
    destruct (strptime text) as [date|e] eqn:E.
    + rewrite (add_event_date_parsed _ _ _ _ E) in Hret. discriminate.
    + now rewrite (strptime_raises _ _ E).
  - rewrite add_event_description_ends in Hret. discriminate.
  - rewrite add_digest_received_ends in Hret. discriminate.
Qed.

(** What holds of the fourteen handlers holds of every handler a
    conversation of [main] picks for an update. *)
Lemma registered_handlers (P : Handler -> Prop) :
  P question_start -> P question_received -> P answer_start ->
  P answer_received -> P cancel -> P add_contact_start -> P add_contact_name ->
  P add_contact_info -> P add_event_start -> P add_event_name ->
  P add_event_date -> P add_event_description -> P add_digest_start ->
  P add_digest_received ->
  forall env conv state u handler,
    In conv conversations -> check_update env conv state u = Some handler -> P handler.
Proof.
  intros Hqs Hqr Has Har Hcancel Hcs Hcn Hci Hes Hen Hed Hedesc Hds Hdr.
  intros env conv state u handler Hconv Hcheck.
  unfold conversations in Hconv. cbn [In] in Hconv.
  destruct Hconv as [<-|[<-|[<-|[<-|[<-|[]]]]]];
    unfold check_update in Hcheck;
    destruct state as [s|], u as [c|t];
    cbn [entry_points states fallbacks question_conv answer_conv contact_conv
         event_conv digest_conv command_handler state_handler] in Hcheck;
    try discriminate;
    repeat match type of Hcheck with
           | (if ?b then _ else _) = _ => destruct b
           | None = Some _ => discriminate
           end;
    injection Hcheck as <-; assumption.
Qed.

End Dialogs.

Section AnswerDialog.
Context {py : PyRuntime}.

Lemma answer_received_missing_label (env : Env) (text : str) (w : World) :
  contains (lower text) VOPROS && contains (lower text) OTVET = false ->
  answer_received env text w = (Ok END, replied w MSG_BAD_FORMAT).
Proof. intros H. run_handler. now rewrite H. Qed.

Lemma answer_received_no_split (env : Env) (text : str) (w : World) :
  contains (lower text) VOPROS && contains (lower text) OTVET = true ->
  List.length (re_split OTVET_COLON text) <> 2%nat ->
  answer_received env text w = (Ok END, replied w MSG_BAD_FORMAT_RETRY).
Proof.
  intros H Hlen. run_handler. rewrite H.
  apply Nat.eqb_neq in Hlen. now rewrite Hlen.
Qed.

Lemma answer_received_empty_part (env : Env) (text head tail : str) (w : World) :
  contains (lower text) VOPROS && contains (lower text) OTVET = true ->
  re_split OTVET_COLON text = [head; tail] ->
  truthy (strip (re_sub_prefix VOPROS_COLON head)) && truthy (strip tail) = false ->
  answer_received env text w = (Ok END, replied w MSG_EMPTY).
Proof.
  intros H Hsplit Hempty. run_handler. rewrite H, Hsplit.
  cbn [List.length Nat.eqb nth]. now rewrite Hempty.
Qed.

Lemma answer_received_accepted (env : Env) (text head tail question answer : str)
    (w : World) :
  contains (lower text) VOPROS && contains (lower text) OTVET = true ->
  re_split OTVET_COLON text = [head; tail] ->
  strip (re_sub_prefix VOPROS_COLON head) = question ->
  strip tail = answer ->
  truthy question && truthy answer = true ->
  answer_received env text w =
  if sqlite_ok env
  then (Ok END,
        {| db := insert_or_replace_company_info (lower question) answer (db w);
           user_data := user_data w;
           replies := replies w ++ [MSG_ANSWER_ADDED];
           logged := logged w |})
  else (Ok END, replied w MSG_ANSWER_NOT_ADDED).
Proof.
  intros H Hsplit Hq Ha Hfull. run_handler. rewrite H, Hsplit.
  cbn [List.length Nat.eqb nth]. rewrite Hq, Ha, Hfull.
  destruct (sqlite_ok env) eqn:Hok.
  - now rewrite add_company_info_ok.
  - now rewrite add_company_info_fails.
Qed.

Lemma truthy_false (s : str) : s = [] -> truthy s = false.
Proof. now intros ->. Qed.

Lemma answer_received_rejects (env : Env) (text : str) (w : World) :
  ((contains (lower text) VOPROS = false \/ contains (lower text) OTVET = false) ->
   answer_received env text w = (Ok END, replied w MSG_BAD_FORMAT)) /\
  (List.length (re_split OTVET_COLON text) <> 2%nat ->
   answer_received env text w = (Ok END, replied w MSG_BAD_FORMAT) \/
   answer_received env text w = (Ok END, replied w MSG_BAD_FORMAT_RETRY)) /\
  (forall head tail,
     re_split OTVET_COLON text = [head; tail] ->
     strip (re_sub_prefix VOPROS_COLON head) = [] \/ strip tail = [] ->
     answer_received env text w = (Ok END, replied w MSG_BAD_FORMAT) \/
     answer_received env text w = (Ok END, replied w MSG_EMPTY)).
Proof.
  destruct (contains (lower text) VOPROS && contains (lower text) OTVET) eqn:H.
  - apply andb_true_iff in H as [H1 H2]. split; [|split].
    + intros [E|E]; congruence.
    + intros Hlen. right. apply answer_received_no_split; auto.
      now rewrite H1, H2.
    + intros head tail Hsplit Hempty. right.
      apply (answer_received_empty_part env text head tail); auto.
      * now rewrite H1, H2.
      * destruct Hempty as [E|E]; rewrite E; [reflexivity | apply andb_false_r].
  - pose proof (answer_received_missing_label env text w H) as E.
    split; [|split]; auto.
Qed.

End AnswerDialog.

(** C3. In the date step of the event dialog, the text
    "25.12.2024 15:00" parses to 25 December 2024, 15:00; a text that
    parses moves the conversation to the description step with the date
    kept in [user_data]; a text that does not parse, such as
    "2024-12-25", gets the format reply and leaves the conversation in
    the date step with nothing else changed; and no other handler of
    any conversation returns the state it is registered for. *)
Theorem add_event_date_parses_or_retries :
  @strptime basic_runtime (utf8 "25.12.2024 15:00") =
    Ok (mk_datetime 2024 12 25 15 0 0 0) /\
  @strptime basic_runtime (utf8 "2024-12-25") = Raise ValueError /\
  (forall (py : PyRuntime) (env : Env) (text : str) (w : World),
     match strptime text with
     | Ok date =>
         handle_update event_conv env (Some ADDING_EVENT_DATE) (Message text) w =
         (Ok (Some ADDING_EVENT_DESCRIPTION),
          {| db := db w;
             user_data := {| contact_name := contact_name (user_data w);
                             event_name := event_name (user_data w);
                             event_date := Some date |};
             replies := replies w ++ [MSG_EVENT_DESCRIPTION_PROMPT];
             logged := logged w |})
     | Raise _ =>
         handle_update event_conv env (Some ADDING_EVENT_DATE) (Message text) w =
         (Ok (Some ADDING_EVENT_DATE), replied w MSG_BAD_DATE)
     end) /\
  (forall (py : PyRuntime) (conv : ConversationHandler) (state : Z)
          (handler : Handler) (env : Env) (text : str) (w : World),
     In conv conversations -> In (state, handler) (states conv) ->
     fst (handler env text w) = Ok state ->
     state = ADDING_EVENT_DATE /\ strptime text = Raise ValueError).
Proof.
  split; [vm_compute; reflexivity|].
  split; [vm_compute; reflexivity|].
  split.
  - intros py env text w.
    destruct (@strptime py text) as [date|e] eqn:E;
      unfold handle_update;
      change (check_update env event_conv (Some ADDING_EVENT_DATE) (Message text))
        with (Some add_event_date);
      cbn [message_text]; unfold bind at 1.
    + rewrite (@add_event_date_parsed py env text w date E). reflexivity.
    + rewrite (@add_event_date_rejected py env text w e E). reflexivity.
  - intros py. apply (@retry_only_at_date_step py).
Qed.

(** C4. The answer dialog, with the labels the handler looks for: the
    text "Вопрос: What is X? Ответ: It is Y." splits into the question
    "What is X?" and the answer "It is Y." and is upserted under the
    lower-case question; the handler always ends the conversation; and
    a text that lacks the word «вопрос» or the word «ответ», or has no
    «ответ:» to split at, or gives an empty question or answer, gets an
    error reply and changes nothing else. *)
Theorem answer_received_single_shot :
  (@re_split basic_runtime OTVET_COLON (utf8 "Вопрос: What is X? Ответ: It is Y.") =
     [utf8 "Вопрос: What is X? "; utf8 "It is Y."] /\
   @strip basic_runtime
     (@re_sub_prefix basic_runtime VOPROS_COLON (utf8 "Вопрос: What is X? ")) =
     utf8 "What is X?" /\
   @strip basic_runtime (utf8 "It is Y.") = utf8 "It is Y.") /\
  (forall (env : Env) (w : World),
     sqlite_ok env = true ->
     @answer_received basic_runtime env (utf8 "Вопрос: What is X? Ответ: It is Y.") w =
     (Ok END,
      {| db := insert_or_replace_company_info (utf8 "what is x?") (utf8 "It is Y.") (db w);
         user_data := user_data w;
         replies := replies w ++ [MSG_ANSWER_ADDED];
         logged := logged w |})) /\
  (forall (py : PyRuntime) (env : Env) (text : str) (w : World),
     fst (answer_received env text w) = Ok END /\
     ((contains (lower text) VOPROS = false \/ contains (lower text) OTVET = false) ->
      answer_received env text w = (Ok END, replied w MSG_BAD_FORMAT)) /\
     (List.length (re_split OTVET_COLON text) <> 2%nat ->
      answer_received env text w = (Ok END, replied w MSG_BAD_FORMAT) \/
      answer_received env text w = (Ok END, replied w MSG_BAD_FORMAT_RETRY)) /\
     (forall head tail,
        re_split OTVET_COLON text = [head; tail] ->
        strip (re_sub_prefix VOPROS_COLON head) = [] \/ strip tail = [] ->
        answer_received env text w = (Ok END, replied w MSG_BAD_FORMAT) \/
        answer_received env text w = (Ok END, replied w MSG_EMPTY))).
Proof.
  split; [repeat split; vm_compute; reflexivity|].
  split.
  - intros env w Hok.
    rewrite (answer_received_accepted env _
               (utf8 "Вопрос: What is X? ") (utf8 "It is Y.")
               (utf8 "What is X?") (utf8 "It is Y.") w)
      by (vm_compute; reflexivity).
    rewrite Hok. reflexivity.
  - intros py env text w. split.
    + apply (@answer_received_ends py).
    + apply (@answer_received_rejects py).
Qed.

(** C4, as the claim states it: the text with the English labels is
    rejected with the format reply, and nothing is stored for its
    question. *)
Lemma english_labels_are_rejected :
  answer_received example_env (utf8 "Question: What is X? Answer: It is Y.") fresh_world =
    (Ok END, replied fresh_world MSG_BAD_FORMAT) /\
  get_company_info example_env (utf8 "What is X?")
    (db (snd (answer_received example_env
                (utf8 "Question: What is X? Answer: It is Y.") fresh_world))) =
    (Ok None, init_db).
Proof. split; vm_compute; reflexivity. Qed.

(** *** The final steps and cancel *)

Section FinalSteps.
Context {py : PyRuntime}.

Lemma add_contact_ok (env : Env) (name info : str) (d : Database) :
  sqlite_ok env = true ->
  add_contact env name info d = (Ok true, insert_contact name info d).
Proof. intros H. run_method. now rewrite H. Qed.

Lemma add_contact_fails (env : Env) (name info : str) (d : Database) :
  sqlite_ok env = false -> add_contact env name info d = (Ok false, d).
Proof. intros H. run_method. now rewrite H. Qed.

Lemma add_event_ok (env : Env) (name : str) (date : datetime) (description : str)
    (d : Database) :
  sqlite_ok env = true ->
  add_event env name date description d =
  (Ok true, insert_event name (isoformat date) description d).
Proof. intros H. run_method. now rewrite H. Qed.

Lemma add_event_fails (env : Env) (name : str) (date : datetime) (description : str)
    (d : Database) :
  sqlite_ok env = false -> add_event env name date description d = (Ok false, d).
Proof. intros H. run_method. now rewrite H. Qed.

(** The last step of the contact dialog: the conversation ends either
    way, but [user_data] is cleared only after a successful write. *)
Lemma add_contact_info_spec (env : Env) (text name : str) (w : World) :
  contact_name (user_data w) = Some name -> truthy name = true ->
  add_contact_info env text w =
  if sqlite_ok env
  then (Ok END,
        {| db := insert_contact name text (db w);
           user_data := user_data_empty;
           replies := replies w ++ [MSG_CONTACT_ADDED name];
           logged := logged w |})
  else (Ok END, replied w MSG_CONTACT_NOT_ADDED).
Proof.
  intros Hname Htruthy. run_handler. rewrite Hname. cbn [truthy_opt or_empty].
  rewrite Htruthy. destruct (sqlite_ok env) eqn:Hok.
  - now rewrite add_contact_ok.
  - now rewrite add_contact_fails.
Qed.

Lemma add_event_description_spec (env : Env) (text name : str) (date : datetime)
    (w : World) :
  event_name (user_data w) = Some name -> truthy name = true ->
  event_date (user_data w) = Some date ->
  add_event_description env text w =
  if sqlite_ok env
  then (Ok END,
        {| db := insert_event name (isoformat date)
                   (if str_eqb text (utf8 "-") then [] else text) (db w);
           user_data := user_data_empty;
           replies := replies w ++ [MSG_EVENT_ADDED name];
           logged := logged w |})
  else (Ok END, replied w MSG_EVENT_NOT_ADDED).
Proof.
  intros Hname Htruthy Hdate. run_handler. rewrite Hname, Hdate.
  cbn [truthy_opt or_empty]. rewrite Htruthy. destruct (sqlite_ok env) eqn:Hok.
  - now rewrite add_event_ok.
  - now rewrite add_event_fails.
Qed.

Lemma cancel_spec (env : Env) (text : str) (w : World) :
  cancel env text w = (Ok END, replied w MSG_CANCELLED).
Proof. reflexivity. Qed.

(** In every conversation and every state, the cancel command ends the
    conversation, and the world differs by the reply alone. *)
Lemma cancel_ends_conversation (conv : ConversationHandler) (state : Z) (env : Env)
    (w : World) :
  In conv conversations ->
  handle_update conv env (Some state) (Command "cancel") w =
  (Ok None, replied w MSG_CANCELLED).
Proof.
  unfold conversations. cbn [In]. unfold handle_update, check_update.
  intros [<-|[<-|[<-|[<-|[<-|[]]]]]];
    cbn [fallbacks question_conv answer_conv contact_conv event_conv digest_conv
         command_handler];
    rewrite command_matches_own by reflexivity; reflexivity.
Qed.

(** *** The daily job reads the store and does not write it *)

Lemma get_recent_digests_reads (env : Env) (limit : Z) (d : Database) :
  bind_integer limit = Ok limit ->
  snd (get_recent_digests env limit d) = d /\
  exists digests, fst (get_recent_digests env limit d) = Ok digests.
Proof.
  intros Hlimit. run_method. rewrite Hlimit. destruct (sqlite_ok env); cbn; eauto.
Qed.

Lemma get_upcoming_events_reads (env : Env) (days : option Z) (d : Database) :
  snd (get_upcoming_events env days d) = d.
Proof.
  destruct (sqlite_ok env) eqn:Hok.
  - destruct days as [n|].
    + destruct (add_days (now env) n) as [end_date|e] eqn:E.
      * now rewrite (get_upcoming_events_bounded env n end_date d Hok E).
      * unfold get_upcoming_events, try_except, bind, get_connection, lift.
        rewrite Hok, E. cbn. now destruct (exn_eqb e sqlite3_Error || false).
    + now rewrite get_upcoming_events_unbounded.
  - now rewrite get_upcoming_events_backend_down.
Qed.

Lemma send_daily_digest_keeps_db (env : Env) (w : World) :
  db (snd (send_daily_digest env w)) = db w /\
  user_data (snd (send_daily_digest env w)) = user_data w.
Proof.
  unfold send_daily_digest, try_except, bind, call_db, logger_info, ret, Exception.
  destruct (get_recent_digests_reads env 1 (db w) eq_refl) as [Hd [digests Hr]].
  destruct (get_recent_digests env 1 (db w)) as [r1 d1]. cbn in Hd, Hr. subst.
  cbn [db user_data replies logged].
  pose proof (get_upcoming_events_reads env (Some 1) (db w)) as Hu.
  destruct (get_upcoming_events env (Some 1) (db w)) as [[due|e] d2];
    cbn in Hu; subst; cbn; auto.
Qed.

End FinalSteps.

(** *** What the writes leave alone *)

Section Frames.
Context {py : PyRuntime}.

Lemma add_company_info_events (env : Env) (q a : str) (d : Database) :
  events (snd (add_company_info env q a d)) = events d.
Proof.
  destruct (sqlite_ok env) eqn:H.
  - now rewrite add_company_info_ok.
  - now rewrite add_company_info_fails.
Qed.

Lemma get_company_info_reads (env : Env) (q : str) (d : Database) :
  snd (get_company_info env q d) = d.
Proof. run_method. now destruct (sqlite_ok env). Qed.

Lemma add_contact_events (env : Env) (name info : str) (d : Database) :
  events (snd (add_contact env name info d)) = events d.
Proof.
  destruct (sqlite_ok env) eqn:H.
  - now rewrite add_contact_ok.
  - now rewrite add_contact_fails.
Qed.

Lemma add_digest_events (env : Env) (content : str) (d : Database) :
  events (snd (add_digest env content d)) = events d.
Proof. run_method. now destruct (sqlite_ok env). Qed.

End Frames.

(** *** The notified flag *)

Section NotifiedFlag.
Context {py : PyRuntime}.

Lemma same_events_adds_nothing (w w' : World) :
  events (db w') = events (db w) -> adds_unnotified_events w w'.
Proof. intros H. exists []. rewrite app_nil_r. split; [exact H | constructor]. Qed.

Ltac same_events := apply same_events_adds_nothing; cbn; auto.

Lemma prompts_keep_flags :
  keeps_flags question_start /\ keeps_flags answer_start /\
  keeps_flags cancel /\ keeps_flags add_contact_start /\
  keeps_flags add_contact_name /\ keeps_flags add_event_start /\
  keeps_flags add_event_name /\ keeps_flags add_digest_start.
Proof.
  repeat match goal with |- _ /\ _ => split end;
    intros env text w; run_handler; same_events.
Qed.

Lemma question_received_keeps_flags : keeps_flags question_received.
Proof.
  intros env text w. run_handler.
  pose proof (get_company_info_reads env text (db w)) as H.
  destruct (get_company_info env text (db w)) as [[answer|e] d']; cbn in H; subst d';
    [destruct (truthy_opt answer)|]; same_events.
Qed.

Lemma answer_received_keeps_flags : keeps_flags answer_received.
Proof.
  intros env text w. run_handler.
  destruct (contains (lower text) VOPROS && contains (lower text) OTVET);
    [|same_events].
  destruct (List.length (re_split OTVET_COLON text) =? 2)%nat; [|same_events].
  destruct (truthy _ && truthy _); [|same_events].
  match goal with
  | |- context [add_company_info env ?q ?a (db w)] =>
      pose proof (add_company_info_events env q a (db w)) as H;
      destruct (add_company_info env q a (db w)) as [[[|]|e] d']
  end; cbn in H; same_events.
Qed.

Lemma add_contact_info_keeps_flags : keeps_flags add_contact_info.
Proof.
  intros env text w. run_handler.
  destruct (truthy_opt (contact_name (user_data w))); [|same_events].
  match goal with
  | |- context [add_contact env ?n ?i (db w)] =>
      pose proof (add_contact_events env n i (db w)) as H;
      destruct (add_contact env n i (db w)) as [[[|]|e] d']
  end; cbn in H; same_events.
Qed.

Lemma add_event_date_keeps_flags : keeps_flags add_event_date.
Proof.
  intros env text w. destruct (strptime text) as [date|e] eqn:E.
  - rewrite (add_event_date_parsed env text w date E). same_events.
  - rewrite (add_event_date_rejected env text w e E). same_events.
Qed.

Lemma add_event_description_keeps_flags : keeps_flags add_event_description.
Proof.
  intros env text w.
  destruct (event_name (user_data w)) as [name|] eqn:Ename;
    [destruct (truthy name) eqn:Etruthy|];
    [destruct (event_date (user_data w)) as [date|] eqn:Edate| |].
  - rewrite (add_event_description_spec env text name date w Ename Etruthy Edate).
    destruct (sqlite_ok env); [|same_events].
    eexists. split; [reflexivity|]. repeat constructor.
  - run_handler. rewrite Ename, Edate. cbn [truthy_opt]. rewrite Etruthy. same_events.
  - run_handler. rewrite Ename. cbn [truthy_opt]. rewrite Etruthy. same_events.
  - run_handler. rewrite Ename. cbn [truthy_opt]. same_events.
Qed.

Lemma add_digest_received_keeps_flags : keeps_flags add_digest_received.
Proof.
  intros env text w. run_handler.
  pose proof (add_digest_events env text (db w)) as H.
  destruct (add_digest env text (db w)) as [[[|]|e] d']; cbn in H; same_events.
Qed.

Lemma handle_update_keeps_flags (conv : ConversationHandler) (env : Env)
    (state : option Z) (u : Update) (w : World) :
  In conv conversations ->
  adds_unnotified_events w (snd (handle_update conv env state u w)).
Proof.
  intros Hconv. unfold handle_update.
  destruct (check_update env conv state u) as [handler|] eqn:E; [|same_events].
  destruct prompts_keep_flags as (Hqs & Has & Hcancel & Hcs & Hcn & Hes & Hen & Hds).
  pose proof (registered_handlers keeps_flags Hqs question_received_keeps_flags Has
                answer_received_keeps_flags Hcancel Hcs Hcn
                add_contact_info_keeps_flags Hes Hen add_event_date_keeps_flags
                add_event_description_keeps_flags Hds add_digest_received_keeps_flags
                env conv state u handler Hconv E env (message_text u) w) as H.
  unfold bind, ret.
  destruct (handler env (message_text u) w) as [[next|e] w']; exact H.
Qed.

End NotifiedFlag.

Lemma mark_event_notified_rows (env : Env) (name : str) (date : datetime)
    (d : Database) :
  Forall2 (marked_or_same name date)
          (events d) (events (snd (mark_event_notified env name date d))).
Proof.
  assert (Hsame : forall rows, Forall2 (marked_or_same name date) rows rows).
  { induction rows; constructor; auto. unfold marked_or_same. auto. }
  destruct (sqlite_ok env) eqn:Hok.
  - rewrite mark_event_notified_ok by assumption.
    cbn [snd update_notified events].
    induction (events d) as [|row rows IH]; cbn [map]; constructor; auto.
    destruct (str_eqb (ev_name row) name &&
              sql_eqb (ev_event_date row) (SqlText (isoformat date))) eqn:E.
    + apply andb_true_iff in E as [En Ed]. apply str_eqb_eq in En.
      unfold marked_or_same. cbn. repeat split. right. repeat split; auto.
      destruct (ev_event_date row) as [n|s0|b]; try discriminate.
      apply sql_eqb_text in Ed. now subst.
    + unfold marked_or_same. auto.
  - run_method. rewrite Hok. cbn. apply Hsame.
Qed.

(** ** Scenarios *)

(** C7. The last step of a dialog ends the conversation whether the
    write succeeds or fails, but it clears [user_data] only when the
    write succeeds: after a failed write the name given to the contact
    dialog, and the name and date given to the event dialog, are still
    in [user_data]. *)
Theorem failed_write_keeps_user_data :
  (forall (env : Env) (text name : str) (w : World),
     contact_name (user_data w) = Some name -> truthy name = true ->
     sqlite_ok env = false ->
     add_contact_info env text w = (Ok END, replied w MSG_CONTACT_NOT_ADDED) /\
     contact_name (user_data (snd (add_contact_info env text w))) = Some name) /\
  (forall (env : Env) (text name : str) (date : datetime) (w : World),
     event_name (user_data w) = Some name -> truthy name = true ->
     event_date (user_data w) = Some date ->
     sqlite_ok env = false ->
     add_event_description env text w = (Ok END, replied w MSG_EVENT_NOT_ADDED) /\
     event_date (user_data (snd (add_event_description env text w))) = Some date) /\
  run contact_conv None
      [(example_env, Command "add_contact");
       (example_env, Message (utf8 "Bob"));
       (failing_env, Message (utf8 "bob@example.com"))] fresh_world =
    (Ok None,
     {| db := init_db;
        user_data := {| contact_name := Some (utf8 "Bob");
                        event_name := None; event_date := None |};
        replies := [MSG_CONTACT_NAME_PROMPT; MSG_CONTACT_INFO_PROMPT;
                    MSG_CONTACT_NOT_ADDED];
        logged := [] |}) /\
  run event_conv None
      [(example_env, Command "add_event");
       (example_env, Message (utf8 "Launch"));
       (example_env, Message (utf8 "24.12.2024 15:00"));
       (failing_env, Message (utf8 "-"))] fresh_world =
    (Ok None,
     {| db := init_db;
        user_data := {| contact_name := None;
                        event_name := Some (utf8 "Launch");
                        event_date := Some launch_date |};
        replies := [MSG_EVENT_NAME_PROMPT; MSG_EVENT_DATE_PROMPT;
                    MSG_EVENT_DESCRIPTION_PROMPT; MSG_EVENT_NOT_ADDED];
        logged := [] |}) /\
  run contact_conv None
      [(example_env, Command "add_contact");
       (example_env, Message (utf8 "Bob"));
       (example_env, Message (utf8 "bob@example.com"))] fresh_world =
    (Ok None,
     {| db := insert_contact (utf8 "Bob") (utf8 "bob@example.com") init_db;
        user_data := user_data_empty;
        replies := [MSG_CONTACT_NAME_PROMPT; MSG_CONTACT_INFO_PROMPT;
                    MSG_CONTACT_ADDED (utf8 "Bob")];
        logged := [] |}).
Proof.
  split; [|split].
  - intros env text name w Hname Htruthy Hfail.
    rewrite (add_contact_info_spec env text name w Hname Htruthy), Hfail.
    split; [reflexivity | exact Hname].
  - intros env text name date w Hname Htruthy Hdate Hfail.
    rewrite (add_event_description_spec env text name date w Hname Htruthy Hdate),
      Hfail.
    split; [reflexivity | exact Hdate].
  - repeat split; vm_compute; reflexivity.
Qed.

(** C8. The cancel command ends the conversation from every state of
    every dialog and leaves the store as it was, so a contact dialog
    cancelled after the name adds no contact; but the handler does not
    touch [user_data], where the name stays. *)
Theorem cancel_keeps_user_data :
  (forall (py : PyRuntime) (conv : ConversationHandler) (state : Z) (env : Env)
          (w : World),
     In conv conversations ->
     handle_update conv env (Some state) (Command "cancel") w =
     (Ok None, replied w MSG_CANCELLED)) /\
  run contact_conv None
      [(example_env, Command "add_contact");
       (example_env, Message (utf8 "Bob"));
       (example_env, Command "cancel")] fresh_world =
    (Ok None,
     {| db := init_db;
        user_data := {| contact_name := Some (utf8 "Bob");
                        event_name := None; event_date := None |};
        replies := [MSG_CONTACT_NAME_PROMPT; MSG_CONTACT_INFO_PROMPT; MSG_CANCELLED];
        logged := [] |}).
Proof.
  split; [intros py; apply (@cancel_ends_conversation py)|].
  vm_compute; reflexivity.
Qed.

(** *** The theorems at concrete inputs *)


Lemma launch_world_canonical : stored_dates_canonical (db launch_world).
Proof.
  repeat constructor. exists launch_date. split; reflexivity.
Defined.

(** C2 on the store that holds "Launch". *)
Lemma due_events_example :
  fromisoformat_inverts_isoformat basic_runtime /\
  stored_dates_canonical (db launch_world) /\
  valid_datetime (now example_env) = true /\
  exists due,
    get_upcoming_events example_env None (db launch_world) = (Ok due, db launch_world) /\
    ascending due.
Proof.
  split; [exact basic_fromisoformat_isoformat|].
  split; [exact launch_world_canonical|].
  split; [reflexivity|].
  destruct (due_events_unnotified_future_ascending basic_fromisoformat_isoformat
              example_env (db launch_world) launch_world_canonical eq_refl)
    as (due & Hdue & _ & Hasc & _).
  exists due. split; assumption.
Defined.

(** C6 on the search text "alice". *)
Lemma search_contact_matches_example :
  no_wildcards (utf8 "alice") = true /\
  (In {| ct_name := utf8 "Alice"; ct_info := utf8 "QA" |}
      (select_contacts_like ([37] ++ utf8 "alice" ++ [37])
         (insert_contact (utf8 "Alice") (utf8 "QA") init_db)) <->
   In {| ct_name := utf8 "Alice"; ct_info := utf8 "QA" |}
      (contacts (insert_contact (utf8 "Alice") (utf8 "QA") init_db)) /\
   contains (map ascii_fold (utf8 "Alice")) (map ascii_fold (utf8 "alice")) = true).
Proof.
  split; [reflexivity|].
  apply (search_contact_matches_ascii_caseless example_env (utf8 "alice")
           (insert_contact (utf8 "Alice") (utf8 "QA") init_db)
           {| ct_name := utf8 "Alice"; ct_info := utf8 "QA" |} eq_refl).
Defined.

(** C6, as the claim states it: the search text "alice" finds the
    contact "Alice", whose name does not contain "alice". *)
Lemma search_contact_ignores_ascii_case :
  search_contact example_env (utf8 "alice")
    (insert_contact (utf8 "Alice") (utf8 "QA") init_db) =
    (Ok (Some {| c_name := utf8 "Alice"; c_info := utf8 "QA" |}),
     insert_contact (utf8 "Alice") (utf8 "QA") init_db) /\
  contains (utf8 "Alice") (utf8 "alice") = false.
Proof. split; vm_compute; reflexivity. Qed.

(** C9 on a store where "ann" matches two contacts. *)
Lemma search_contact_first_match_example :
  sqlite_ok example_env = true /\
  search_contact example_env (utf8 "ann") two_anns =
    (Ok (Some {| c_name := utf8 "Ann"; c_info := utf8 "QA" |}), two_anns) /\
  search_contact example_env (utf8 "Zed") two_anns = (Ok None, two_anns).
Proof.
  split; [reflexivity|]. split.
  - apply (proj1 (search_contact_first_match example_env (utf8 "ann") two_anns eq_refl)
             [{| ct_name := utf8 "Bob"; ct_info := utf8 "Dev" |}]
             {| ct_name := utf8 "Ann"; ct_info := utf8 "QA" |}
             [{| ct_name := utf8 "Joanna"; ct_info := utf8 "HR" |}]).
    + reflexivity.
    + intros r [<-|[]]. reflexivity.
    + reflexivity.
  - apply (proj2 (search_contact_first_match example_env (utf8 "Zed") two_anns eq_refl)).
    intros r [<-|[<-|[<-|[]]]]; reflexivity.
Defined.

(** ** The invariant of the store

    The dialogs and the daily job keep the event dates canonical, so the
    stores they reach are those theorem C2 speaks of. *)

Section Invariant.
Context {py : PyRuntime}.

Lemma add_event_canonical (env : Env) (name : str) (date : datetime) (description : str)
    (d : Database) :
  valid_datetime date = true -> stored_dates_canonical d ->
  stored_dates_canonical (snd (add_event env name date description d)).
Proof.
  intros Hv Hd. destruct (sqlite_ok env) eqn:H.
  - rewrite add_event_ok by assumption. unfold stored_dates_canonical in *.
    cbn [snd insert_event events]. apply Forall_app. split; [assumption|].
    repeat constructor. now exists date.
  - now rewrite add_event_fails.
Qed.

Lemma canonical_same_events (d d' : Database) :
  events d' = events d -> stored_dates_canonical d -> stored_dates_canonical d'.
Proof. unfold stored_dates_canonical. now intros ->. Qed.

Lemma world_invariant_same (w w' : World) :
  events (db w') = events (db w) ->
  event_date (user_data w') = event_date (user_data w) \/
  event_date (user_data w') = None ->
  world_invariant w -> world_invariant w'.
Proof.
  intros He Hu [Hd Hdate]. split.
  - now apply (canonical_same_events (db w)).
  - intros date H. destruct Hu as [Hu|Hu]; rewrite Hu in H; [auto | discriminate].
Qed.

Ltac same_world :=
  try match goal with Hw : world_invariant _ |- _ => revert Hw end;
  apply world_invariant_same; cbn; auto.

Lemma question_received_invariant (env : Env) (text : str) (w : World) :
  world_invariant w -> world_invariant (snd (question_received env text w)).
Proof.
  run_handler. pose proof (get_company_info_reads env text (db w)) as H.
  destruct (get_company_info env text (db w)) as [[answer|e] d']; cbn in H; subst d';
    [destruct (truthy_opt answer)|]; same_world.
Qed.

Lemma answer_received_invariant (env : Env) (text : str) (w : World) :
  world_invariant w -> world_invariant (snd (answer_received env text w)).
Proof.
  run_handler.
  destruct (contains (lower text) VOPROS && contains (lower text) OTVET);
    [|same_world].
  destruct (List.length (re_split OTVET_COLON text) =? 2)%nat; [|same_world].
  destruct (truthy _ && truthy _); [|same_world].
  match goal with
  | |- context [add_company_info env ?q ?a (db w)] =>
      pose proof (add_company_info_events env q a (db w)) as H;
      destruct (add_company_info env q a (db w)) as [[[|]|e] d']
  end; cbn in H; same_world.
Qed.

Lemma add_contact_info_invariant (env : Env) (text : str) (w : World) :
  world_invariant w -> world_invariant (snd (add_contact_info env text w)).
Proof.
  run_handler.
  destruct (truthy_opt (contact_name (user_data w))); [|same_world].
  match goal with
  | |- context [add_contact env ?n ?i (db w)] =>
      pose proof (add_contact_events env n i (db w)) as H;
      destruct (add_contact env n i (db w)) as [[[|]|e] d']
  end; cbn in H; same_world.
Qed.

Lemma add_event_date_invariant (env : Env) (text : str) (w : World) :
  world_invariant w -> world_invariant (snd (add_event_date env text w)).
Proof.
  intros [Hd Hdate]. destruct (strptime text) as [date|e] eqn:E.
  - rewrite (add_event_date_parsed env text w date E). split; cbn; auto.
    intros date' [= <-]. now apply (strptime_valid text).
  - rewrite (add_event_date_rejected env text w e E). split; cbn; auto.
Qed.

Lemma add_event_description_invariant (env : Env) (text : str) (w : World) :
  world_invariant w -> world_invariant (snd (add_event_description env text w)).
Proof.
  intros Hw. pose proof Hw as [Hd Hdate]. revert Hw. run_handler.
  destruct (truthy_opt (event_name (user_data w))); [|same_world].
  destruct (event_date (user_data w)) as [date|] eqn:Edate; [|same_world].
  match goal with
  | |- context [add_event env ?n date ?desc (db w)] =>
      pose proof (add_event_canonical env n date desc (db w) (Hdate date eq_refl) Hd) as H;
      destruct (add_event env n date desc (db w)) as [[[|]|e] d']
  end; cbn in H; intros _; split; cbn; auto; try discriminate;
    intros date0 E0; apply Hdate; congruence.
Qed.

Lemma add_digest_received_invariant (env : Env) (text : str) (w : World) :
  world_invariant w -> world_invariant (snd (add_digest_received env text w)).
Proof.
  run_handler.
  pose proof (add_digest_events env text (db w)) as H.
  destruct (add_digest env text (db w)) as [[[|]|e] d']; cbn in H; same_world.
Qed.

Lemma prompts_keep_invariant :
  keeps_invariant question_start /\ keeps_invariant answer_start /\
  keeps_invariant cancel /\ keeps_invariant add_contact_start /\
  keeps_invariant add_contact_name /\ keeps_invariant add_event_start /\
  keeps_invariant add_event_name /\ keeps_invariant add_digest_start.
Proof.
  repeat match goal with |- _ /\ _ => split end;
    intros env text w Hw; run_handler; same_world.
Qed.

Lemma registered_handlers_keep_invariant (env : Env) (conv : ConversationHandler)
    (state : option Z) (u : Update) (handler : Handler) :
  In conv conversations -> check_update env conv state u = Some handler ->
  keeps_invariant handler.
Proof.
  destruct prompts_keep_invariant
    as (Hqs & Has & Hcancel & Hcs & Hcn & Hes & Hen & Hds).
  apply (registered_handlers keeps_invariant); try assumption;
    intros env' text w Hw.
  - now apply question_received_invariant.
  - now apply answer_received_invariant.
  - now apply add_contact_info_invariant.
  - now apply add_event_date_invariant.
  - now apply add_event_description_invariant.
  - now apply add_digest_received_invariant.
Qed.

Lemma handle_update_invariant (conv : ConversationHandler) (env : Env)
    (state : option Z) (u : Update) (w : World) :
  In conv conversations -> world_invariant w ->
  world_invariant (snd (handle_update conv env state u w)).
Proof.
  intros Hconv Hw. unfold handle_update.
  destruct (check_update env conv state u) as [handler|] eqn:E; [|exact Hw].
  pose proof (registered_handlers_keep_invariant env conv state u handler Hconv E
                env (message_text u) w Hw) as H.
  unfold bind, ret.
  destruct (handler env (message_text u) w) as [[next|e] w']; exact H.
Qed.

(** Every run of a conversation keeps the invariant, and so does the
    daily job. *)
Lemma run_invariant (conv : ConversationHandler) (updates : list (Env * Update))
    (state : option Z) (w : World) :
  In conv conversations -> world_invariant w ->
  world_invariant (snd (run conv state updates w)).
Proof.
  intros Hconv. revert state w.
  induction updates as [|[env u] updates IH]; intros state w Hw; [exact Hw|].
  cbn [run]. unfold bind.
  pose proof (handle_update_invariant conv env state u w Hconv Hw) as H.
  destruct (handle_update conv env state u w) as [[state'|e] w']; cbn in H.
  - now apply IH.
  - exact H.
Qed.

Lemma send_daily_digest_invariant (env : Env) (w : World) :
  world_invariant w -> world_invariant (snd (send_daily_digest env w)).
Proof.
  destruct (send_daily_digest_keeps_db env w) as [Hd Hu].
  apply world_invariant_same; [now rewrite Hd | left; now rewrite Hu].
Qed.

Lemma fresh_world_invariant : world_invariant fresh_world.
Proof. split; [constructor | discriminate]. Qed.

End Invariant.

(** ** Leftover user_data

    What a cancelled dialog or a failed write leaves in [user_data] is
    written again before a later dialog reads it. *)

Section StaleUserData.
Context {py : PyRuntime}.

Ltac agree_start :=
  intros env text [d1 u1 r1 l1] [d2 u2 r2 l2] [(Hd & Hr & Hl) Hlive];
  cbn [db user_data replies logged] in *; subst d2 r2 l2.

Ltac agree_done :=
  eexists; split; [reflexivity|]; split; [reflexivity|];
  split; [repeat split|]; cbn; auto;
  repeat split; intros; try discriminate; auto.

Lemma get_company_info_fails (env : Env) (q : str) (d : Database) :
  sqlite_ok env = false -> get_company_info env q d = (Ok None, d).
Proof. intros H. run_method. now rewrite H. Qed.

Lemma add_digest_ok (env : Env) (content : str) (d : Database) :
  sqlite_ok env = true ->
  add_digest env content d =
  (Ok true, insert_digest content (CURRENT_TIMESTAMP env) d).
Proof. intros H. run_method. now rewrite H. Qed.

Lemma add_digest_fails (env : Env) (content : str) (d : Database) :
  sqlite_ok env = false -> add_digest env content d = (Ok false, d).
Proof. intros H. run_method. now rewrite H. Qed.

Ltac backend :=
  cbv beta;
  repeat first
    [ rewrite get_company_info_ok by assumption
    | rewrite get_company_info_fails by assumption
    | rewrite add_company_info_ok by assumption
    | rewrite add_company_info_fails by assumption
    | rewrite add_contact_ok by assumption
    | rewrite add_contact_fails by assumption
    | rewrite add_event_ok by assumption
    | rewrite add_event_fails by assumption
    | rewrite add_digest_ok by assumption
    | rewrite add_digest_fails by assumption ];
  cbn [fst snd db user_data replies logged].

Ltac by_backend env :=
  destruct (sqlite_ok env) eqn:Hok; run_handler; backend.

Lemma prompts_step_alike (state : option Z) :
  steps_alike state question_start /\ steps_alike state answer_start /\
  steps_alike state cancel /\ steps_alike state add_contact_start /\
  steps_alike state add_event_start /\ steps_alike state add_digest_start.
Proof.
  repeat match goal with |- _ /\ _ => split end; agree_start; agree_done.
Qed.

Lemma question_received_alike (state : option Z) : steps_alike state question_received.
Proof.
  agree_start; by_backend env;
    try destruct (truthy_opt _); agree_done.
Qed.

Lemma answer_received_alike (state : option Z) : steps_alike state answer_received.
Proof.
  agree_start; destruct (sqlite_ok env) eqn:Hok; run_handler;
    (destruct (contains (lower text) VOPROS && contains (lower text) OTVET);
     [|agree_done]);
    (destruct (List.length (re_split OTVET_COLON text) =? 2)%nat; [|agree_done]);
    (destruct (truthy _ && truthy _); [|agree_done]);
    backend; agree_done.
Qed.

Lemma add_digest_received_alike (state : option Z) :
  steps_alike state add_digest_received.
Proof. agree_start; by_backend env; agree_done. Qed.

Lemma add_contact_name_alike (state : option Z) : steps_alike state add_contact_name.
Proof. agree_start; agree_done. Qed.

Lemma add_event_name_alike (state : option Z) : steps_alike state add_event_name.
Proof. agree_start; agree_done. Qed.

Lemma add_contact_info_alike :
  steps_alike (Some ADDING_CONTACT_INFO) add_contact_info.
Proof.
  agree_start. destruct Hlive as (Hname & _ & _). specialize (Hname eq_refl).
  destruct u1 as [c1 n1 e1], u2 as [c2 n2 e2]. cbn in Hname. subst c2.
  destruct (sqlite_ok env) eqn:Hok; run_handler;
    cbn [contact_name event_name event_date];
    destruct (truthy_opt c1); backend; agree_done.
Qed.

Lemma add_event_date_alike :
  steps_alike (Some ADDING_EVENT_DATE) add_event_date.
Proof.
  agree_start. destruct Hlive as (_ & Hname & _). specialize (Hname eq_refl).
  destruct u1 as [c1 n1 e1], u2 as [c2 n2 e2]. cbn in Hname. subst n2.
  destruct (strptime text) as [date|e] eqn:E.
  - rewrite !(add_event_date_parsed env text _ date E). agree_done.
  - rewrite !(add_event_date_rejected env text _ e E). agree_done.
Qed.

Lemma add_event_description_alike :
  steps_alike (Some ADDING_EVENT_DESCRIPTION) add_event_description.
Proof.
  agree_start. destruct Hlive as (_ & _ & Hboth).
  destruct (Hboth eq_refl) as [Hname Hdate].
  destruct u1 as [c1 n1 e1], u2 as [c2 n2 e2]. cbn in Hname, Hdate. subst n2 e2.
  destruct (sqlite_ok env) eqn:Hok; run_handler;
    cbn [contact_name event_name event_date];
    destruct (truthy_opt n1); destruct e1; backend; agree_done.
Qed.

Lemma handle_update_alike (conv : ConversationHandler) (env : Env)
    (state : option Z) (u : Update) (w1 w2 : World) :
  In conv conversations -> agree state w1 w2 ->
  exists state',
    fst (handle_update conv env state u w1) = Ok state' /\
    fst (handle_update conv env state u w2) = Ok state' /\
    agree state' (snd (handle_update conv env state u w1))
                 (snd (handle_update conv env state u w2)).
Proof.
  intros Hconv Hagree.
  assert (Hstep : forall handler,
             check_update env conv state u = Some handler -> steps_alike state handler).
  { destruct (prompts_step_alike state) as (Hqs & Has & Hcancel & Hcs & Hes & Hds).
    intros handler Hcheck.
    unfold conversations in Hconv. cbn [In] in Hconv.
    destruct Hconv as [<-|[<-|[<-|[<-|[<-|[]]]]]];
      unfold check_update in Hcheck;
      destruct state as [s|], u as [c|t];
      cbn [entry_points states fallbacks question_conv answer_conv contact_conv
           event_conv digest_conv command_handler state_handler] in Hcheck;
      try discriminate;
      repeat match type of Hcheck with
             | (if ?x =? ?y then _ else _) = _ => destruct (Z.eqb_spec x y)
             | (if ?b then _ else _) = _ => destruct b
             | None = Some _ => discriminate
             end;
      injection Hcheck as <-; subst;
      lazymatch goal with
      | |- steps_alike _ question_start => exact Hqs
      | |- steps_alike _ answer_start => exact Has
      | |- steps_alike _ cancel => exact Hcancel
      | |- steps_alike _ add_contact_start => exact Hcs
      | |- steps_alike _ add_event_start => exact Hes
      | |- steps_alike _ add_digest_start => exact Hds
      | |- steps_alike _ question_received => apply question_received_alike
      | |- steps_alike _ answer_received => apply answer_received_alike
      | |- steps_alike _ add_digest_received => apply add_digest_received_alike
      | |- steps_alike _ add_contact_name => apply add_contact_name_alike
      | |- steps_alike _ add_event_name => apply add_event_name_alike
      | |- steps_alike _ add_contact_info => apply add_contact_info_alike
      | |- steps_alike _ add_event_date => apply add_event_date_alike
      | |- steps_alike _ add_event_description => apply add_event_description_alike
      end. }
  unfold handle_update.
  destruct (check_update env conv state u) as [handler|] eqn:E.
  - destruct (Hstep handler eq_refl env (message_text u) w1 w2 Hagree)
      as (next & H1 & H2 & H3).
    unfold bind, ret.
    destruct (handler env (message_text u) w1) as [r1 w1'],
             (handler env (message_text u) w2) as [r2 w2'].
    cbn in H1, H2, H3. subst r1 r2. cbn. eauto.
  - exists state. cbn. auto.
Qed.

Lemma run_alike (conv : ConversationHandler) (updates : list (Env * Update))
    (state : option Z) (w1 w2 : World) :
  In conv conversations -> agree state w1 w2 ->
  fst (run conv state updates w1) = fst (run conv state updates w2) /\
  same_but_user_data (snd (run conv state updates w1)) (snd (run conv state updates w2)).
Proof.
  intros Hconv. revert state w1 w2.
  induction updates as [|[env u] updates IH]; intros state w1 w2 Hagree.
  - cbn. split; [reflexivity | apply Hagree].
  - cbn [run]. unfold bind.
    destruct (handle_update_alike conv env state u w1 w2 Hconv Hagree)
      as (state' & H1 & H2 & H3).
    destruct (handle_update conv env state u w1) as [r1 w1'],
             (handle_update conv env state u w2) as [r2 w2'].
    cbn in H1, H2, H3. subst r1 r2. now apply IH.
Qed.

End StaleUserData.

(** ** Further properties of the dialogs and the store *)

(** Starting from a world with canonical event dates, every run of
    every conversation of [main], and the daily job, end in such a
    world; the world before the first update is one. *)
Theorem dialogs_keep_event_dates_canonical :
  world_invariant fresh_world /\
  (forall (py : PyRuntime) (conv : ConversationHandler)
          (updates : list (Env * Update)) (state : option Z) (w : World),
     In conv conversations ->
     world_invariant w -> world_invariant (snd (run conv state updates w))) /\
  (forall (py : PyRuntime) (env : Env) (w : World),
     world_invariant w -> world_invariant (snd (send_daily_digest env w))).
Proof.
  split; [exact fresh_world_invariant|]. split.
  - intros py conv updates state w Hconv Hw. now apply (@run_invariant py).
  - intros py env w. apply (@send_daily_digest_invariant py).
Qed.

(** The scenario of the event dialog: "/add_event", "Launch",
    "01.01.2030 09:00", "-" stores one event named "Launch" with the
    empty description, not the dash, and ends the conversation with
    [user_data] cleared. *)
Theorem add_event_scenario_stores_empty_description :
  run event_conv None
      [(example_env, Command "add_event");
       (example_env, Message (utf8 "Launch"));
       (example_env, Message (utf8 "01.01.2030 09:00"));
       (example_env, Message (utf8 "-"))] fresh_world =
    (Ok None,
     {| db := {| company_info := []; contacts := [];
                 events := [{| ev_name := utf8 "Launch";
                               ev_event_date := SqlText (utf8 "2030-01-01T09:00:00");
                               ev_description := Some [];
                               ev_notified := 0 |}];
                 digests := [] |};
        user_data := user_data_empty;
        replies := [MSG_EVENT_NAME_PROMPT; MSG_EVENT_DATE_PROMPT;
                    MSG_EVENT_DESCRIPTION_PROMPT; MSG_EVENT_ADDED (utf8 "Launch")];
        logged := [] |}).
Proof. vm_compute; reflexivity. Qed.

(** A question no row of which is stored is answered with [None], and
    the lookup changes nothing. *)
Theorem lookup_of_unknown_question (py : PyRuntime) (env : Env) (question : str)
    (d : Database) :
  Forall (fun row => ci_question row <> lower question) (company_info d) ->
  get_company_info env question d = (Ok None, d).
Proof.
  intros Hnone. destruct (sqlite_ok env) eqn:Hok.
  - rewrite get_company_info_ok by assumption. unfold select_answer.
    rewrite filter_none; [reflexivity|].
    rewrite Forall_forall in Hnone. intros row Hrow.
    destruct (str_eqb (ci_question row) (lower question)) eqn:E; [|reflexivity].
    apply str_eqb_eq in E. now destruct (Hnone row Hrow).
  - run_method. now rewrite Hok.
Qed.

Lemma lookup_of_unknown_question_example :
  Forall (fun row => ci_question row <> lower (utf8 "What is X?"))
         (company_info
            (insert_or_replace_company_info (utf8 "who is y?") (utf8 "Y.") init_db)) /\
  get_company_info example_env (utf8 "What is X?")
    (insert_or_replace_company_info (utf8 "who is y?") (utf8 "Y.") init_db) =
  (Ok None, insert_or_replace_company_info (utf8 "who is y?") (utf8 "Y.") init_db).
Proof.
  assert (H : Forall (fun row => ci_question row <> lower (utf8 "What is X?"))
                (company_info
                   (insert_or_replace_company_info (utf8 "who is y?") (utf8 "Y.")
                      init_db))).
  { repeat constructor. cbn. discriminate. }
  split; [exact H|].
  exact (lookup_of_unknown_question basic_runtime example_env (utf8 "What is X?") _ H).
Defined.

(** Whatever [user_data] holds when a conversation starts, be it left
    over from a cancelled dialog or a failed write, the conversation
    runs the same: same states, same store, same replies. *)
Theorem leftover_user_data_is_not_read :
  forall (py : PyRuntime) (conv : ConversationHandler)
         (updates : list (Env * Update)) (w : World) (leftover : UserData),
    In conv conversations ->
    fst (run conv None updates (with_user_data w leftover)) =
      fst (run conv None updates w) /\
    same_but_user_data (snd (run conv None updates (with_user_data w leftover)))
                       (snd (run conv None updates w)).
Proof.
  intros py conv updates w leftover Hconv.
  apply (@run_alike py); [assumption|].
  split; [repeat split | exact I].
Qed.

Lemma leftover_user_data_example :
  In contact_conv conversations /\
  fst (run contact_conv None
         [(example_env, Command "add_contact");
          (example_env, Message (utf8 "Ann"));
          (example_env, Message (utf8 "QA"))]
         (with_user_data fresh_world
            {| contact_name := Some (utf8 "Bob"); event_name := None;
               event_date := None |})) =
  fst (run contact_conv None
         [(example_env, Command "add_contact");
          (example_env, Message (utf8 "Ann"));
          (example_env, Message (utf8 "QA"))] fresh_world).
Proof.
  assert (H : In contact_conv conversations) by (right; right; left; reflexivity).
  split; [exact H|].
  exact (proj1 (leftover_user_data_is_not_read basic_runtime contact_conv _
                  fresh_world _ H)).
Defined.

(** ** More on the store *)

Section StoreMore.
Context {py : PyRuntime}.

Lemma select_answer_other (q q2 a : str) (d : Database) :
  q2 <> q ->
  select_answer q2 (insert_or_replace_company_info q a d) = select_answer q2 d.
Proof.
  intros Hne. unfold select_answer.
  cbn [insert_or_replace_company_info company_info].
  rewrite filter_app, map_app. cbn [filter ci_question].
  replace (str_eqb q q2) with false
    by (symmetry; destruct (str_eqb q q2) eqn:E; auto;
        apply str_eqb_eq in E; congruence).
  cbn. rewrite app_nil_r. f_equal.
  induction (company_info d) as [|row rows IH]; cbn; auto.
  destruct (str_eqb (ci_question row) q) eqn:E1; cbn.
  - apply str_eqb_eq in E1.
    replace (str_eqb (ci_question row) q2) with false; auto.
    symmetry. destruct (str_eqb (ci_question row) q2) eqn:E2; auto.
    apply str_eqb_eq in E2. congruence.
  - destruct (str_eqb (ci_question row) q2); cbn; now rewrite IH.
Qed.

(** An upsert leaves the answer to every other question as it was. *)
Theorem upsert_keeps_other_answers (env env' : Env) (Q A Q2 : str) (d : Database) :
  lower Q2 <> lower Q ->
  fst (get_company_info env' Q2 (snd (add_company_info env Q A d))) =
  fst (get_company_info env' Q2 d).
Proof.
  intros Hne. destruct (sqlite_ok env) eqn:Hok.
  - rewrite add_company_info_ok by assumption. cbn [snd].
    destruct (sqlite_ok env') eqn:Hok'.
    + rewrite !get_company_info_ok by assumption. cbn [fst].
      now rewrite select_answer_other.
    + run_method. now rewrite Hok'.
  - now rewrite add_company_info_fails.
Qed.

End StoreMore.

(** *** get_contacts *)

Lemma insert_by_Permutation {A} (leb : A -> A -> bool) (x : A) (l : list A) :
  Permutation (insert_by leb x l) (x :: l).
Proof.
  induction l as [|y l IH]; cbn; [reflexivity|].
  destruct (leb x y); [reflexivity|].
  rewrite IH. apply perm_swap.
Qed.

Lemma order_by_Permutation {A} (leb : A -> A -> bool) (l : list A) :
  Permutation (order_by leb l) l.
Proof.
  induction l as [|x l IH]; cbn; [reflexivity|].
  rewrite insert_by_Permutation. now constructor.
Qed.

Lemma str_leb_total (a b : str) : str_leb a b = false -> str_leb b a = true.
Proof.
  unfold str_leb. rewrite (str_compare_antisym a b).
  destruct (str_compare a b); simpl; congruence.
Qed.

Lemma Sorted_map {A B} (f : A -> B) (R : B -> B -> Prop) (l : list A) :
  Sorted (fun a b => R (f a) (f b)) l -> Sorted R (map f l).
Proof.
  induction 1 as [|x l Hs IH Hhd]; cbn; constructor; auto.
  destruct Hhd; cbn; constructor; auto.
Qed.

(** [get_contacts] returns every stored contact once, in ascending
    order of name (code point by code point), and changes nothing. *)
Theorem get_contacts_sorted_by_name (env : Env) (d : Database) :
  sqlite_ok env = true ->
  exists listed,
    get_contacts env d = (Ok listed, d) /\
    Sorted (fun a b => str_leb (c_name a) (c_name b) = true) listed /\
    Permutation listed
      (map (fun row => {| c_name := ct_name row; c_info := ct_info row |}) (contacts d)).
Proof.
  intros Hok. eexists. split; [run_method; rewrite Hok; reflexivity|]. split.
  - apply (Sorted_map (fun row => {| c_name := ct_name row; c_info := ct_info row |})
             (fun a b => str_leb (c_name a) (c_name b) = true)).
    cbn [c_name]. unfold select_contacts_ordered.
    apply (order_by_Sorted (fun a b => str_leb (ct_name a) (ct_name b))).
    intros x y. apply str_leb_total.
  - apply Permutation_map. apply order_by_Permutation.
Qed.

(** *** search_contact after add_contact *)

Lemma like_same_then_percent (s : str) : like (s ++ [37]) s = true.
Proof.
  induction s as [|c s IH]; [reflexivity|].
  cbn [app]. destruct ((c =? 37) || (c =? 95)) eqn:E.
  - apply orb_true_iff in E as [E|E]; apply Z.eqb_eq in E; subst c.
    + rewrite like_percent_unfold. apply orb_true_iff. right.
      rewrite like_percent_unfold, IH. reflexivity.
    + cbn [like Z.eqb Pos.eqb]. exact IH.
  - rewrite like_literal_cons by assumption.
    unfold like_char. now rewrite Z.eqb_refl, IH.
Qed.

(** A name matches the pattern built from itself, wildcards or not. *)
Lemma like_own_pattern (s : str) : like ([37] ++ s ++ [37]) s = true.
Proof.
  cbn [app]. rewrite like_percent_unfold, like_same_then_percent. reflexivity.
Qed.

Lemma hd_filter_app_last {A} (f : A -> bool) (l : list A) (x : A) :
  f x = true ->
  exists y, hd_error (filter f (l ++ [x])) = Some y /\ f y = true /\
            ((forall z, In z l -> f z = false) -> y = x).
Proof.
  intros Hx. induction l as [|z l IH]; cbn.
  - rewrite Hx. exists x. auto.
  - destruct (f z) eqn:Ez.
    + exists z. repeat split; auto. intros H. specialize (H z (or_introl eq_refl)).
      congruence.
    + destruct IH as (y & Hy & Hfy & Hfirst). exists y. repeat split; auto.
Qed.

(** After [add_contact], a search for the very name that was added
    finds a contact whose name matches it; it is the added contact
    unless an older contact matches the name too. *)
Theorem added_contact_is_found (env env' : Env) (name info : str) (d : Database) :
  sqlite_ok env = true -> sqlite_ok env' = true ->
  exists d' found,
    add_contact env name info d = (Ok true, d') /\
    search_contact env' name d' = (Ok (Some found), d') /\
    like ([37] ++ name ++ [37]) (c_name found) = true /\
    ((forall row, In row (contacts d) -> like ([37] ++ name ++ [37]) (ct_name row) = false) ->
     found = {| c_name := name; c_info := info |}).
Proof.
  intros Hok Hok'.
  exists (insert_contact name info d).
  destruct (hd_filter_app_last
              (fun row => like ([37] ++ name ++ [37]) (ct_name row))
              (contacts d) {| ct_name := name; ct_info := info |}
              (like_own_pattern name)) as (row & Hhd & Hrow & Hfirst).
  exists {| c_name := ct_name row; c_info := ct_info row |}.
  split; [now apply add_contact_ok|]. split; [|split].
  - rewrite search_contact_ok by assumption.
    unfold select_contacts_like. cbn [insert_contact contacts].
    now rewrite Hhd.
  - exact Hrow.
  - intros Hnone. now rewrite (Hfirst Hnone).
Qed.

(** *** Digests *)

Lemma order_by_newest_first (x : digests_row) (l : list digests_row) :
  (forall y, In y l -> dg_created_at y < dg_created_at x) ->
  order_by (fun a b => dg_created_at b <=? dg_created_at a) (l ++ [x]) =
  x :: order_by (fun a b => dg_created_at b <=? dg_created_at a) l.
Proof.
  intros Hnew. induction l as [|y l IH]; [reflexivity|].
  cbn [app order_by fold_right].
  change (fold_right (insert_by (fun a b => dg_created_at b <=? dg_created_at a)) []
            (l ++ [x]))
    with (order_by (fun a b => dg_created_at b <=? dg_created_at a) (l ++ [x])).
  rewrite IH by (intros z Hz; apply Hnew; now right).
  cbn [insert_by].
  replace (dg_created_at x <=? dg_created_at y) with false; [reflexivity|].
  symmetry. apply Z.leb_gt. apply Hnew. now left.
Qed.

Lemma bind_integer_ok (n : Z) : - 2 ^ 63 <= n < 2 ^ 63 -> bind_integer n = Ok n.
Proof.
  intros H. unfold bind_integer.
  replace (- 2 ^ 63 <=? n) with true by (symmetry; apply Z.leb_le; lia).
  replace (n <? 2 ^ 63) with true by (symmetry; apply Z.ltb_lt; lia).
  reflexivity.
Qed.

Lemma get_recent_digests_ok (env : Env) (limit : Z) (d : Database) :
  sqlite_ok env = true -> - 2 ^ 63 <= limit < 2 ^ 63 ->
  get_recent_digests env limit d = (Ok (select_recent_digests limit d), d).
Proof.
  intros H Hlimit. run_method. rewrite H. cbn [fst snd].
  now rewrite (bind_integer_ok limit Hlimit).
Qed.

(** A limit that does not fit SQLite's INTEGER is not an error of the
    database: the exception leaves [get_recent_digests]. *)
Lemma get_recent_digests_overflow (env : Env) (limit : Z) (d : Database) :
  sqlite_ok env = true -> 2 ^ 63 <= limit ->
  get_recent_digests env limit d = (Raise OverflowError, d).
Proof.
  intros H Hlimit. run_method. rewrite H. cbn [fst snd]. unfold bind_integer.
  replace (limit <? 2 ^ 63) with false by (symmetry; apply Z.ltb_ge; lia).
  now rewrite andb_false_r.
Qed.

(** A digest added at a later second than every stored one is the most
    recent digest. *)
Theorem added_digest_is_most_recent (env env' : Env) (content : str) (d : Database) :
  sqlite_ok env = true -> sqlite_ok env' = true ->
  (forall row, In row (digests d) -> dg_created_at row < CURRENT_TIMESTAMP env) ->
  exists d',
    add_digest env content d = (Ok true, d') /\
    get_recent_digests env' 1 d' = (Ok [content], d').
Proof.
  intros Hok Hok' Hnew. exists (insert_digest content (CURRENT_TIMESTAMP env) d).
  split; [now apply add_digest_ok|].
  rewrite get_recent_digests_ok by (assumption || lia).
  unfold select_recent_digests. cbn [insert_digest digests].
  rewrite order_by_newest_first by exact Hnew. reflexivity.
Qed.

Lemma Z_leb_ge_total (x y : digests_row) :
  (dg_created_at y <=? dg_created_at x) = false ->
  (dg_created_at x <=? dg_created_at y) = true.
Proof. intros H. apply Z.leb_gt in H. apply Z.leb_le. lia. Qed.

(** For a limit from 0 up to the largest INTEGER of SQLite,
    [2 ^ 63 - 1], [get_recent_digests] returns no more digests than the
    limit, all of them stored, newest first, and none of those it
    leaves out is newer than one it returns.  (A larger limit does not
    reach the statement: binding it raises OverflowError, which the
    method does not catch.) *)
Theorem recent_digests_are_the_newest (env : Env) (limit : Z) (d : Database) :
  sqlite_ok env = true -> 0 <= limit < 2 ^ 63 ->
  exists rows rest,
    get_recent_digests env limit d = (Ok (map dg_content rows), d) /\
    Permutation (rows ++ rest) (digests d) /\
    List.length rows = Nat.min (Z.to_nat limit) (List.length (digests d)) /\
    Sorted (fun a b => dg_created_at b <= dg_created_at a) rows /\
    (forall a b, In a rows -> In b rest -> dg_created_at b <= dg_created_at a).
Proof.
  intros Hok Hlimit.
  set (leb := fun a b : digests_row => dg_created_at b <=? dg_created_at a).
  set (sorted := order_by leb (digests d)).
  exists (firstn (Z.to_nat limit) sorted), (skipn (Z.to_nat limit) sorted).
  assert (Hs : StronglySorted (fun a b => dg_created_at b <= dg_created_at a) sorted).
  { apply Sorted_StronglySorted; [intros x y z; lia|].
    pose proof (order_by_Sorted leb Z_leb_ge_total (digests d)) as H.
    fold sorted in H. clearbody sorted. clear -H.
    induction H as [|x l Hs IH Hhd]; constructor; auto.
    destruct Hhd as [|y l' Hxy]; constructor. now apply Z.leb_le. }
  split; [|split; [|split; [|split]]].
  - rewrite get_recent_digests_ok by (assumption || lia).
    unfold select_recent_digests, limit_rows.
    replace (limit <? 0) with false by (symmetry; apply Z.ltb_ge; lia).
    reflexivity.
  - rewrite firstn_skipn. apply order_by_Permutation.
  - rewrite length_firstn. f_equal. unfold sorted.
    apply Permutation_length, order_by_Permutation.
  - apply StronglySorted_Sorted.
    clearbody sorted. clear -Hs. revert sorted Hs.
    induction (Z.to_nat limit) as [|n IH]; intros sorted Hs; [constructor|].
    destruct Hs as [|x l Hl Hall]; cbn; constructor; auto.
    rewrite Forall_forall in *. intros y Hy. apply Hall.
    rewrite <- (firstn_skipn n l). apply in_or_app. now left.
  - clearbody sorted. clear -Hs. revert sorted Hs.
    induction (Z.to_nat limit) as [|n IH]; intros sorted Hs a b Ha Hb;
      [destruct Ha|].
    destruct Hs as [|x l Hl Hall]; [destruct Ha|].
    cbn in Ha, Hb. destruct Ha as [<-|Ha].
    + rewrite Forall_forall in Hall. apply Hall.
      rewrite <- (firstn_skipn n l). apply in_or_app. now right.
    + now apply (IH l).
Qed.

(** *** Events: add, query, mark *)

Section EventsMore.
Context {py : PyRuntime}.
Hypothesis fromisoformat_isoformat : fromisoformat_inverts_isoformat py.

Lemma select_upcoming_In_iff (now_str : str) (end_str : option str) (d : Database)
    (row : events_row) :
  In row (select_upcoming now_str end_str d) <->
  In row (events d) /\
  sql_geb (ev_event_date row) (SqlText now_str) = true /\
  match end_str with
  | Some e => sql_leb (ev_event_date row) (SqlText e) = true
  | None => True
  end /\
  ev_notified row = 0.
Proof.
  unfold select_upcoming. rewrite order_by_In, filter_In.
  rewrite !andb_true_iff, Z.eqb_eq. destruct end_str; intuition.
Qed.

(** An event added for a time that is not past is among the due
    events, with the name, date and description it was added with. *)
Theorem added_event_is_due (env env' : Env) (name : str) (date : datetime)
    (description : str) (d : Database) :
  sqlite_ok env = true -> sqlite_ok env' = true ->
  valid_datetime date = true -> valid_datetime (now env') = true ->
  datetime_leb (now env') date = true ->
  exists d' due,
    add_event env name date description d = (Ok true, d') /\
    get_upcoming_events env' None d' = (Ok due, d') /\
    In {| e_name := name; e_event_date := date; e_description := description |} due.
Proof.
  intros Hok Hok' Hdate Hnow Hle.
  exists (insert_event name (isoformat date) description d). eexists.
  split; [now apply add_event_ok|].
  split; [now apply get_upcoming_events_unbounded|].
  apply events_that_parse_In.
  exists {| ev_name := name; ev_event_date := SqlText (isoformat date);
            ev_description := Some description; ev_notified := 0 |}.
  split; [|split].
  - apply select_upcoming_In_iff. cbn [insert_event events ev_event_date ev_notified].
    split; [apply in_or_app; right; now left|].
    split; [|split; auto].
    unfold sql_geb. now rewrite sql_leb_isoformat.
  - cbn [ev_event_date e_event_date]. now apply row_fromisoformat_canonical.
  - reflexivity.
Qed.

(** With a window of [n] days the query returns events that are not
    notified and lie between the current time and the end of the
    window, both included, in ascending order of date. *)
Theorem due_events_within_window (env : Env) (n : Z) (end_date : datetime)
    (d : Database) :
  stored_dates_canonical d ->
  valid_datetime (now env) = true ->
  add_days (now env) n = Ok end_date -> valid_datetime end_date = true ->
  exists due,
    get_upcoming_events env (Some n) d = (Ok due, d) /\
    (forall e, In e due ->
       datetime_leb (now env) (e_event_date e) = true /\
       datetime_leb (e_event_date e) end_date = true /\
       exists row, In row (events d) /\ ev_notified row = 0 /\
         ev_name row = e_name e /\
         ev_event_date row = SqlText (isoformat (e_event_date e))) /\
    ascending due.
Proof.
  intros Hcan Hnow Hend Hvalid.
  unfold stored_dates_canonical in Hcan. rewrite Forall_forall in Hcan.
  destruct (sqlite_ok env) eqn:Hok.
  - exists (events_that_parse
              (select_upcoming (isoformat (now env)) (Some (isoformat end_date)) d)).
    split; [exact (get_upcoming_events_bounded env n end_date d Hok Hend)|]. split.
    + intros e He. apply events_that_parse_In in He as (row & Hrow & Hdate & He).
      apply select_upcoming_In_iff in Hrow as (Hin & Hge & Hle & Hnot).
      destruct (canonical_parse_inv fromisoformat_isoformat _ _ (Hcan row Hin) Hdate)
        as [Hv Hiso].
      rewrite Hiso in Hge, Hle. unfold sql_geb in Hge.
      rewrite sql_leb_isoformat in Hge, Hle by assumption.
      repeat split; auto. exists row. repeat split; auto. now rewrite He.
    + apply (events_that_parse_ascending fromisoformat_isoformat).
      * apply Forall_forall. intros row Hrow.
        apply select_upcoming_In_iff in Hrow as (Hin & _). now apply Hcan.
      * apply select_upcoming_Sorted.
  - exists []. split; [now apply get_upcoming_events_backend_down|].
    split; [intros e []| constructor].
Qed.

End EventsMore.

Lemma update_notified_idempotent (name s : str) (d : Database) :
  update_notified name s (update_notified name s d) = update_notified name s d.
Proof.
  unfold update_notified. cbn [events company_info contacts digests]. f_equal.
  rewrite map_map. apply map_ext. intros row.
  destruct (str_eqb (ev_name row) name && sql_eqb (ev_event_date row) (SqlText s)) eqn:E.
  - cbn [ev_name ev_event_date]. now rewrite E.
  - now rewrite E.
Qed.

Lemma update_notified_no_match (name s : str) (d : Database) :
  (forall row, In row (events d) ->
     ev_name row = name -> ev_event_date row <> SqlText s) ->
  events (update_notified name s d) = events d.
Proof.
  intros Hnone. cbn [update_notified events].
  rewrite <- (map_id (events d)) at 2. apply map_ext_in. intros row Hrow.
  destruct (str_eqb (ev_name row) name && sql_eqb (ev_event_date row) (SqlText s)) eqn:E;
    [|reflexivity].
  apply andb_true_iff in E as [En Ed]. apply str_eqb_eq in En.
  destruct (ev_event_date row) as [x|t|b] eqn:Edate; try discriminate.
  apply sql_eqb_text in Ed. subst t. now destruct (Hnone row Hrow En).
Qed.

(** Marking an event twice leaves the store as marking it once does;
    and marking a (name, date) that no stored event has, for instance
    a date with seconds the stored text lacks, changes no event and
    still returns True. *)
Theorem mark_event_notified_idempotent (env1 env2 : Env) (name : str) (date : datetime)
    (d : Database) :
  sqlite_ok env1 = true -> sqlite_ok env2 = true ->
  exists d',
    mark_event_notified env1 name date d = (Ok true, d') /\
    mark_event_notified env2 name date d' = (Ok true, d') /\
    ((forall row, In row (events d) ->
        ev_name row = name -> ev_event_date row <> SqlText (isoformat date)) ->
     events d' = events d).
Proof.
  intros H1 H2. exists (update_notified name (isoformat date) d).
  split; [now apply mark_event_notified_ok|]. split.
  - rewrite mark_event_notified_ok by assumption.
    now rewrite update_notified_idempotent.
  - apply update_notified_no_match.
Qed.

(** *** The theorems above at concrete inputs *)

Lemma upsert_keeps_other_answers_example :
  lower (utf8 "Who is Y?") <> lower (utf8 "What is X?") /\
  fst (get_company_info example_env (utf8 "Who is Y?")
         (snd (add_company_info example_env (utf8 "What is X?") (utf8 "It is Z.")
                 (insert_or_replace_company_info (utf8 "who is y?") (utf8 "Y.") init_db)))) =
  fst (get_company_info example_env (utf8 "Who is Y?")
         (insert_or_replace_company_info (utf8 "who is y?") (utf8 "Y.") init_db)).
Proof.
  assert (H : lower (utf8 "Who is Y?") <> lower (utf8 "What is X?"))
    by (vm_compute; discriminate).
  split; [exact H|].
  exact (upsert_keeps_other_answers example_env example_env (utf8 "What is X?")
           (utf8 "It is Z.") (utf8 "Who is Y?") _ H).
Defined.

Lemma get_contacts_sorted_by_name_example :
  sqlite_ok example_env = true /\
  exists listed,
    get_contacts example_env two_anns = (Ok listed, two_anns) /\
    Sorted (fun a b => str_leb (c_name a) (c_name b) = true) listed.
Proof.
  split; [reflexivity|].
  destruct (get_contacts_sorted_by_name example_env two_anns eq_refl)
    as (listed & Hget & Hsorted & _).
  exists listed. split; assumption.
Defined.

Lemma added_contact_is_found_example :
  sqlite_ok example_env = true /\ sqlite_ok later_env = true /\
  exists d' found,
    add_contact example_env (utf8 "Ann") (utf8 "QA") init_db = (Ok true, d') /\
    search_contact later_env (utf8 "Ann") d' = (Ok (Some found), d').
Proof.
  split; [reflexivity|]. split; [reflexivity|].
  destruct (added_contact_is_found example_env later_env (utf8 "Ann") (utf8 "QA") init_db
              eq_refl eq_refl) as (d' & found & Hadd & Hfind & _).
  exists d', found. split; assumption.
Defined.

Lemma added_digest_is_most_recent_example :
  sqlite_ok example_env = true /\ sqlite_ok later_env = true /\
  (forall row, In row (digests init_db) -> dg_created_at row < CURRENT_TIMESTAMP example_env) /\
  exists d',
    add_digest example_env (utf8 "Release 1.0 is out") init_db = (Ok true, d') /\
    get_recent_digests later_env 1 d' = (Ok [utf8 "Release 1.0 is out"], d').
Proof.
  assert (H : forall row, In row (digests init_db) ->
                dg_created_at row < CURRENT_TIMESTAMP example_env)
    by (intros row []).
  split; [reflexivity|]. split; [reflexivity|]. split; [exact H|].
  exact (added_digest_is_most_recent example_env later_env (utf8 "Release 1.0 is out")
           init_db eq_refl eq_refl H).
Defined.

Lemma recent_digests_are_the_newest_example :
  sqlite_ok example_env = true /\ 0 <= 5 < 2 ^ 63 /\
  exists rows rest,
    get_recent_digests example_env 5 two_digests = (Ok (map dg_content rows), two_digests) /\
    Permutation (rows ++ rest) (digests two_digests) /\
    List.length rows = Nat.min (Z.to_nat 5) (List.length (digests two_digests)) /\
    Sorted (fun a b => dg_created_at b <= dg_created_at a) rows /\
    (forall a b, In a rows -> In b rest -> dg_created_at b <= dg_created_at a).
Proof.
  split; [reflexivity|]. split; [lia|].
  exact (recent_digests_are_the_newest example_env 5 two_digests eq_refl ltac:(lia)).
Defined.

Lemma added_event_is_due_example :
  fromisoformat_inverts_isoformat basic_runtime /\
  sqlite_ok example_env = true /\ sqlite_ok later_env = true /\
  valid_datetime launch_date = true /\ valid_datetime (now later_env) = true /\
  datetime_leb (now later_env) launch_date = true /\
  exists d' due,
    add_event example_env (utf8 "Launch") launch_date [] init_db = (Ok true, d') /\
    get_upcoming_events later_env None d' = (Ok due, d') /\
    In {| e_name := utf8 "Launch"; e_event_date := launch_date; e_description := [] |} due.
Proof.
  split; [exact basic_fromisoformat_isoformat|].
  repeat (split; [reflexivity|]).
  exact (added_event_is_due basic_fromisoformat_isoformat example_env later_env
           (utf8 "Launch") launch_date [] init_db eq_refl eq_refl eq_refl eq_refl eq_refl).
Defined.

Lemma due_events_within_window_example :
  fromisoformat_inverts_isoformat basic_runtime /\
  stored_dates_canonical (db launch_world) /\
  valid_datetime (now example_env) = true /\
  add_days (now example_env) 1 = Ok (mk_datetime 2024 12 25 10 30 15 123456) /\
  valid_datetime (mk_datetime 2024 12 25 10 30 15 123456) = true /\
  exists due,
    get_upcoming_events example_env (Some 1) (db launch_world) = (Ok due, db launch_world) /\
    ascending due.
Proof.
  split; [exact basic_fromisoformat_isoformat|].
  split; [exact launch_world_canonical|].
  repeat (split; [reflexivity|]).
  destruct (due_events_within_window basic_fromisoformat_isoformat example_env 1
              (mk_datetime 2024 12 25 10 30 15 123456) (db launch_world)
              launch_world_canonical eq_refl eq_refl eq_refl)
    as (due & Hdue & _ & Hasc).
  exists due. split; assumption.
Defined.

Lemma mark_event_notified_idempotent_example :
  sqlite_ok example_env = true /\ sqlite_ok later_env = true /\
  exists d',
    mark_event_notified example_env (utf8 "Launch") launch_date (db launch_world) =
      (Ok true, d') /\
    mark_event_notified later_env (utf8 "Launch") launch_date d' = (Ok true, d').
Proof.
  split; [reflexivity|]. split; [reflexivity|].
  destruct (mark_event_notified_idempotent example_env later_env (utf8 "Launch")
              launch_date (db launch_world) eq_refl eq_refl) as (d' & H1 & H2 & _).
  exists d'. split; assumption.
Defined.

(** ** The Application *)

Section Dispatch.
Context {py : PyRuntime} {libc : Libc}.

Lemma application_handlers :
  application =
  [ CommandHandler "start" start; CommandHandler "help" help_command;
    CommandHandler "contacts" show_contacts; CommandHandler "find_contact" find_contact;
    CommandHandler "events" show_events; CommandHandler "digest" show_digest ] ++
  map Conversation conversations.
Proof. reflexivity. Qed.

(** An update that is not one of the six plain commands reaches the
    conversations. *)
Lemma plain_handlers_pass (env : Env) (states : list (option Z)) (u : Incoming) :
  match u with
  | CommandWithArgs c _ => matches_none env plain_commands c
  | Text _ => True
  end ->
  process_update application env states u =
  process_update (map Conversation conversations) env states u.
Proof.
  intros Hu. rewrite application_handlers. destruct u as [c args|t]; [|reflexivity].
  cbn [app process_update].
  rewrite (Hu "start"%string), (Hu "help"%string), (Hu "contacts"%string),
    (Hu "find_contact"%string), (Hu "events"%string), (Hu "digest"%string)
    by (unfold plain_commands; cbn [In]; tauto).
  reflexivity.
Qed.

(** A command that is registered for a dialog, or /cancel, is no plain
    command. *)
Lemma no_plain_command (env : Env) (c : string) :
  In c (map (fun entry => fst (fst entry)) dialog_commands ++ ["cancel"%string]) ->
  matches_none env plain_commands c.
Proof.
  unfold dialog_commands, plain_commands. cbn [map fst app In].
  intros Hc name Hname. cbn [In] in Hname.
  repeat match type of Hc with
         | _ \/ _ => destruct Hc as [<-|Hc]
         | False => destruct Hc
         end;
    repeat match type of Hname with
           | _ \/ _ => destruct Hname as [<-|Hname]
           | False => destruct Hname
           end; reflexivity.
Qed.

Lemma process_update_all_skip (convs : list ConversationHandler) (env : Env)
    (states : list (option Z)) (u : Incoming) (w : World) :
  Forall2 (skips env u) convs states ->
  process_update (map Conversation convs) env states u w = (Ok states, w).
Proof.
  intros H. induction H as [|conv st convs states Hskip _ IH]; [reflexivity|].
  cbn [map process_update hd tl]. unfold skips in Hskip. rewrite Hskip.
  unfold bind. now rewrite IH.
Qed.

Lemma process_update_first_accepting (cs1 cs2 : list ConversationHandler)
    (conv : ConversationHandler) (env : Env) (before after : list (option Z))
    (st : option Z) (u : Incoming) (w : World) (handler : Handler) :
  Forall2 (skips env u) cs1 before ->
  check_update env conv st (as_update u) = Some handler ->
  process_update (map Conversation (cs1 ++ conv :: cs2)) env (before ++ st :: after) u w =
  let '(r, w') := handler env (message_text (as_update u)) w in
  (match r with
   | Ok returned => Ok (before ++ next_state returned :: after)
   | Raise e => Raise e
   end, w').
Proof.
  intros H Hcheck. induction H as [|c0 st0 cs1 before Hskip _ IH].
  - cbn [app map process_update hd tl]. rewrite Hcheck.
    unfold handle_update. rewrite Hcheck. unfold bind, ret, next_state.
    destruct (handler env (message_text (as_update u)) w) as [[returned|e] w'];
      reflexivity.
  - cbn [app map process_update hd tl]. unfold skips in Hskip. rewrite Hskip.
    unfold bind at 1. rewrite IH.
    destruct (handler env (message_text (as_update u)) w) as [[returned|e] w'];
      reflexivity.
Qed.

(** A conversation that is not running takes no text and no /cancel. *)
Lemma idle_skips_text (env : Env) (conv : ConversationHandler) (t : str) :
  skips env (Text t) conv None.
Proof. reflexivity. Qed.

Lemma idle_skips_cancel (env : Env) (conv : ConversationHandler) (args : list str) :
  In conv conversations -> skips env (CommandWithArgs "cancel" args) conv None.
Proof.
  unfold conversations. cbn [In]. intros [<-|[<-|[<-|[<-|[<-|[]]]]]]; reflexivity.
Qed.

Lemma idle_prefix_skips (env : Env) (u : Incoming) (cs : list ConversationHandler)
    (before : list (option Z)) :
  (forall conv, In conv cs -> skips env u conv None) ->
  Forall (fun st => st = None) before -> List.length cs = List.length before ->
  Forall2 (skips env u) cs before.
Proof.
  revert before. induction cs as [|conv cs IH]; intros [|st before] Hskip Hidle Hlen;
    try discriminate; constructor.
  - inversion Hidle; subst. apply Hskip. now left.
  - inversion Hidle; subst. apply IH; auto.
    intros c Hc. apply Hskip. now right.
Qed.

Lemma conversations_split (n : nat) (conv : ConversationHandler) :
  nth_error conversations n = Some conv ->
  exists cs1 cs2, conversations = cs1 ++ conv :: cs2 /\ List.length cs1 = n.
Proof. apply nth_error_split. Qed.

End Dispatch.

(** ** The plain commands *)

Lemma get_contacts_ok (env : Env) (d : Database) :
  sqlite_ok env = true ->
  get_contacts env d =
  (Ok (map (fun row => {| c_name := ct_name row; c_info := ct_info row |})
           (select_contacts_ordered d)), d).
Proof. intros H. run_method. now rewrite H. Qed.

Lemma get_contacts_fails (env : Env) (d : Database) :
  sqlite_ok env = false -> get_contacts env d = (Ok [], d).
Proof. intros H. run_method. now rewrite H. Qed.

Lemma search_contact_fails (env : Env) (name : str) (d : Database) :
  sqlite_ok env = false -> search_contact env name d = (Ok None, d).
Proof. intros H. run_method. now rewrite H. Qed.

Lemma get_recent_digests_fails (env : Env) (limit : Z) (d : Database) :
  sqlite_ok env = false -> get_recent_digests env limit d = (Ok [], d).
Proof. intros H. run_method. now rewrite H. Qed.

Ltac run_callback :=
  unfold start, help_command, show_contacts, find_contact, show_events, show_digest,
    try_except, bind, ret, call_db, reply_text, Exception, replied;
  cbn [fst snd db user_data replies logged].

(** Both sides are brought to normal form with the message constants
    left folded, then compared. *)
Ltac same_reply := cbn [fst snd db user_data replies logged]; reflexivity.

Section PlainCommands.
Context {py : PyRuntime} {libc : Libc}.

Lemma show_contacts_spec (env : Env) (args : list str) (w : World) :
  show_contacts env args w =
  (Ok tt,
   replied w
     match fst (get_contacts env (db w)) with
     | Ok (contact :: contacts) =>
         fold_left contact_lines (contact :: contacts) MSG_CONTACTS_HEADER
     | _ => MSG_NO_CONTACTS
     end).
Proof.
  run_callback. destruct (sqlite_ok env) eqn:Hok.
  - rewrite get_contacts_ok by assumption. cbn [fst].
    destruct (map _ (select_contacts_ordered (db w))); same_reply.
  - rewrite get_contacts_fails by assumption. same_reply.
Qed.

Lemma find_contact_spec (env : Env) (args : list str) (w : World) :
  find_contact env args w =
  (Ok tt,
   replied w
     match args with
     | [] => MSG_FIND_USAGE
     | _ :: _ =>
         match fst (search_contact env (join [32] args) (db w)) with
         | Ok (Some contact) =>
             utf8 "👤 " ++ c_name contact ++ NL ++
             (if truthy (c_info contact) then utf8 "📝 " ++ c_info contact else [])
         | _ => MSG_CONTACT_NOT_FOUND (join [32] args)
         end
     end).
Proof.
  run_callback. destruct args as [|arg args]; [reflexivity|].
  destruct (sqlite_ok env) eqn:Hok.
  - rewrite search_contact_ok by assumption. cbn [fst].
    destruct (hd_error _) as [row|]; [|reflexivity].
    cbn [c_name c_info]. destruct (truthy (ct_info row)).
    + rewrite <- !app_assoc. same_reply.
    + rewrite app_nil_r. same_reply.
  - rewrite search_contact_fails by assumption. same_reply.
Qed.

Lemma show_events_spec (env : Env) (args : list str) (w : World) :
  show_events env args w =
  (Ok tt,
   replied w
     match fst (get_upcoming_events env None (db w)) with
     | Ok (event :: events) => fold_left event_lines (event :: events) MSG_EVENTS_HEADER
     | _ => MSG_NO_EVENTS
     end).
Proof.
  run_callback. destruct (sqlite_ok env) eqn:Hok.
  - rewrite get_upcoming_events_unbounded by assumption. cbn [fst].
    destruct (events_that_parse _); same_reply.
  - rewrite get_upcoming_events_backend_down by assumption. same_reply.
Qed.

Lemma show_digest_spec (env : Env) (args : list str) (w : World) :
  show_digest env args w =
  (Ok tt,
   replied w
     match fst (get_recent_digests env 5 (db w)) with
     | Ok (digest :: digests) =>
         fold_left digest_lines (enumerate (digest :: digests) 1) MSG_DIGESTS_HEADER
     | _ => MSG_NO_DIGESTS
     end).
Proof.
  run_callback. destruct (sqlite_ok env) eqn:Hok.
  - rewrite get_recent_digests_ok by (assumption || lia). cbn [fst].
    destruct (select_recent_digests 5 (db w)); same_reply.
  - rewrite get_recent_digests_fails by assumption. same_reply.
Qed.

Lemma start_spec (env : Env) (args : list str) (w : World) :
  start env args w = (Ok tt, replied w MSG_WELCOME).
Proof. reflexivity. Qed.

Lemma help_command_spec (env : Env) (args : list str) (w : World) :
  help_command env args w = (Ok tt, replied w MSG_HELP).
Proof. reflexivity. Qed.

Lemma command_hit (c c' : string) (callback : Callback) (rest : list AppHandler)
    (env : Env) (states : list (option Z)) (args : list str) (w : World) :
  command_matches (bot_username env) c c' = true ->
  process_update (CommandHandler c callback :: rest) env states (CommandWithArgs c' args) w =
  match callback env args w with
  | (Ok _, w') => (Ok states, w')
  | (Raise e, w') => (Raise e, w')
  end.
Proof. intros H. cbn [process_update]. now rewrite H. Qed.

Lemma command_miss (c c' : string) (callback : Callback) (rest : list AppHandler)
    (env : Env) (states : list (option Z)) (args : list str) :
  command_matches (bot_username env) c c' = false ->
  process_update (CommandHandler c callback :: rest) env states (CommandWithArgs c' args) =
  process_update rest env states (CommandWithArgs c' args).
Proof. intros H. cbn [process_update]. now rewrite H. Qed.

(** Each plain command sends one message and changes nothing else. *)
Lemma plain_callbacks_reply (env : Env) (args : list str) (w : World)
    (callback : Callback) :
  In callback [start; help_command; show_contacts; find_contact; show_events;
               show_digest] ->
  exists message, callback env args w = (Ok tt, replied w message).
Proof.
  cbn [In]. intros [<-|[<-|[<-|[<-|[<-|[<-|[]]]]]]]; eexists.
  - apply start_spec.
  - apply help_command_spec.
  - apply show_contacts_spec.
  - apply find_contact_spec.
  - apply show_events_spec.
  - apply show_digest_spec.
Qed.

(** A command, however it is spelled, either runs one of the plain
    commands or reaches the conversations. *)
Lemma plain_command_or_pass (env : Env) (states : list (option Z)) (c : string)
    (args : list str) (w : World) :
  (exists callback,
     In callback [start; help_command; show_contacts; find_contact; show_events;
                  show_digest] /\
     process_update application env states (CommandWithArgs c args) w =
     match callback env args w with
     | (Ok _, w') => (Ok states, w')
     | (Raise e, w') => (Raise e, w')
     end) \/
  process_update application env states (CommandWithArgs c args) w =
  process_update (map Conversation conversations) env states (CommandWithArgs c args) w.
Proof.
  rewrite application_handlers. cbn [app].
  destruct (command_matches (bot_username env) "start" c) eqn:E1;
    [left; eexists; split; [left; reflexivity | now apply command_hit]|].
  rewrite command_miss by assumption.
  destruct (command_matches (bot_username env) "help" c) eqn:E2;
    [left; eexists; split; [right; left; reflexivity | now apply command_hit]|].
  rewrite command_miss by assumption.
  destruct (command_matches (bot_username env) "contacts" c) eqn:E3;
    [left; eexists; split; [do 2 right; left; reflexivity | now apply command_hit]|].
  rewrite command_miss by assumption.
  destruct (command_matches (bot_username env) "find_contact" c) eqn:E4;
    [left; eexists; split; [do 3 right; left; reflexivity | now apply command_hit]|].
  rewrite command_miss by assumption.
  destruct (command_matches (bot_username env) "events" c) eqn:E5;
    [left; eexists; split; [do 4 right; left; reflexivity | now apply command_hit]|].
  rewrite command_miss by assumption.
  destruct (command_matches (bot_username env) "digest" c) eqn:E6;
    [left; eexists; split; [do 5 right; left; reflexivity | now apply command_hit]|].
  rewrite command_miss by assumption.
  right. reflexivity.
Qed.

End PlainCommands.

Ltac plain_command_cases Hc :=
  unfold plain_commands in Hc; cbn [In] in Hc; unfold application;
  destruct Hc as [<-|[<-|[<-|[<-|[<-|[<-|[]]]]]]];
  rewrite ?command_miss by reflexivity;
  rewrite command_hit by (apply command_matches_own; reflexivity);
  [ rewrite start_spec | rewrite help_command_spec | rewrite show_contacts_spec
  | rewrite find_contact_spec | rewrite show_events_spec | rewrite show_digest_spec ].

(** A plain command, sent at any moment, is answered with one message
    and changes neither the store, nor [user_data], nor the state of
    any dialog. *)
Theorem plain_commands_only_reply (py : PyRuntime) (libc : Libc) (env : Env)
    (states : list (option Z)) (c : string) (args : list str) (w : World) :
  In c plain_commands ->
  exists message,
    process_update application env states (CommandWithArgs c args) w =
    (Ok states, replied w message).
Proof.
  intros Hc. plain_command_cases Hc; eexists; reflexivity.
Qed.

Lemma plain_commands_only_reply_example :
  In "contacts"%string plain_commands /\
  exists message,
    process_update application example_env [None; None; Some ADDING_CONTACT_INFO; None; None]
      (CommandWithArgs "contacts" []) launch_world =
    (Ok [None; None; Some ADDING_CONTACT_INFO; None; None], replied launch_world message).
Proof.
  assert (H : In "contacts"%string plain_commands) by (cbn; tauto).
  split; [exact H|].
  exact (plain_commands_only_reply basic_runtime glibc example_env _ _ [] launch_world H).
Defined.

(** With the backend down the plain commands answer as they do on an
    empty store, and the question dialog as for an unknown question:
    the error replies of these handlers are not sent. *)
Theorem backend_down_looks_like_empty_store (py : PyRuntime) (libc : Libc) (env : Env)
    (args : list str) (text : str) (w : World) :
  sqlite_ok env = false ->
  show_contacts env args w = (Ok tt, replied w MSG_NO_CONTACTS) /\
  show_events env args w = (Ok tt, replied w MSG_NO_EVENTS) /\
  show_digest env args w = (Ok tt, replied w MSG_NO_DIGESTS) /\
  (args <> [] ->
   find_contact env args w = (Ok tt, replied w (MSG_CONTACT_NOT_FOUND (join [32] args)))) /\
  question_received env text w = (Ok END, replied w MSG_UNKNOWN).
Proof.
  intros Hok. repeat match goal with |- _ /\ _ => split end.
  - rewrite show_contacts_spec, get_contacts_fails by assumption. same_reply.
  - rewrite show_events_spec, get_upcoming_events_backend_down by assumption.
    same_reply.
  - rewrite show_digest_spec, get_recent_digests_fails by assumption. same_reply.
  - intros Hargs. rewrite find_contact_spec. destruct args; [congruence|].
    rewrite search_contact_fails by assumption. same_reply.
  - run_handler. rewrite get_company_info_fails by assumption. same_reply.
Qed.

Lemma backend_down_looks_like_empty_store_example :
  sqlite_ok failing_env = false /\
  show_contacts failing_env [] {| db := two_anns; user_data := user_data_empty;
                                  replies := []; logged := [] |} =
  (Ok tt, {| db := two_anns; user_data := user_data_empty;
             replies := [MSG_NO_CONTACTS]; logged := [] |}).
Proof.
  split; [reflexivity|].
  exact (proj1 (backend_down_looks_like_empty_store basic_runtime glibc failing_env []
                  [] {| db := two_anns; user_data := user_data_empty;
                        replies := []; logged := [] |} eq_refl)).
Defined.

(** ** Which conversation handles an update *)

Section Routing.
Context {py : PyRuntime} {libc : Libc}.

Lemma cancel_reaches_conversations (env : Env) (states : list (option Z))
    (args : list str) :
  process_update application env states (CommandWithArgs "cancel" args) =
  process_update (map Conversation conversations) env states
    (CommandWithArgs "cancel" args).
Proof.
  apply plain_handlers_pass. apply no_plain_command.
  unfold dialog_commands. cbn [map fst app In]. tauto.
Qed.

Lemma running_accepts_cancel (env : Env) (conv : ConversationHandler) (s : Z) :
  In conv conversations ->
  check_update env conv (Some s) (Command "cancel") = Some cancel.
Proof.
  unfold conversations. cbn [In]. intros [<-|[<-|[<-|[<-|[<-|[]]]]]];
    unfold check_update;
    cbn [fallbacks question_conv answer_conv contact_conv event_conv digest_conv
         command_handler];
    rewrite command_matches_own by reflexivity; reflexivity.
Qed.

End Routing.

(** /cancel ends the first running dialog, in the order [main]
    registers them, and only this one: a dialog started later keeps
    waiting.  When no dialog is running the command is not answered. *)
Theorem cancel_ends_first_running_dialog (py : PyRuntime) (libc : Libc) (env : Env)
    (args : list str) (w : World) (before after : list (option Z)) (s : Z) :
  Forall (fun state => state = None) before ->
  (List.length before < List.length conversations)%nat ->
  process_update application env (before ++ Some s :: after)
    (CommandWithArgs "cancel" args) w =
    (Ok (before ++ None :: after), replied w MSG_CANCELLED) /\
  process_update application env idle (CommandWithArgs "cancel" args) w = (Ok idle, w).
Proof.
  intros Hidle Hlen. rewrite !cancel_reaches_conversations. split.
  - destruct (nth_error conversations (List.length before)) as [conv|] eqn:Hnth;
      [|apply nth_error_None in Hnth; lia].
    pose proof (nth_error_In _ _ Hnth) as Hconv.
    destruct (conversations_split _ _ Hnth) as (cs1 & cs2 & Hsplit & Hcs1).
    rewrite Hsplit.
    rewrite (process_update_first_accepting cs1 cs2 conv env before after (Some s)
               (CommandWithArgs "cancel" args) w cancel).
    + reflexivity.
    + apply idle_prefix_skips; auto.
      intros c Hc. apply idle_skips_cancel. rewrite Hsplit.
      apply in_or_app. now left.
    + now apply running_accepts_cancel.
  - apply process_update_all_skip. unfold idle, conversations.
    repeat constructor.
Qed.

Lemma cancel_ends_first_running_dialog_example :
  Forall (fun state : option Z => state = None) [None] /\
  (List.length [@None Z] < List.length conversations)%nat /\
  process_update application example_env
    [None; Some ASKING_QUESTION; Some ADDING_CONTACT_INFO; None; None]
    (CommandWithArgs "cancel" []) fresh_world =
  (Ok [None; None; Some ADDING_CONTACT_INFO; None; None],
   replied fresh_world MSG_CANCELLED).
Proof.
  assert (H : Forall (fun state : option Z => state = None) [None])
    by (repeat constructor).
  assert (L : (List.length [@None Z] < List.length conversations)%nat)
    by (cbn; lia).
  split; [exact H|]. split; [exact L|].
  exact (proj1 (cancel_ends_first_running_dialog basic_runtime glibc example_env []
                  fresh_world [None] [Some ADDING_CONTACT_INFO; None; None]
                  ASKING_QUESTION H L)).
Defined.

(** The first running dialog takes the text. *)
Lemma text_step (py : PyRuntime) (libc : Libc) (env : Env)
    (text : str) (w : World) (before after : list (option Z)) (s : Z)
    (conv : ConversationHandler) (handler : Handler) :
  Forall (fun state => state = None) before ->
  nth_error conversations (List.length before) = Some conv ->
  state_handler s (states conv) = Some handler ->
  process_update application env (before ++ Some s :: after) (Text text) w =
    (let '(r, w') := handler env text w in
     (match r with
      | Ok returned => Ok (before ++ next_state returned :: after)
      | Raise e => Raise e
      end, w')).
Proof.
  intros Hidle Hnth Hhandler.
  rewrite (plain_handlers_pass env _ (Text text) I).
  destruct (conversations_split _ _ Hnth) as (cs1 & cs2 & Hsplit & Hcs1).
  rewrite Hsplit.
  rewrite (process_update_first_accepting cs1 cs2 conv env before after (Some s)
             (Text text) w handler).
  - reflexivity.
  - apply idle_prefix_skips; auto. intros c _. apply idle_skips_text.
  - exact Hhandler.
Qed.

(** Text that is no command goes to the first running dialog, in the
    order [main] registers them, and to no other: a dialog started
    later does not see it.  When no dialog is running the text is not
    answered. *)
Theorem text_goes_to_first_running_dialog (py : PyRuntime) (libc : Libc) (env : Env)
    (text : str) (w : World) (before after : list (option Z)) (s : Z)
    (conv : ConversationHandler) (handler : Handler) :
  Forall (fun state => state = None) before ->
  nth_error conversations (List.length before) = Some conv ->
  state_handler s (states conv) = Some handler ->
  process_update application env (before ++ Some s :: after) (Text text) w =
    (let '(r, w') := handler env text w in
     (match r with
      | Ok returned => Ok (before ++ next_state returned :: after)
      | Raise e => Raise e
      end, w')) /\
  process_update application env idle (Text text) w = (Ok idle, w).
Proof.
  intros Hidle Hnth Hhandler. split.
  - now apply (text_step py libc env text w before after s conv handler).
  - rewrite (plain_handlers_pass env _ (Text text) I).
    apply process_update_all_skip. unfold idle, conversations.
    repeat constructor.
Qed.

Lemma text_goes_to_first_running_dialog_example :
  Forall (fun state : option Z => state = None) [] /\
  nth_error conversations (List.length (@nil (option Z))) = Some question_conv /\
  state_handler ASKING_QUESTION (states question_conv) = Some question_received /\
  process_update application example_env
    [Some ASKING_QUESTION; None; Some ADDING_CONTACT_NAME; None; None]
    (Text (utf8 "Ann")) fresh_world =
  (Ok [None; None; Some ADDING_CONTACT_NAME; None; None],
   replied fresh_world MSG_UNKNOWN).
Proof.
  assert (H : Forall (fun state : option Z => state = None) []) by constructor.
  split; [exact H|]. split; [reflexivity|]. split; [reflexivity|].
  exact (proj1 (text_goes_to_first_running_dialog basic_runtime glibc example_env
                  (utf8 "Ann") fresh_world [] [None; Some ADDING_CONTACT_NAME; None; None]
                  ASKING_QUESTION question_conv question_received H eq_refl eq_refl)).
Defined.

Ltac skip_goal :=
  try match goal with |- skips _ _ _ ?st => is_var st; destruct st end;
  reflexivity.

Ltac entry_goal :=
  unfold check_update;
  cbn [as_update entry_points question_conv answer_conv contact_conv event_conv
       digest_conv command_handler];
  rewrite command_matches_own by reflexivity; reflexivity.

Ltac dialog_case cs1 conv cs2 handler :=
  lazymatch goal with
  | |- process_update _ ?env (?before ++ ?state :: ?after) ?u ?w = _ =>
      destruct state as [s|];
      [ cbn [app]; apply process_update_all_skip; unfold conversations;
        repeat constructor; skip_goal
      | change conversations with (cs1 ++ conv :: cs2);
        rewrite (process_update_first_accepting cs1 cs2 conv env before after None u w
                   handler);
        [ reflexivity | repeat constructor; skip_goal | entry_goal ] ]
  end.

(** The command of a dialog starts the dialog when it is not running,
    whatever the other dialogs are doing, and these keep their states:
    several dialogs can wait at once.  Sent while its dialog is
    running, the command is not handled at all: no reply, no change. *)
Theorem dialog_command_starts_or_is_ignored (py : PyRuntime) (libc : Libc) (env : Env)
    (args : list str) (w : World) (before after : list (option Z)) (state : option Z)
    (c : string) (first : Z) (prompt : str) :
  nth_error dialog_commands (List.length before) = Some (c, first, prompt) ->
  List.length (before ++ state :: after) = List.length conversations ->
  process_update application env (before ++ state :: after) (CommandWithArgs c args) w =
  match state with
  | None => (Ok (before ++ Some first :: after), replied w prompt)
  | Some _ => (Ok (before ++ state :: after), w)
  end.
Proof.
  intros Hc Hlen. rewrite length_app in Hlen. cbn [List.length] in Hlen.
  destruct before as [|b0 [|b1 [|b2 [|b3 [|b4 before]]]]];
    cbn [List.length nth_error dialog_commands] in Hc, Hlen;
    [| | | | |destruct before; discriminate];
    injection Hc as <- <- <-;
    (rewrite plain_handlers_pass
      by (apply no_plain_command; unfold dialog_commands; cbn [map fst app In]; tauto)).
  - destruct after as [|a0 [|a1 [|a2 [|a3 [|a4 after]]]]]; try discriminate.
    dialog_case (@nil ConversationHandler) question_conv
                [answer_conv; contact_conv; event_conv; digest_conv] question_start.
  - destruct after as [|a0 [|a1 [|a2 [|a3 after]]]]; try discriminate.
    dialog_case [question_conv] answer_conv
                [contact_conv; event_conv; digest_conv] answer_start.
  - destruct after as [|a0 [|a1 [|a2 after]]]; try discriminate.
    dialog_case [question_conv; answer_conv] contact_conv
                [event_conv; digest_conv] add_contact_start.
  - destruct after as [|a0 [|a1 after]]; try discriminate.
    dialog_case [question_conv; answer_conv; contact_conv] event_conv
                [digest_conv] add_event_start.
  - destruct after as [|a0 after]; try discriminate.
    dialog_case [question_conv; answer_conv; contact_conv; event_conv] digest_conv
                (@nil ConversationHandler) add_digest_start.
Qed.

Lemma dialog_command_starts_or_is_ignored_example :
  nth_error dialog_commands (List.length [Some ASKING_QUESTION; @None Z]) =
    Some ("add_contact"%string, ADDING_CONTACT_NAME, MSG_CONTACT_NAME_PROMPT) /\
  List.length ([Some ASKING_QUESTION; None] ++ None :: [None; None]) =
    List.length conversations /\
  process_update application example_env [Some ASKING_QUESTION; None; None; None; None]
    (CommandWithArgs "add_contact" []) fresh_world =
  (Ok [Some ASKING_QUESTION; None; Some ADDING_CONTACT_NAME; None; None],
   replied fresh_world MSG_CONTACT_NAME_PROMPT).
Proof.
  split; [reflexivity|]. split; [reflexivity|].
  exact (dialog_command_starts_or_is_ignored basic_runtime glibc example_env []
           fresh_world [Some ASKING_QUESTION; None] [None; None] None
           "add_contact" ADDING_CONTACT_NAME MSG_CONTACT_NAME_PROMPT eq_refl eq_refl).
Defined.

(** ** One reply per update *)

Ltac one_reply := do 3 eexists; split; [reflexivity | split; reflexivity].

Section OneReply.
Context {py : PyRuntime} {libc : Libc}.

Lemma prompts_reply_once :
  replies_once question_start /\ replies_once answer_start /\ replies_once cancel /\
  replies_once add_contact_start /\ replies_once add_contact_name /\
  replies_once add_event_start /\ replies_once add_event_name /\
  replies_once add_digest_start.
Proof. repeat split; intros env text w; one_reply. Qed.

Lemma question_received_replies_once : replies_once question_received.
Proof.
  intros env text w. run_handler. destruct (sqlite_ok env) eqn:Hok.
  - rewrite get_company_info_ok by assumption.
    destruct (truthy_opt _); one_reply.
  - rewrite get_company_info_fails by assumption. one_reply.
Qed.

Lemma answer_received_replies_once : replies_once answer_received.
Proof.
  intros env text w. run_handler.
  destruct (contains (lower text) VOPROS && contains (lower text) OTVET); [|one_reply].
  destruct (List.length (re_split OTVET_COLON text) =? 2)%nat; [|one_reply].
  destruct (truthy _ && truthy _); [|one_reply].
  destruct (sqlite_ok env) eqn:Hok.
  - rewrite add_company_info_ok by assumption. one_reply.
  - rewrite add_company_info_fails by assumption. one_reply.
Qed.

Lemma add_contact_info_replies_once : replies_once add_contact_info.
Proof.
  intros env text w. run_handler.
  destruct (truthy_opt (contact_name (user_data w))); [|one_reply].
  destruct (sqlite_ok env) eqn:Hok.
  - rewrite add_contact_ok by assumption. one_reply.
  - rewrite add_contact_fails by assumption. one_reply.
Qed.

Lemma add_event_date_replies_once : replies_once add_event_date.
Proof.
  intros env text w. destruct (strptime text) as [date|e] eqn:E.
  - rewrite (add_event_date_parsed env text w date E). one_reply.
  - rewrite (add_event_date_rejected env text w e E). one_reply.
Qed.

Lemma add_event_description_replies_once : replies_once add_event_description.
Proof.
  intros env text w. run_handler.
  destruct (truthy_opt (event_name (user_data w))); [|one_reply].
  destruct (event_date (user_data w)) as [date|]; [|one_reply].
  destruct (sqlite_ok env) eqn:Hok.
  - rewrite add_event_ok by assumption. one_reply.
  - rewrite add_event_fails by assumption. one_reply.
Qed.

Lemma add_digest_received_replies_once : replies_once add_digest_received.
Proof.
  intros env text w. run_handler. destruct (sqlite_ok env) eqn:Hok.
  - rewrite add_digest_ok by assumption. one_reply.
  - rewrite add_digest_fails by assumption. one_reply.
Qed.

Lemma registered_handlers_reply_once (env : Env) (conv : ConversationHandler)
    (state : option Z) (u : Update) (handler : Handler) :
  In conv conversations -> check_update env conv state u = Some handler ->
  replies_once handler.
Proof.
  destruct prompts_reply_once as (Hqs & Has & Hc & Hcs & Hcn & Hes & Hen & Hds).
  apply (registered_handlers replies_once); try assumption.
  - exact question_received_replies_once.
  - exact answer_received_replies_once.
  - exact add_contact_info_replies_once.
  - exact add_event_date_replies_once.
  - exact add_event_description_replies_once.
  - exact add_digest_received_replies_once.
Qed.

Lemma sent_nothing (w : World) : sent_at_most 1 w w.
Proof. split; [reflexivity|]. exists []. rewrite app_nil_r. cbn. split; [reflexivity|lia]. Qed.

Lemma conversations_reply_at_most_once (convs : list ConversationHandler) (env : Env)
    (states : list (option Z)) (u : Incoming) (w : World) :
  (forall conv, In conv convs -> In conv conversations) ->
  exists states' w',
    process_update (map Conversation convs) env states u w = (Ok states', w') /\
    sent_at_most 1 w w'.
Proof.
  revert states. induction convs as [|conv convs IH]; intros states Hin.
  - exists states, w. split; [reflexivity | apply sent_nothing].
  - cbn [map process_update].
    destruct (check_update env conv (hd None states) (as_update u)) as [handler|] eqn:Hcheck.
    + unfold handle_update. rewrite Hcheck. unfold bind, ret.
      assert (Hconv : In conv conversations) by (apply Hin; now left).
      destruct (registered_handlers_reply_once env conv _ _ handler Hconv Hcheck env
                  (message_text (as_update u)) w)
        as (returned & message & w' & -> & Hreplies & Hlogged).
      eexists _, w'. split; [reflexivity|]. split; [assumption|].
      exists [message]. split; [assumption | cbn; lia].
    + destruct (IH (tl states)) as (states' & w' & Hrun & Hsent).
      { intros c Hc. apply Hin. now right. }
      unfold bind, ret. rewrite Hrun. eauto.
Qed.

Lemma process_update_replies_at_most_once (env : Env) (states : list (option Z))
    (u : Incoming) (w : World) :
  exists states' w',
    process_update application env states u w = (Ok states', w') /\
    sent_at_most 1 w w'.
Proof.
  assert (Hconvs : exists states' w',
             process_update (map Conversation conversations) env states u w =
               (Ok states', w') /\ sent_at_most 1 w w')
    by (apply conversations_reply_at_most_once; auto).
  destruct u as [c args|text].
  - destruct (plain_command_or_pass env states c args w)
      as [(callback & Hcallback & ->)| ->]; [|exact Hconvs].
    destruct (plain_callbacks_reply env args w callback Hcallback) as (message & ->).
    exists states, (replied w message). split; [reflexivity|].
    split; [reflexivity|]. exists [message]. split; [reflexivity | cbn; lia].
  - now rewrite (plain_handlers_pass env states (Text text) I).
Qed.

End OneReply.

(** New messages (commands and texts, not edits of earlier ones) are
    answered with one message each or with none, as long as Telegram
    delivers the replies: after any such updates, from any dialog
    states, the bot has sent the messages it had sent before followed
    by at most as many new ones as there were updates.  What happens
    when a reply cannot be sent, or on an edited message, is outside
    this statement. *)
Theorem every_update_gets_at_most_one_reply (py : PyRuntime) (libc : Libc)
    (updates : list (Env * Incoming)) (states : list (option Z)) (w : World) :
  exists sent,
    replies (snd (run_polling states updates w)) = replies w ++ sent /\
    (List.length sent <= List.length updates)%nat.
Proof.
  revert states w. induction updates as [|[env u] updates IH]; intros states w.
  - exists []. rewrite app_nil_r. split; [reflexivity | cbn; lia].
  - cbn [run_polling]. unfold bind.
    destruct (process_update_replies_at_most_once env states u w)
      as (states1 & w1 & -> & _ & sent1 & Hsent1 & Hlen1).
    destruct (IH states1 w1) as (sent2 & Hsent2 & Hlen2).
    exists (sent1 ++ sent2). split.
    + now rewrite Hsent2, Hsent1, app_assoc.
    + rewrite length_app. cbn [List.length]. lia.
Qed.

(** ** The dialogs from the first command to the stored row *)

Ltac idle_case cs1 conv cs2 handler :=
  lazymatch goal with
  | |- process_update _ ?env _ ?u ?w = _ =>
      change conversations with (cs1 ++ conv :: cs2);
      change idle
        with (repeat (@None Z) (List.length cs1) ++
              None :: repeat None (4 - List.length cs1));
      rewrite (process_update_first_accepting cs1 cs2 conv env _ _ None u w handler);
      [ reflexivity | repeat constructor; skip_goal | entry_goal ]
  end.

Section WholeDialogs.
Context {py : PyRuntime} {libc : Libc}.

Lemma sent_sent (w : World) (a b : list str) : sent (sent w a) b = sent w (a ++ b).
Proof. unfold sent. cbn [db user_data replies logged]. now rewrite app_assoc. Qed.

Lemma replied_sent (w : World) (message : str) : replied w message = sent w [message].
Proof. reflexivity. Qed.

(** From the idle state, the command of the [n]-th dialog starts it. *)
Lemma idle_starts_dialog (n : nat) (c : string) (first : Z) (prompt : str) (env : Env)
    (args : list str) (w : World) :
  nth_error dialog_commands n = Some (c, first, prompt) ->
  process_update application env idle (CommandWithArgs c args) w =
  (Ok (only_running n first), sent w [prompt]).
Proof.
  intros Hc.
  rewrite plain_handlers_pass.
  - destruct n as [|[|[|[|[|n]]]]]; cbn [nth_error dialog_commands] in Hc;
      [| | | | |destruct n; discriminate]; injection Hc as <- <- <-.
    + idle_case (@nil ConversationHandler) question_conv
                [answer_conv; contact_conv; event_conv; digest_conv] question_start.
    + idle_case [question_conv] answer_conv
                [contact_conv; event_conv; digest_conv] answer_start.
    + idle_case [question_conv; answer_conv] contact_conv
                [event_conv; digest_conv] add_contact_start.
    + idle_case [question_conv; answer_conv; contact_conv] event_conv
                [digest_conv] add_event_start.
    + idle_case [question_conv; answer_conv; contact_conv; event_conv] digest_conv
                (@nil ConversationHandler) add_digest_start.
  - apply no_plain_command. apply in_or_app. left.
    apply (in_map (fun entry => fst (fst entry)) _ _ (nth_error_In _ _ Hc)).
Qed.

(** When only the [n]-th dialog is running, text goes to the handler
    of its state. *)
Lemma only_running_takes_text (n : nat) (conv : ConversationHandler) (s : Z)
    (handler : Handler) (env : Env) (text : str) (w : World) :
  nth_error conversations n = Some conv ->
  state_handler s (states conv) = Some handler ->
  process_update application env (only_running n s) (Text text) w =
  (let '(r, w') := handler env text w in
   (match r with
    | Ok returned => Ok (repeat None n ++ next_state returned :: repeat None (4 - n))
    | Raise e => Raise e
    end, w')).
Proof.
  intros Hconv Hhandler. unfold only_running.
  apply (text_step py libc env text w (repeat None n) (repeat None (4 - n)) s conv handler).
  - apply Forall_forall. intros st Hst. now apply repeat_spec in Hst.
  - now rewrite repeat_length.
  - exact Hhandler.
Qed.

Lemma ended_is_idle (n : nat) :
  (n < 5)%nat -> repeat None n ++ next_state END :: repeat None (4 - n) = idle.
Proof. intros Hn. do 5 (destruct n as [|n]; [reflexivity|]). lia. Qed.

(** Date texts that do not parse keep the event dialog at the date
    step; each is answered with the format reminder. *)
Lemma rejected_dates_keep_waiting (retries : list (Env * str))
    (rest : list (Env * Incoming)) (w : World) :
  Forall (fun retry => strptime (snd retry) = Raise ValueError) retries ->
  run_polling (only_running 3 ADDING_EVENT_DATE)
    (map (fun retry => (fst retry, Text (snd retry))) retries ++ rest) w =
  run_polling (only_running 3 ADDING_EVENT_DATE) rest
    (sent w (repeat MSG_BAD_DATE (List.length retries))).
Proof.
  intros Hbad. revert w. induction Hbad as [|[env text] retries Htext _ IH]; intros w.
  - cbn [map app List.length repeat]. unfold sent. rewrite app_nil_r. now destruct w.
  - cbn [map app fst snd run_polling] in *. unfold bind at 1.
    rewrite (only_running_takes_text 3 event_conv ADDING_EVENT_DATE add_event_date)
      by reflexivity.
    rewrite (add_event_date_rejected env text w ValueError Htext).
    cbv beta iota zeta. rewrite replied_sent.
    change (repeat None 3 ++ next_state ADDING_EVENT_DATE :: repeat None (4 - 3))
      with (only_running 3 ADDING_EVENT_DATE).
    rewrite IH, sent_sent. reflexivity.
Qed.

End WholeDialogs.

(** The event dialog from /add_event to the stored row: a name, any
    number of date texts that do not parse, a date text that parses and
    a description store one event under that name with the parsed date
    in ISO form and the description (none for a dash), clear
    [user_data] and leave every dialog idle. *)
Theorem event_dialog_stores_the_event (py : PyRuntime) (libc : Libc)
    (env1 env2 env3 env4 : Env) (args : list str) (name date_text description : str)
    (date : datetime) (retries : list (Env * str)) (w : World) :
  truthy name = true ->
  Forall (fun retry => strptime (snd retry) = Raise ValueError) retries ->
  strptime date_text = Ok date ->
  sqlite_ok env4 = true ->
  run_polling idle
    ([(env1, CommandWithArgs "add_event" args); (env2, Text name)] ++
     map (fun retry => (fst retry, Text (snd retry))) retries ++
     [(env3, Text date_text); (env4, Text description)]) w =
  (Ok idle,
   {| db := insert_event name (isoformat date) (stored_description description) (db w);
      user_data := user_data_empty;
      replies := replies w ++
                 [MSG_EVENT_NAME_PROMPT; MSG_EVENT_DATE_PROMPT] ++
                 repeat MSG_BAD_DATE (List.length retries) ++
                 [MSG_EVENT_DESCRIPTION_PROMPT; MSG_EVENT_ADDED name];
      logged := logged w |}).
Proof.
  intros Hname Hbad Hdate Hok.
  cbn [app run_polling]. unfold bind at 1.
  rewrite (idle_starts_dialog 3 "add_event" ADDING_EVENT_NAME MSG_EVENT_NAME_PROMPT)
    by reflexivity.
  unfold bind at 1.
  rewrite (only_running_takes_text 3 event_conv ADDING_EVENT_NAME add_event_name)
    by reflexivity.
  change (add_event_name env2 name (sent w [MSG_EVENT_NAME_PROMPT]))
    with (Ok ADDING_EVENT_DATE,
          {| db := db w;
             user_data := {| contact_name := contact_name (user_data w);
                             event_name := Some name;
                             event_date := event_date (user_data w) |};
             replies := (replies w ++ [MSG_EVENT_NAME_PROMPT]) ++ [MSG_EVENT_DATE_PROMPT];
             logged := logged w |}).
  cbv beta iota zeta.
  change (repeat None 3 ++ next_state ADDING_EVENT_DATE :: repeat None (4 - 3))
    with (only_running 3 ADDING_EVENT_DATE).
  rewrite (rejected_dates_keep_waiting retries _ _ Hbad).
  cbn [run_polling]. unfold bind at 1.
  rewrite (only_running_takes_text 3 event_conv ADDING_EVENT_DATE add_event_date)
    by reflexivity.
  rewrite (add_event_date_parsed env3 date_text _ date Hdate).
  cbv beta iota zeta.
  change (repeat None 3 ++ next_state ADDING_EVENT_DESCRIPTION :: repeat None (4 - 3))
    with (only_running 3 ADDING_EVENT_DESCRIPTION).
  unfold bind at 1.
  rewrite (only_running_takes_text 3 event_conv ADDING_EVENT_DESCRIPTION
             add_event_description) by reflexivity.
  rewrite (add_event_description_spec env4 description name date)
    by (try reflexivity; assumption).
  rewrite Hok. cbv beta iota zeta.
  rewrite (ended_is_idle 3) by lia. unfold ret, sent, stored_description.
  cbn [db user_data replies logged]. f_equal. f_equal.
  rewrite <- !app_assoc. reflexivity.
Qed.

Lemma event_dialog_stores_the_event_example :
  truthy (utf8 "Launch") = true /\
  Forall (fun retry => strptime (snd retry) = Raise ValueError)
         [(example_env, utf8 "tomorrow")] /\
  strptime (utf8 "01.01.2030 09:00") = Ok (mk_datetime 2030 1 1 9 0 0 0) /\
  sqlite_ok later_env = true /\
  exists w',
    run_polling idle
      [(example_env, CommandWithArgs "add_event" []);
       (example_env, Text (utf8 "Launch"));
       (example_env, Text (utf8 "tomorrow"));
       (example_env, Text (utf8 "01.01.2030 09:00"));
       (later_env, Text (utf8 "-"))] fresh_world = (Ok idle, w') /\
    events (db w') =
      [{| ev_name := utf8 "Launch";
          ev_event_date := SqlText (isoformat (mk_datetime 2030 1 1 9 0 0 0));
          ev_description := Some []; ev_notified := 0 |}].
Proof.
  assert (H : Forall (fun retry => strptime (snd retry) = Raise ValueError)
                [(example_env, utf8 "tomorrow")]) by (repeat constructor).
  split; [reflexivity|]. split; [exact H|]. split; [reflexivity|].
  split; [reflexivity|].
  eexists. split.
  - exact (event_dialog_stores_the_event basic_runtime glibc example_env example_env
             example_env later_env [] (utf8 "Launch") (utf8 "01.01.2030 09:00") (utf8 "-")
             (mk_datetime 2030 1 1 9 0 0 0) [(example_env, utf8 "tomorrow")] fresh_world
             eq_refl H eq_refl eq_refl).
  - reflexivity.
Defined.

(** The contact dialog from /add_contact to the stored row: a name and
    the contact information store one contact, clear [user_data] and
    leave every dialog idle. *)
Theorem contact_dialog_stores_the_contact (py : PyRuntime) (libc : Libc)
    (env1 env2 env3 : Env) (args : list str) (name info : str) (w : World) :
  truthy name = true ->
  sqlite_ok env3 = true ->
  run_polling idle
    [(env1, CommandWithArgs "add_contact" args); (env2, Text name); (env3, Text info)] w =
  (Ok idle,
   {| db := insert_contact name info (db w);
      user_data := user_data_empty;
      replies := replies w ++
                 [MSG_CONTACT_NAME_PROMPT; MSG_CONTACT_INFO_PROMPT; MSG_CONTACT_ADDED name];
      logged := logged w |}).
Proof.
  intros Hname Hok.
  cbn [run_polling]. unfold bind at 1.
  rewrite (idle_starts_dialog 2 "add_contact" ADDING_CONTACT_NAME MSG_CONTACT_NAME_PROMPT)
    by reflexivity.
  unfold bind at 1.
  rewrite (only_running_takes_text 2 contact_conv ADDING_CONTACT_NAME add_contact_name)
    by reflexivity.
  change (add_contact_name env2 name (sent w [MSG_CONTACT_NAME_PROMPT]))
    with (Ok ADDING_CONTACT_INFO,
          {| db := db w;
             user_data := {| contact_name := Some name;
                             event_name := event_name (user_data w);
                             event_date := event_date (user_data w) |};
             replies := (replies w ++ [MSG_CONTACT_NAME_PROMPT]) ++
                        [MSG_CONTACT_INFO_PROMPT];
             logged := logged w |}).
  cbv beta iota zeta.
  change (repeat None 2 ++ next_state ADDING_CONTACT_INFO :: repeat None (4 - 2))
    with (only_running 2 ADDING_CONTACT_INFO).
  unfold bind at 1.
  rewrite (only_running_takes_text 2 contact_conv ADDING_CONTACT_INFO add_contact_info)
    by reflexivity.
  rewrite (add_contact_info_spec env3 info name) by (try reflexivity; assumption).
  rewrite Hok. cbv beta iota zeta.
  rewrite (ended_is_idle 2) by lia. unfold ret.
  cbn [db user_data replies logged]. f_equal. f_equal.
  rewrite <- !app_assoc. reflexivity.
Qed.

Lemma contact_dialog_stores_the_contact_example :
  truthy (utf8 "Ann") = true /\ sqlite_ok later_env = true /\
  exists w',
    run_polling idle
      [(example_env, CommandWithArgs "add_contact" []);
       (example_env, Text (utf8 "Ann"));
       (later_env, Text (utf8 "QA"))] fresh_world = (Ok idle, w') /\
    contacts (db w') = [{| ct_name := utf8 "Ann"; ct_info := utf8 "QA" |}].
Proof.
  split; [reflexivity|]. split; [reflexivity|].
  eexists. split.
  - exact (contact_dialog_stores_the_contact basic_runtime glibc example_env example_env
             later_env [] (utf8 "Ann") (utf8 "QA") fresh_world eq_refl eq_refl).
  - reflexivity.
Defined.



(** ** The date [show_events] prints and [add_event_date] reads *)

Lemma digits_2 (v : Z) :
  0 <= v <= 99 -> digits 2 v = [48 + v / 10; 48 + v mod 10].
Proof.
  intros Hv. unfold digits. change (10 ^ Z.of_nat 1) with 10.
  change (10 ^ Z.of_nat 0) with 1. rewrite Z.div_1_r.
  rewrite (Z.mod_small (v / 10)) by (Z.div_mod_to_equations; lia). reflexivity.
Qed.

Lemma digits_4 (v : Z) :
  digits 4 v = [48 + (v / 1000) mod 10; 48 + (v / 100) mod 10;
                48 + (v / 10) mod 10; 48 + v mod 10].
Proof.
  unfold digits. change (10 ^ Z.of_nat 3) with 1000. change (10 ^ Z.of_nat 2) with 100.
  change (10 ^ Z.of_nat 1) with 10. change (10 ^ Z.of_nat 0) with 1.
  now rewrite Z.div_1_r.
Qed.

Lemma re_range_hit (lo hi a : Z) (rest : str) :
  lo <= a <= hi -> re_range lo hi ((48 + a) :: rest) = [(a, rest)].
Proof.
  intros Ha. unfold re_range.
  replace (in_range (48 + lo) (48 + a) (48 + hi)) with true
    by (symmetry; apply in_range_spec; lia).
  now replace (48 + a - 48) with a by lia.
Qed.

Lemma re_range_miss (lo hi a : Z) (rest : str) :
  a < lo \/ hi < a -> re_range lo hi ((48 + a) :: rest) = [].
Proof.
  intros Ha. unfold re_range.
  destruct (in_range (48 + lo) (48 + a) (48 + hi)) eqn:E; [|reflexivity].
  apply in_range_spec in E. lia.
Qed.

Section DateText.
Context {py : PyRuntime}.
Hypothesis ascii : knows_ascii_digits py.

Lemma re_digit_hit (b : Z) (rest : str) :
  0 <= b <= 9 -> re_digit ((48 + b) :: rest) = [(b, rest)].
Proof.
  intros Hb. unfold re_digit. now rewrite (proj1 (proj1 ascii b Hb)).
Qed.

Lemma re_bind_first {A B} (r : regex A) (k : A -> regex B) (s rest rest' : str)
    (a : A) (b : B) :
  first_match r s a rest -> first_match (k a) rest b rest' ->
  first_match (re_bind r k) s b rest'.
Proof.
  intros [others Hr] [others' Hk]. unfold first_match, re_bind.
  rewrite Hr. cbn [flat_map]. rewrite Hk. cbn [app]. eauto.
Qed.

Lemma re_char_first (ch : codepoint) (rest : str) :
  first_match (re_char ch) ([ch] ++ rest) tt rest.
Proof. exists []. cbn [app re_char]. now rewrite Z.eqb_refl. Qed.

Lemma re_spaces_first (v : Z) (rest : str) :
  0 <= v <= 99 ->
  first_match re_spaces ([32] ++ digits 2 v ++ rest) tt (digits 2 v ++ rest).
Proof.
  intros Hv. exists []. rewrite digits_2 by assumption. cbn [app re_spaces].
  rewrite (proj2 ascii).
  rewrite (proj2 (proj1 ascii (v / 10) ltac:(Z.div_mod_to_equations; lia))).
  reflexivity.
Qed.

Ltac two_digits v Hv :=
  rewrite (digits_2 v) by lia; cbn [app];
  pose proof (Z.div_mod v 10 ltac:(lia)) as Hv;
  pose proof (Z.mod_pos_bound v 10 ltac:(lia));
  assert (0 <= v / 10) by (Z.div_mod_to_equations; lia).

Ltac run_alternatives :=
  unfold re_alt, re_pair, re_bind, re_ret; cbn [flat_map app];
  repeat first
    [ rewrite re_range_hit by lia
    | rewrite re_range_miss by lia
    | rewrite re_digit_hit by lia ];
  cbn [flat_map app];
  repeat first
    [ rewrite re_range_hit by lia
    | rewrite re_range_miss by lia
    | rewrite re_digit_hit by lia ];
  cbn [flat_map app].

Lemma directive_d_first (v : Z) (rest : str) :
  1 <= v <= 31 -> first_match directive_d (digits 2 v ++ rest) v rest.
Proof.
  intros Hv. two_digits v Hdiv. unfold first_match, directive_d.
  assert (Hcases : v / 10 = 0 \/ v / 10 = 1 \/ v / 10 = 2 \/ v / 10 = 3) by lia.
  destruct Hcases as [E|[E|[E|E]]]; rewrite E in *; run_alternatives;
    eexists; f_equal; f_equal; lia.
Qed.

Lemma directive_m_first (v : Z) (rest : str) :
  1 <= v <= 12 -> first_match directive_m (digits 2 v ++ rest) v rest.
Proof.
  intros Hv. two_digits v Hdiv. unfold first_match, directive_m.
  assert (Hcases : v / 10 = 0 \/ v / 10 = 1) by lia.
  destruct Hcases as [E|E]; rewrite E in *; run_alternatives;
    eexists; f_equal; f_equal; lia.
Qed.

Lemma directive_H_first (v : Z) (rest : str) :
  0 <= v <= 23 -> first_match directive_H (digits 2 v ++ rest) v rest.
Proof.
  intros Hv. two_digits v Hdiv. unfold first_match, directive_H.
  assert (Hcases : v / 10 = 0 \/ v / 10 = 1 \/ v / 10 = 2) by lia.
  destruct Hcases as [E|[E|E]]; rewrite E in *; run_alternatives;
    eexists; f_equal; f_equal; lia.
Qed.

Lemma directive_M_first (v : Z) (rest : str) :
  0 <= v <= 59 -> first_match directive_M (digits 2 v ++ rest) v rest.
Proof.
  intros Hv. two_digits v Hdiv. unfold first_match, directive_M.
  assert (0 <= v / 10 <= 5) by lia.
  run_alternatives. eexists. f_equal. f_equal. lia.
Qed.

Lemma directive_Y_first (v : Z) (rest : str) :
  0 <= v <= 9999 -> first_match directive_Y (digits 4 v ++ rest) v rest.
Proof.
  intros Hv. rewrite digits_4. cbn [app]. unfold first_match, directive_Y.
  unfold re_bind, re_ret.
  rewrite re_digit_hit by (Z.div_mod_to_equations; lia). cbn [flat_map app].
  rewrite re_digit_hit by (Z.div_mod_to_equations; lia). cbn [flat_map app].
  rewrite re_digit_hit by (Z.div_mod_to_equations; lia). cbn [flat_map app].
  rewrite re_digit_hit by (Z.div_mod_to_equations; lia). cbn [flat_map app].
  eexists. f_equal. f_equal. Z.div_mod_to_equations. lia.
Qed.

Lemma format_regex_first (d m y hh mm : Z) :
  1 <= d <= 31 -> 1 <= m <= 12 -> 0 <= y <= 9999 -> 0 <= hh <= 23 -> 0 <= mm <= 59 ->
  first_match format_regex
    (digits 2 d ++ [46] ++ digits 2 m ++ [46] ++ digits 4 y ++ [32] ++
     digits 2 hh ++ [58] ++ digits 2 mm ++ [])
    (d, m, y, hh, mm) [].
Proof.
  intros Hd Hm Hy Hhh Hmm. unfold format_regex.
  eapply re_bind_first; [now apply directive_d_first|].
  eapply re_bind_first; [apply re_char_first|].
  eapply re_bind_first; [now apply directive_m_first|].
  eapply re_bind_first; [apply re_char_first|].
  eapply re_bind_first; [now apply directive_Y_first|].
  eapply re_bind_first; [apply re_spaces_first; lia|].
  eapply re_bind_first; [now apply directive_H_first|].
  eapply re_bind_first; [apply re_char_first|].
  eapply re_bind_first; [now apply directive_M_first|].
  exists []. reflexivity.
Qed.

End DateText.

(** The date [show_events] prints for an event is a text
    [add_event_date] accepts, and it parses back to the date of the
    event to the minute, wherever the C library prints the year with
    four digits (every library does from the year 1000 on). *)
Theorem shown_date_parses_back (py : PyRuntime) (libc : Libc) (d : datetime) :
  knows_ascii_digits py ->
  strftime_Y (year d) = digits 4 (year d) ->
  valid_datetime d = true ->
  strptime (strftime d) = Ok (to_the_minute d).
Proof.
  intros Hascii Hyear Hvalid.
  pose proof (valid_datetime_bounds d Hvalid) as [Hy Hm Hd Hhh Hmm _ _].
  unfold strftime. rewrite Hyear.
  rewrite <- (app_nil_r (digits 2 (minute d))).
  destruct (format_regex_first Hascii (day d) (month d) (year d) (hour d) (minute d))
    as [others Hmatch]; try lia.
  unfold strptime. rewrite Hmatch. unfold datetime_new.
  replace (valid_datetime (mk_datetime (year d) (month d) (day d) (hour d) (minute d) 0 0))
    with true; [reflexivity|].
  symmetry. unfold valid_datetime in *. cbn [year month day hour minute second microsecond].
  rewrite !andb_true_iff in *. intuition.
Qed.

Lemma shown_date_parses_back_example :
  knows_ascii_digits basic_runtime /\
  strftime_Y (year launch_date) = digits 4 (year launch_date) /\
  valid_datetime launch_date = true /\
  strftime launch_date = utf8 "24.12.2024 15:00" /\
  strptime (utf8 "24.12.2024 15:00") = Ok launch_date.
Proof.
  assert (H : knows_ascii_digits basic_runtime).
  { split; [|reflexivity]. intros k Hk.
    assert (Hcases : k = 0 \/ k = 1 \/ k = 2 \/ k = 3 \/ k = 4 \/ k = 5 \/ k = 6 \/
                     k = 7 \/ k = 8 \/ k = 9) by lia.
    repeat destruct Hcases as [->|Hcases]; try subst k; split; reflexivity. }
  split; [exact H|]. split; [reflexivity|]. split; [reflexivity|].
  split; [reflexivity|].
  exact (shown_date_parses_back basic_runtime glibc launch_date H eq_refl eq_refl).
Defined.

(** ** What /contacts and /events list *)

Lemma fold_left_entries {A} (lines : str -> A -> str) (entry : A -> str)
    (items : list A) (message : str) :
  (forall message item, lines message item = message ++ entry item) ->
  fold_left lines items message = message ++ List.concat (map entry items).
Proof.
  intros Hlines. revert message.
  induction items as [|item items IH]; intros message; cbn [fold_left map List.concat].
  - now rewrite app_nil_r.
  - now rewrite IH, Hlines, app_assoc.
Qed.

Lemma contact_lines_entry (message : str) (contact : contact_dict) :
  contact_lines message contact = message ++ contact_entry contact.
Proof.
  unfold contact_lines, contact_entry.
  destruct (truthy (c_info contact)); now rewrite <- ?app_assoc.
Qed.

Lemma event_lines_entry (libc : Libc) (message : str) (event : event_dict) :
  event_lines message event = message ++ event_entry event.
Proof.
  unfold event_lines, event_entry.
  destruct (truthy (e_description event)); now rewrite <- ?app_assoc.
Qed.

(** With the backend up and at least one contact stored, the reply to
    /contacts is the header followed by the lines of every stored
    contact, each once, in ascending order of name. *)
Theorem contacts_command_lists_every_contact (py : PyRuntime) (libc : Libc) (env : Env)
    (args : list str) (w : World) :
  sqlite_ok env = true -> contacts (db w) <> [] ->
  exists listed,
    Permutation listed
      (map (fun row => {| c_name := ct_name row; c_info := ct_info row |})
           (contacts (db w))) /\
    Sorted (fun a b => str_leb (c_name a) (c_name b) = true) listed /\
    show_contacts env args w =
    (Ok tt, replied w (MSG_CONTACTS_HEADER ++ List.concat (map contact_entry listed))).
Proof.
  intros Hok Hsome.
  exists (map (fun row => {| c_name := ct_name row; c_info := ct_info row |})
              (select_contacts_ordered (db w))).
  split; [|split].
  - apply Permutation_map. apply order_by_Permutation.
  - apply (Sorted_map (fun row => {| c_name := ct_name row; c_info := ct_info row |})
             (fun a b => str_leb (c_name a) (c_name b) = true)).
    cbn [c_name]. unfold select_contacts_ordered.
    apply (order_by_Sorted (fun a b => str_leb (ct_name a) (ct_name b))).
    intros x y. apply str_leb_total.
  - rewrite show_contacts_spec, get_contacts_ok by assumption. cbn [fst].
    destruct (select_contacts_ordered (db w)) as [|row rows] eqn:E.
    + exfalso. apply Hsome.
      apply Permutation_nil. rewrite <- E. unfold select_contacts_ordered.
      apply order_by_Permutation.
    + cbn [map]. f_equal. f_equal.
      apply (fold_left_entries contact_lines contact_entry), contact_lines_entry.
Qed.

Lemma contacts_command_lists_every_contact_example :
  sqlite_ok example_env = true /\ contacts two_anns <> [] /\
  exists listed,
    Permutation listed
      (map (fun row => {| c_name := ct_name row; c_info := ct_info row |})
           (contacts two_anns)) /\
    Sorted (fun a b => str_leb (c_name a) (c_name b) = true) listed /\
    show_contacts example_env []
      {| db := two_anns; user_data := user_data_empty; replies := []; logged := [] |} =
    (Ok tt,
     replied {| db := two_anns; user_data := user_data_empty; replies := [];
                logged := [] |}
       (MSG_CONTACTS_HEADER ++ List.concat (map contact_entry listed))).
Proof.
  assert (H : contacts two_anns <> []) by discriminate.
  split; [reflexivity|]. split; [exact H|].
  exact (contacts_command_lists_every_contact basic_runtime glibc example_env []
           {| db := two_anns; user_data := user_data_empty; replies := [];
              logged := [] |} eq_refl H).
Defined.

Section ShownEvents.
Context {py : PyRuntime} {libc : Libc}.
Hypothesis fromisoformat_isoformat : fromisoformat_inverts_isoformat py.

(** An event that is stored with the ISO text of a date not before the
    current time, and is not notified, has its lines in the reply to
    /events: its name, its date as [dd.mm.YYYY HH:MM] and its
    description when it has one. *)
Theorem stored_event_is_shown (env : Env) (args : list str) (w : World)
    (row : events_row) (date : datetime) :
  sqlite_ok env = true ->
  In row (events (db w)) ->
  ev_event_date row = SqlText (isoformat date) -> ev_notified row = 0 ->
  valid_datetime date = true -> valid_datetime (now env) = true ->
  datetime_leb (now env) date = true ->
  exists before after,
    show_events env args w =
    (Ok tt,
     replied w
       (before ++
        event_entry {| e_name := ev_name row; e_event_date := date;
                       e_description := or_empty (ev_description row) |} ++
        after)).
Proof.
  intros Hok Hrow Hdate Hnot Hvalid Hnow Hle.
  set (e := {| e_name := ev_name row; e_event_date := date;
               e_description := or_empty (ev_description row) |}).
  assert (Hin : In e (events_that_parse (select_upcoming (isoformat (now env)) None (db w)))).
  { apply events_that_parse_In. exists row. split; [|split].
    - apply select_upcoming_In_iff. repeat split; auto.
      rewrite Hdate. unfold sql_geb. now rewrite sql_leb_isoformat.
    - cbn [e e_event_date]. now apply row_fromisoformat_canonical.
    - reflexivity. }
  rewrite show_events_spec, get_upcoming_events_unbounded by assumption. cbn [fst].
  destruct (events_that_parse _) as [|event due] eqn:E; [destruct Hin|].
  rewrite (fold_left_entries event_lines event_entry) by apply event_lines_entry.
  destruct (in_split _ _ Hin) as (l1 & l2 & Hsplit). rewrite Hsplit.
  rewrite map_app, concat_app. cbn [map List.concat].
  exists (MSG_EVENTS_HEADER ++ List.concat (map event_entry l1)),
    (List.concat (map event_entry l2)).
  now rewrite <- !app_assoc.
Qed.

End ShownEvents.

Lemma stored_event_is_shown_example :
  fromisoformat_inverts_isoformat basic_runtime /\
  sqlite_ok example_env = true /\
  In {| ev_name := utf8 "Launch"; ev_event_date := SqlText (isoformat launch_date);
        ev_description := Some []; ev_notified := 0 |} (events (db launch_world)) /\
  valid_datetime launch_date = true /\ valid_datetime (now example_env) = true /\
  datetime_leb (now example_env) launch_date = true /\
  exists before after,
    show_events example_env [] launch_world =
    (Ok tt,
     replied launch_world
       (before ++
        event_entry {| e_name := utf8 "Launch"; e_event_date := launch_date;
                       e_description := [] |} ++ after)).
Proof.
  assert (H : In {| ev_name := utf8 "Launch";
                    ev_event_date := SqlText (isoformat launch_date);
                    ev_description := Some []; ev_notified := 0 |}
                 (events (db launch_world))) by (left; reflexivity).
  split; [exact basic_fromisoformat_isoformat|]. split; [reflexivity|].
  split; [exact H|]. repeat (split; [reflexivity|]).
  exact (stored_event_is_shown basic_fromisoformat_isoformat example_env [] launch_world
           _ launch_date eq_refl H eq_refl eq_refl eq_refl eq_refl eq_refl).
Defined.

(** ** The daily job *)

Lemma add_days_raises (d : datetime) (n : Z) (e : exn) :
  add_days d n = Raise e -> e = OverflowError.
Proof.
  unfold add_days.
  destruct ((0 <? _) && (_ <=? MAXORDINAL)); [|now intros [= <-]].
  now destruct (ord2ymd _) as [[y m] dd].
Qed.

Section DailyJob.
Context {py : PyRuntime}.

Lemma get_upcoming_events_overflow (env : Env) (n : Z) (e : exn) (d : Database) :
  sqlite_ok env = true -> add_days (now env) n = Raise e ->
  get_upcoming_events env (Some n) d = (Raise OverflowError, d).
Proof.
  intros Hok Hend. rewrite (add_days_raises _ _ _ Hend) in Hend.
  unfold get_upcoming_events, try_except, bind, get_connection, lift.
  rewrite Hok, Hend. reflexivity.
Qed.

(** The daily job sends nothing and writes nothing to the store or to
    [user_data]; it logs one message, which starts with the digest
    header, whether or not the backend is up.  On the last day a
    datetime can hold, the end of the one-day window does not exist:
    the job then logs no message at all. *)
Theorem daily_job_logs_one_message (env : Env) (w : World) :
  ((sqlite_ok env = true -> exists end_date, add_days (now env) 1 = Ok end_date) ->
   exists body,
     send_daily_digest env w =
     (Ok tt,
      {| db := db w; user_data := user_data w; replies := replies w;
         logged := logged w ++ [MSG_LOG_PREFIX ++ MSG_DAILY_DIGEST body] |})) /\
  (forall e,
     sqlite_ok env = true -> add_days (now env) 1 = Raise e ->
     send_daily_digest env w = (Ok tt, w)).
Proof.
  split.
  - intros Hend.
    unfold send_daily_digest, try_except, bind, call_db, logger_info, Exception.
    cbn [db user_data replies logged].
    destruct (sqlite_ok env) eqn:Hok.
    + destruct (Hend eq_refl) as [end_date Hdate].
      rewrite get_recent_digests_ok by (assumption || lia).
      cbn [db user_data replies logged].
      rewrite (get_upcoming_events_bounded env 1 end_date _ Hok Hdate).
      cbn [db user_data replies logged].
      destruct (select_recent_digests 1 (db w)) as [|digest digests];
        destruct (events_that_parse _) as [|event due].
      * exists (utf8 "Сегодня нет новых дайджестов.").
        unfold MSG_NO_DIGEST, MSG_DAILY_DIGEST. reflexivity.
      * exists (utf8 "Сегодня нет новых дайджестов." ++
                fold_left (fun message event => message ++ MSG_BULLET (e_name event))
                  (event :: due) MSG_EVENTS_TODAY).
        do 4 f_equal. unfold MSG_NO_DIGEST, MSG_DAILY_DIGEST.
        rewrite (fold_left_entries _ (fun event => MSG_BULLET (e_name event))) by reflexivity.
        rewrite (fold_left_entries _ (fun event => MSG_BULLET (e_name event))) by reflexivity.
        now rewrite <- !app_assoc.
      * exists digest. reflexivity.
      * exists (digest ++
                fold_left (fun message event => message ++ MSG_BULLET (e_name event))
                  (event :: due) MSG_EVENTS_TODAY).
        do 4 f_equal. unfold MSG_DAILY_DIGEST.
        rewrite (fold_left_entries _ (fun event => MSG_BULLET (e_name event))) by reflexivity.
        rewrite (fold_left_entries _ (fun event => MSG_BULLET (e_name event))) by reflexivity.
        now rewrite <- !app_assoc.
    + rewrite get_recent_digests_fails by assumption.
      cbn [db user_data replies logged].
      rewrite get_upcoming_events_backend_down by assumption.
      cbn [db user_data replies logged].
      exists (utf8 "Сегодня нет новых дайджестов.").
      unfold MSG_NO_DIGEST, MSG_DAILY_DIGEST. reflexivity.
  - intros e Hok Hend.
    unfold send_daily_digest, try_except, bind, call_db, logger_info, Exception.
    rewrite get_recent_digests_ok by (assumption || lia).
    cbn [db user_data replies logged].
    rewrite (get_upcoming_events_overflow env 1 e _ Hok Hend).
    cbn [db user_data replies logged]. unfold ret. now destruct w.
Qed.

End DailyJob.

Lemma daily_job_logs_one_message_example :
  (exists body,
     send_daily_digest example_env launch_world =
     (Ok tt,
      {| db := db launch_world; user_data := user_data launch_world;
         replies := replies launch_world;
         logged := logged launch_world ++ [MSG_LOG_PREFIX ++ MSG_DAILY_DIGEST body] |})) /\
  add_days (now last_day_env) 1 = Raise OverflowError /\
  send_daily_digest last_day_env launch_world = (Ok tt, launch_world).
Proof.
  split; [|split; [reflexivity|]].
  - apply (proj1 (daily_job_logs_one_message example_env launch_world)).
    intros _. eexists. reflexivity.
  - exact (proj2 (daily_job_logs_one_message last_day_env launch_world) OverflowError
             eq_refl eq_refl).
Defined.

(** ** The daily job and the [notified] flag *)

Section NeverMarked.
Context {py : PyRuntime}.
Hypothesis fromisoformat_isoformat : fromisoformat_inverts_isoformat py.

(** A run of the daily job lists an event of its one-day window that is
    not marked, and leaves the store as it is. *)
Lemma daily_job_lists_due_event (env : Env) (w : World) (row : events_row)
    (date end_date : datetime) :
  sqlite_ok env = true -> valid_datetime (now env) = true ->
  add_days (now env) 1 = Ok end_date -> valid_datetime end_date = true ->
  In row (events (db w)) -> ev_notified row = 0 ->
  ev_event_date row = SqlText (isoformat date) -> valid_datetime date = true ->
  datetime_leb (now env) date = true -> datetime_leb date end_date = true ->
  exists message,
    send_daily_digest env w = (Ok tt, having_logged w [message]) /\
    lists_event message (ev_name row).
Proof.
  intros Hok Hnow Hend Hvend Hrow Hnot Hdate Hvalid Hfrom Hto.
  set (e := {| e_name := ev_name row; e_event_date := date;
               e_description := or_empty (ev_description row) |}).
  assert (Hin : In e (events_that_parse
                        (select_upcoming (isoformat (now env))
                           (Some (isoformat end_date)) (db w)))).
  { apply events_that_parse_In. exists row. split; [|split].
    - apply select_upcoming_In_iff. rewrite Hdate. unfold sql_geb.
      rewrite !sql_leb_isoformat by assumption. auto.
    - cbn [e e_event_date]. now apply row_fromisoformat_canonical.
    - reflexivity. }
  destruct (in_split _ _ Hin) as (l1 & l2 & Hsplit).
  set (header := match select_recent_digests 1 (db w) with
                 | digest :: _ => MSG_DAILY_DIGEST digest
                 | [] => MSG_NO_DIGEST
                 end).
  exists (MSG_LOG_PREFIX ++
          fold_left (fun message event => message ++ MSG_BULLET (e_name event))
            (l1 ++ e :: l2) (header ++ MSG_EVENTS_TODAY)).
  split.
  - unfold send_daily_digest, try_except, bind, call_db, logger_info, Exception,
      having_logged.
    cbn [db user_data replies logged].
    rewrite get_recent_digests_ok by (assumption || lia).
    cbn [db user_data replies logged].
    rewrite (get_upcoming_events_bounded env 1 end_date _ Hok Hend).
    cbn [db user_data replies logged]. rewrite Hsplit. fold header.
    destruct (l1 ++ e :: l2) as [|event due] eqn:E; [now destruct l1|].
    reflexivity.
  - rewrite (fold_left_entries _ (fun event => MSG_BULLET (e_name event))) by reflexivity.
    rewrite map_app, concat_app. cbn [map List.concat e_name e].
    exists (MSG_LOG_PREFIX ++ header ++ MSG_EVENTS_TODAY ++
            List.concat (map (fun event => MSG_BULLET (e_name event)) l1)),
      (List.concat (map (fun event => MSG_BULLET (e_name event)) l2)).
    now rewrite <- !app_assoc.
Qed.

(** C5. The daily job never marks what it lists: a run lists every
    event of its one-day window whose [notified] flag is 0 and writes
    nothing to the store, so the flag is still 0 afterwards and any
    other run with the event in its window lists the event again.
    ([mark_event_notified] is the one method that sets the flag, and
    the job does not call it; no handler changes the flag of a stored
    event either, see [handle_update_keeps_flags].) *)
Theorem daily_job_never_marks_what_it_lists (env1 env2 : Env) (w : World)
    (row : events_row) (date end1 end2 : datetime) :
  sqlite_ok env1 = true -> sqlite_ok env2 = true ->
  valid_datetime (now env1) = true -> valid_datetime (now env2) = true ->
  add_days (now env1) 1 = Ok end1 -> add_days (now env2) 1 = Ok end2 ->
  valid_datetime end1 = true -> valid_datetime end2 = true ->
  In row (events (db w)) -> ev_notified row = 0 ->
  ev_event_date row = SqlText (isoformat date) -> valid_datetime date = true ->
  datetime_leb (now env1) date = true -> datetime_leb date end1 = true ->
  datetime_leb (now env2) date = true -> datetime_leb date end2 = true ->
  exists message1 message2,
    send_daily_digest env1 w = (Ok tt, having_logged w [message1]) /\
    send_daily_digest env2 (having_logged w [message1]) =
      (Ok tt, having_logged w [message1; message2]) /\
    lists_event message1 (ev_name row) /\ lists_event message2 (ev_name row) /\
    In row (events (db (having_logged w [message1; message2]))).
Proof.
  intros Hok1 Hok2 Hnow1 Hnow2 Hend1 Hend2 Hv1 Hv2 Hrow Hnot Hdate Hvalid
    Hfrom1 Hto1 Hfrom2 Hto2.
  destruct (daily_job_lists_due_event env1 w row date end1)
    as (message1 & Hrun1 & Hlists1); try assumption.
  destruct (daily_job_lists_due_event env2 (having_logged w [message1]) row date end2)
    as (message2 & Hrun2 & Hlists2); try assumption.
  exists message1, message2. split; [exact Hrun1|]. split.
  - rewrite Hrun2. unfold having_logged. cbn [db user_data replies logged].
    now rewrite <- app_assoc.
  - repeat split; assumption.
Qed.

End NeverMarked.

Lemma daily_job_never_marks_what_it_lists_example :
  fromisoformat_inverts_isoformat basic_runtime /\
  In {| ev_name := utf8 "Launch"; ev_event_date := SqlText (isoformat launch_date);
        ev_description := Some []; ev_notified := 0 |} (events (db launch_world)) /\
  add_days (now example_env) 1 = Ok (mk_datetime 2024 12 25 10 30 15 123456) /\
  add_days (now later_env) 1 = Ok (mk_datetime 2024 12 25 11 30 15 123456) /\
  datetime_leb (now example_env) launch_date = true /\
  datetime_leb (now later_env) launch_date = true /\
  exists message1 message2,
    send_daily_digest example_env launch_world =
      (Ok tt, having_logged launch_world [message1]) /\
    send_daily_digest later_env (having_logged launch_world [message1]) =
      (Ok tt, having_logged launch_world [message1; message2]) /\
    lists_event message1 (utf8 "Launch") /\ lists_event message2 (utf8 "Launch") /\
    In {| ev_name := utf8 "Launch"; ev_event_date := SqlText (isoformat launch_date);
          ev_description := Some []; ev_notified := 0 |}
       (events (db (having_logged launch_world [message1; message2]))).
Proof.
  assert (H : In {| ev_name := utf8 "Launch";
                    ev_event_date := SqlText (isoformat launch_date);
                    ev_description := Some []; ev_notified := 0 |}
                 (events (db launch_world))) by (left; reflexivity).
  split; [exact basic_fromisoformat_isoformat|]. split; [exact H|].
  repeat (split; [reflexivity|]).
  exact (daily_job_never_marks_what_it_lists basic_fromisoformat_isoformat
           example_env later_env launch_world _ launch_date
           (mk_datetime 2024 12 25 10 30 15 123456)
           (mk_datetime 2024 12 25 11 30 15 123456)
           eq_refl eq_refl eq_refl eq_refl eq_refl eq_refl eq_refl eq_refl
           H eq_refl eq_refl eq_refl eq_refl eq_refl eq_refl eq_refl).
Defined.

(** ** What an update may write *)

Ltac one_write_done :=
  cbn [fst snd db user_data replies logged];
  first [ apply no_write | apply wrote_answer | apply wrote_contact
        | apply wrote_event | apply wrote_digest ].

Section Writes.
Context {py : PyRuntime} {libc : Libc}.

Lemma prompts_write_nothing :
  writes_once question_start /\ writes_once answer_start /\ writes_once cancel /\
  writes_once add_contact_start /\ writes_once add_contact_name /\
  writes_once add_event_start /\ writes_once add_event_name /\
  writes_once add_digest_start.
Proof.
  repeat match goal with |- _ /\ _ => split end;
    intros env text w; run_handler; one_write_done.
Qed.

Lemma question_received_writes_nothing : writes_once question_received.
Proof.
  intros env text w. run_handler. destruct (sqlite_ok env) eqn:Hok.
  - rewrite get_company_info_ok by assumption.
    destruct (truthy_opt _); one_write_done.
  - rewrite get_company_info_fails by assumption. one_write_done.
Qed.

Lemma answer_received_writes_once : writes_once answer_received.
Proof.
  intros env text w. run_handler.
  destruct (contains (lower text) VOPROS && contains (lower text) OTVET);
    [|one_write_done].
  destruct (List.length (re_split OTVET_COLON text) =? 2)%nat; [|one_write_done].
  destruct (truthy _ && truthy _); [|one_write_done].
  destruct (sqlite_ok env) eqn:Hok.
  - rewrite add_company_info_ok by assumption. one_write_done.
  - rewrite add_company_info_fails by assumption. one_write_done.
Qed.

Lemma add_contact_info_writes_once : writes_once add_contact_info.
Proof.
  intros env text w. run_handler.
  destruct (truthy_opt (contact_name (user_data w))); [|one_write_done].
  destruct (sqlite_ok env) eqn:Hok.
  - rewrite add_contact_ok by assumption. one_write_done.
  - rewrite add_contact_fails by assumption. one_write_done.
Qed.

Lemma add_event_date_writes_nothing : writes_once add_event_date.
Proof.
  intros env text w. destruct (strptime text) as [date|e] eqn:E.
  - rewrite (add_event_date_parsed env text w date E). one_write_done.
  - rewrite (add_event_date_rejected env text w e E). unfold replied. one_write_done.
Qed.

Lemma add_event_description_writes_once : writes_once add_event_description.
Proof.
  intros env text w. run_handler.
  destruct (truthy_opt (event_name (user_data w))); [|one_write_done].
  destruct (event_date (user_data w)) as [date|]; [|one_write_done].
  destruct (sqlite_ok env) eqn:Hok.
  - rewrite add_event_ok by assumption. one_write_done.
  - rewrite add_event_fails by assumption. one_write_done.
Qed.

Lemma add_digest_received_writes_once : writes_once add_digest_received.
Proof.
  intros env text w. run_handler. destruct (sqlite_ok env) eqn:Hok.
  - rewrite add_digest_ok by assumption. one_write_done.
  - rewrite add_digest_fails by assumption. one_write_done.
Qed.

Lemma registered_handlers_write_once (env : Env) (conv : ConversationHandler)
    (state : option Z) (u : Update) (handler : Handler) :
  In conv conversations -> check_update env conv state u = Some handler ->
  writes_once handler.
Proof.
  destruct prompts_write_nothing as (Hqs & Has & Hc & Hcs & Hcn & Hes & Hen & Hds).
  apply (registered_handlers writes_once); try assumption.
  - exact question_received_writes_nothing.
  - exact answer_received_writes_once.
  - exact add_contact_info_writes_once.
  - exact add_event_date_writes_nothing.
  - exact add_event_description_writes_once.
  - exact add_digest_received_writes_once.
Qed.

Lemma conversations_write_once (convs : list ConversationHandler) (env : Env)
    (states : list (option Z)) (u : Incoming) (w : World) :
  (forall conv, In conv convs -> In conv conversations) ->
  one_write (db w) (db (snd (process_update (map Conversation convs) env states u w))).
Proof.
  revert states. induction convs as [|conv convs IH]; intros states Hin.
  - apply no_write.
  - cbn [map process_update].
    destruct (check_update env conv (hd None states) (as_update u)) as [handler|] eqn:Hcheck.
    + unfold handle_update. rewrite Hcheck. unfold bind, ret.
      assert (Hconv : In conv conversations) by (apply Hin; now left).
      pose proof (registered_handlers_write_once env conv _ _ handler Hconv Hcheck env
                    (message_text (as_update u)) w) as H.
      destruct (handler env (message_text (as_update u)) w) as [[returned|e] w'];
        exact H.
    + assert (H : one_write (db w)
                    (db (snd (process_update (map Conversation convs) env (tl states) u w)))).
      { apply IH. intros c Hc. apply Hin. now right. }
      unfold bind, ret.
      destruct (process_update (map Conversation convs) env (tl states) u w)
        as [[states'|e] w']; exact H.
Qed.

Lemma process_update_writes_once (env : Env) (states : list (option Z)) (u : Incoming)
    (w : World) :
  one_write (db w) (db (snd (process_update application env states u w))).
Proof.
  assert (Hconvs : one_write (db w)
            (db (snd (process_update (map Conversation conversations) env states u w))))
    by (apply conversations_write_once; auto).
  destruct u as [c args|text].
  - destruct (plain_command_or_pass env states c args w)
      as [(callback & Hcallback & ->)| ->]; [|exact Hconvs].
    destruct (plain_callbacks_reply env args w callback Hcallback) as (message & ->).
    unfold replied. one_write_done.
  - now rewrite (plain_handlers_pass env states (Text text) I).
Qed.

Lemma one_write_grows (d d' : Database) : one_write d d' -> grown_by 1 d d'.
Proof.
  intros [|q a|name info|name date description|content created_at].
  - exists [], [], []. rewrite !app_nil_r. cbn. repeat split; lia.
  - exists [], [], []. cbn [insert_or_replace_company_info contacts events digests].
    rewrite !app_nil_r. cbn. repeat split; lia.
  - eexists [_], [], []. cbn [insert_contact contacts events digests].
    rewrite !app_nil_r. cbn. repeat split; lia.
  - eexists [], [_], []. cbn [insert_event contacts events digests].
    rewrite !app_nil_r. cbn. repeat split; lia.
  - eexists [], [], [_]. cbn [insert_digest contacts events digests].
    rewrite !app_nil_r. cbn. repeat split; lia.
Qed.

Lemma grown_by_trans (n m : nat) (d1 d2 d3 : Database) :
  grown_by n d1 d2 -> grown_by m d2 d3 -> grown_by (n + m) d1 d3.
Proof.
  intros (c1 & e1 & g1 & Hc1 & He1 & Hg1 & Hn) (c2 & e2 & g2 & Hc2 & He2 & Hg2 & Hm).
  exists (c1 ++ c2), (e1 ++ e2), (g1 ++ g2).
  rewrite Hc2, He2, Hg2, Hc1, He1, Hg1, <- !app_assoc, !length_app.
  repeat split; lia.
Qed.

End Writes.

(** The bot never deletes or rewrites a contact, an event or a digest:
    after any sequence of updates, from any dialog states, the three
    tables hold the rows they held before, in the same order and
    unchanged, followed by at most one new row per update. *)
Theorem updates_only_add_rows (py : PyRuntime) (libc : Libc)
    (updates : list (Env * Incoming)) (states : list (option Z)) (w : World) :
  grown_by (List.length updates) (db w) (db (snd (run_polling states updates w))).
Proof.
  revert states w. induction updates as [|[env u] updates IH]; intros states w.
  - exists [], [], []. rewrite !app_nil_r. cbn. repeat split; lia.
  - cbn [run_polling List.length]. unfold bind.
    pose proof (process_update_writes_once env states u w) as Hstep.
    destruct (process_update_replies_at_most_once env states u w)
      as (states1 & w1 & Hrun & _).
    rewrite Hrun in *. cbn [snd] in Hstep.
    apply (grown_by_trans 1 (List.length updates) (db w) (db w1)).
    + now apply one_write_grows.
    + apply IH.
Qed.

(** ** Commands [main] does not register *)

Lemma matches_none_checked (env : Env) (names : list string) (c : string) :
  forallb (fun name => negb (command_matches (bot_username env) name c)) names = true ->
  matches_none env names c.
Proof.
  intros H name Hname. rewrite forallb_forall in H.
  apply negb_true_iff. now apply H.
Qed.

(** A command that matches none of the twelve commands [main]
    registers, neither in another letter case nor with the bot's own
    name after ["@"], is not answered and changes nothing, whatever the
    dialogs are doing: the bot has no reply for unknown commands and
    none for commands addressed to another bot. *)
Theorem unregistered_commands_are_ignored (py : PyRuntime) (libc : Libc) (env : Env)
    (states : list (option Z)) (c : string) (args : list str) (w : World) :
  matches_none env registered_commands c ->
  List.length states = List.length conversations ->
  process_update application env states (CommandWithArgs c args) w = (Ok states, w).
Proof.
  intros Hnone Hlen.
  rewrite (plain_handlers_pass env states (CommandWithArgs c args)).
  2:{ intros name Hname. apply Hnone. unfold registered_commands.
      apply in_or_app. now left. }
  apply process_update_all_skip.
  assert (Hskip : forall conv state,
             In conv conversations -> skips env (CommandWithArgs c args) conv state).
  { intros conv state Hconv. unfold conversations in Hconv. cbn [In] in Hconv.
    unfold skips, check_update. cbn [as_update].
    destruct state as [s|];
      destruct Hconv as [<-|[<-|[<-|[<-|[<-|[]]]]]];
      cbn [entry_points fallbacks question_conv answer_conv contact_conv event_conv
           digest_conv command_handler];
      match goal with
      | |- (if command_matches _ ?name c then _ else _) = None =>
          rewrite (Hnone name); [reflexivity|]
      end;
      unfold registered_commands, plain_commands, dialog_commands;
      cbn [map fst app In]; tauto. }
  unfold conversations in Hlen. cbn [List.length] in Hlen.
  destruct states as [|s1 [|s2 [|s3 [|s4 [|s5 [|s6 states]]]]]]; try discriminate.
  unfold conversations.
  apply Forall2_cons; [apply Hskip; left; reflexivity|].
  apply Forall2_cons; [apply Hskip; right; left; reflexivity|].
  apply Forall2_cons; [apply Hskip; right; right; left; reflexivity|].
  apply Forall2_cons; [apply Hskip; right; right; right; left; reflexivity|].
  apply Forall2_cons; [apply Hskip; right; right; right; right; left; reflexivity|].
  apply Forall2_nil.
Qed.

Lemma unregistered_commands_are_ignored_example :
  matches_none example_env registered_commands "contacts@otherbot" /\
  List.length [None; None; Some ADDING_CONTACT_INFO; None; None] =
    List.length conversations /\
  process_update application example_env
    [None; None; Some ADDING_CONTACT_INFO; None; None]
    (CommandWithArgs "contacts@otherbot" []) fresh_world =
  (Ok [None; None; Some ADDING_CONTACT_INFO; None; None], fresh_world).
Proof.
  assert (H : matches_none example_env registered_commands "contacts@otherbot")
    by (apply matches_none_checked; reflexivity).
  split; [exact H|]. split; [reflexivity|].
  exact (unregistered_commands_are_ignored basic_runtime glibc example_env
           [None; None; Some ADDING_CONTACT_INFO; None; None] "contacts@otherbot" []
           fresh_world H eq_refl).
Defined.

(** ** Other spellings of a command *)

Section Spellings.
Context {py : PyRuntime} {libc : Libc}.

Lemma registered_commands_plain (name : string) :
  In name registered_commands -> split_string "@" name = [name].
Proof.
  unfold registered_commands, plain_commands, dialog_commands.
  cbn [map fst app In]. intros H.
  repeat match type of H with
         | _ \/ _ => destruct H as [<-|H]
         | False => destruct H
         end; reflexivity.
Qed.

(** A spelling that matches a command matches the commands this one
    matches. *)
Lemma command_matches_same (username name c other : string) :
  split_string "@" name = [name] ->
  command_matches username name c = true ->
  command_matches username other c = command_matches username other name.
Proof.
  unfold command_matches. intros Hname Hc. rewrite Hname. cbn [app nth].
  apply andb_true_iff in Hc as [Hc Hbot].
  apply String.eqb_eq in Hc. apply String.eqb_eq in Hbot.
  now rewrite Hc, Hbot.
Qed.

Lemma command_handler_same (username name c : string)
    (handlers : list (string * Handler)) :
  (forall other, command_matches username other c = command_matches username other name) ->
  command_handler username c handlers = command_handler username name handlers.
Proof.
  intros Hsame. induction handlers as [|[other h] handlers IH]; [reflexivity|].
  cbn [command_handler]. now rewrite Hsame, IH.
Qed.

(** The handlers of commands do not read the text of the message. *)
Lemma command_handlers_ignore_text (env : Env) (conv : ConversationHandler)
    (state : option Z) (c : string) (handler : Handler) :
  In conv conversations -> check_update env conv state (Command c) = Some handler ->
  forall env' text text', handler env' text = handler env' text'.
Proof.
  unfold conversations. cbn [In]. unfold check_update.
  intros [<-|[<-|[<-|[<-|[<-|[]]]]]]; destruct state as [s|];
    cbn [entry_points fallbacks question_conv answer_conv contact_conv event_conv
         digest_conv command_handler];
    destruct (command_matches _ _ c); try discriminate;
    intros [= <-] env' text text'; reflexivity.
Qed.

Lemma process_update_same (handlers : list AppHandler) (env : Env)
    (states : list (option Z)) (name c : string) (args : list str) (w : World) :
  (forall other, command_matches (bot_username env) other c =
                 command_matches (bot_username env) other name) ->
  (forall conv, In (Conversation conv) handlers -> In conv conversations) ->
  process_update handlers env states (CommandWithArgs c args) w =
  process_update handlers env states (CommandWithArgs name args) w.
Proof.
  intros Hsame. revert states.
  induction handlers as [|[other callback|conv] handlers IH]; intros states Hconvs;
    [reflexivity| |].
  - cbn [process_update]. rewrite Hsame.
    destruct (command_matches _ other name); [reflexivity|].
    apply IH. intros conv Hconv. apply Hconvs. now right.
  - cbn [process_update as_update].
    assert (Hcheck : check_update env conv (hd None states) (Command c) =
                     check_update env conv (hd None states) (Command name)).
    { unfold check_update. destruct (hd None states);
        now apply command_handler_same. }
    unfold handle_update. rewrite <- Hcheck.
    destruct (check_update env conv (hd None states) (Command c))
      as [handler|] eqn:E.
    + unfold bind.
      rewrite (command_handlers_ignore_text env conv _ c handler
                 (Hconvs conv (or_introl eq_refl)) E env
                 (message_text (Command c)) (message_text (Command name))).
      reflexivity.
    + unfold bind. rewrite IH; [reflexivity|].
      intros conv' Hconv. apply Hconvs. now right.
Qed.

Lemma application_conversations (conv : ConversationHandler) :
  In (Conversation conv) application -> In conv conversations.
Proof.
  rewrite application_handlers. intros H. apply in_app_or in H as [H|H].
  - cbn [In] in H.
    repeat match type of H with
           | _ \/ _ => destruct H as [H'|H]; [discriminate H'|]
           | False => destruct H
           end.
  - apply in_map_iff in H as (conv' & [= ->] & H). exact H.
Qed.

End Spellings.

(** The letter case of a command does not matter, nor does the bot's
    own name after ["@"]: a command that matches a registered one is
    handled as the registered one, whatever the dialogs are doing. *)
Theorem command_spelling_does_not_matter (py : PyRuntime) (libc : Libc) (env : Env)
    (states : list (option Z)) (name c : string) (args : list str) (w : World) :
  In name registered_commands ->
  command_matches (bot_username env) name c = true ->
  process_update application env states (CommandWithArgs c args) w =
  process_update application env states (CommandWithArgs name args) w.
Proof.
  intros Hname Hc. apply process_update_same.
  - intros other. apply command_matches_same; [|exact Hc].
    now apply registered_commands_plain.
  - apply application_conversations.
Qed.

Lemma command_spelling_does_not_matter_example :
  In "contacts"%string registered_commands /\
  command_matches (bot_username example_env) "contacts" "Contacts@TestBot" = true /\
  process_update application example_env idle (CommandWithArgs "Contacts@TestBot" [])
    fresh_world =
  process_update application example_env idle (CommandWithArgs "contacts" [])
    fresh_world.
Proof.
  assert (H : In "contacts"%string registered_commands)
    by (right; right; left; reflexivity).
  split; [exact H|]. split; [reflexivity|].
  exact (command_spelling_does_not_matter basic_runtime glibc example_env idle
           "contacts" "Contacts@TestBot" [] fresh_world H eq_refl).
Defined.
